(** * Friend-recommendation engine (redsocial/usuarios/graph_engine.py)

    A shallow embedding of [GrafoSocial] and [MotorRecomendaciones] and the
    properties of the graph construction, the breadth-first traversals, the
    scoring and the recommendation list.

    Conventions of the embedding:
    - user identifiers, levels, distances, scores and limits are Python
      integers: [Z];
    - the adjacency [defaultdict(set)] is a [gmap Z (gset Z)]; reading with
      [.get(k, set())] is [vecinos], indexing with [d[k]] is [getitem], which
      inserts the missing key;
    - iterating over a Python set visits every element once, in an order
      that Python does not fix; the embedding visits in the order of
      [elements], and what is stated of a list made from a set (the common
      friends of a score, the names shown, entries with equal scores) is
      stated up to the order;
    - the database tables are lists of rows;
    - a [while] loop carries a fuel argument counting the entries taken from
      the queue; [None] means that the fuel was too small, and the fuel given
      by the methods is shown to be enough. *)

From stdpp Require Import gmap list strings sorting.

Set Warnings "-clear-no-such-hyp".

Local Open Scope Z_scope.

(** ** The backing store (django models) *)

Module User.
Record t : Type := { id : Z; username : string }.
End User.

Module Amistad.
Record t : Type := { usuario1_id : Z; usuario2_id : Z }.
End Amistad.

Module SolicitudAmistad.
Inductive Estado : Type := pendiente | aceptada | rechazada.

#[global] Instance Estado_eq_dec : EqDecision Estado.
Proof. solve_decision. Defined.

Record t : Type :=
  { de_usuario_id : Z; para_usuario_id : Z; estado : Estado }.
End SolicitudAmistad.

Record BaseDatos : Type :=
  { usuarios : list User.t;
    amistades : list Amistad.t;
    solicitudes : list SolicitudAmistad.t }.

(** [User.objects.get(id=x)]: the row, or [None] for [User.DoesNotExist]. *)
Definition User_objects_get (db : BaseDatos) (x : Z) : option User.t :=
  snd <$> list_find (λ u, User.id u = x) (usuarios db).

(** [set(User.objects.values_list('id', flat=True))] *)
Definition todos_usuarios (db : BaseDatos) : gset Z :=
  list_to_set (User.id <$> usuarios db).

(** Pending requests sent by [u]: the ids of their receivers. *)
Definition solicitudes_enviadas (db : BaseDatos) (u : Z) : gset Z :=
  list_to_set
    (SolicitudAmistad.para_usuario_id <$>
       filter (λ s, SolicitudAmistad.de_usuario_id s = u
                    ∧ SolicitudAmistad.estado s = SolicitudAmistad.pendiente)
              (solicitudes db)).

(** Pending requests received by [u]: the ids of their senders. *)
Definition solicitudes_recibidas (db : BaseDatos) (u : Z) : gset Z :=
  list_to_set
    (SolicitudAmistad.de_usuario_id <$>
       filter (λ s, SolicitudAmistad.para_usuario_id s = u
                    ∧ SolicitudAmistad.estado s = SolicitudAmistad.pendiente)
              (solicitudes db)).

(** ** Dictionaries of sets ([defaultdict(set)]) *)

(** [d.get(k, set())]: reads without inserting. *)
Definition dict_get (d : gmap Z (gset Z)) (k : Z) : gset Z :=
  default ∅ (d !! k).

(** [d[k]]: the missing key is inserted with an empty set. *)
Definition getitem (d : gmap Z (gset Z)) (k : Z) : gmap Z (gset Z) * gset Z :=
  match d !! k with
  | Some s => (d, s)
  | None => (<[k := ∅]> d, ∅)
  end.

(** [d[k].add(v)] *)
Definition getitem_add (d : gmap Z (gset Z)) (k v : Z) : gmap Z (gset Z) :=
  let '(d', s) := getitem d k in <[k := s ∪ {[v]}]> d'.

(** Every identifier that occurs in the dictionary, as a key or in a set. *)
Definition nodos (d : gmap Z (gset Z)) : gset Z :=
  dom d ∪ ⋃ (map_to_list d).*2.

(** ** The loops of [GrafoSocial] over a fixed adjacency dictionary *)

(** The [for vecino in ...] loop of [bfs_niveles]. *)
Fixpoint bfs_vecinos (nivel : Z) (vs : list Z) (visitados : gset Z)
    (cola : list (Z * Z)) (niveles : gmap Z (gset Z))
  : gset Z * list (Z * Z) * gmap Z (gset Z) :=
  match vs with
  | [] => (visitados, cola, niveles)
  | vecino :: vs' =>
      if decide (vecino ∈ visitados)
      then bfs_vecinos nivel vs' visitados cola niveles
      else bfs_vecinos nivel vs' ({[vecino]} ∪ visitados)
             (cola ++ [(vecino, nivel + 1)])
             (getitem_add niveles (nivel + 1) vecino)
  end.

(** The [while cola] loop of [bfs_niveles]. *)
Fixpoint bfs_loop (fuel : nat) (g : gmap Z (gset Z)) (nivel_maximo : Z)
    (visitados : gset Z) (cola : list (Z * Z)) (niveles : gmap Z (gset Z))
  : option (gmap Z (gset Z)) :=
  match cola with
  | [] => Some niveles
  | (actual, nivel) :: cola' =>
      match fuel with
      | O => None
      | S fuel' =>
          if decide (nivel_maximo ≤ nivel)
          then bfs_loop fuel' g nivel_maximo visitados cola' niveles
          else
            let '(visitados', cola'', niveles') :=
              bfs_vecinos nivel (elements (dict_get g actual))
                visitados cola' niveles in
            bfs_loop fuel' g nivel_maximo visitados' cola'' niveles'
      end
  end.

(** The [for vecino in ...] loop of [distancia_entre_usuarios]: [inl d] is
    the [return d] inside the loop. *)
Fixpoint dist_vecinos (destino_id distancia : Z) (vs : list Z)
    (visitados : gset Z) (cola : list (Z * Z))
  : Z + gset Z * list (Z * Z) :=
  match vs with
  | [] => inr (visitados, cola)
  | vecino :: vs' =>
      if decide (vecino = destino_id) then inl (distancia + 1)
      else if decide (vecino ∈ visitados)
      then dist_vecinos destino_id distancia vs' visitados cola
      else dist_vecinos destino_id distancia vs' ({[vecino]} ∪ visitados)
             (cola ++ [(vecino, distancia + 1)])
  end.

(** The [while cola] loop of [distancia_entre_usuarios]. *)
Fixpoint dist_loop (fuel : nat) (g : gmap Z (gset Z)) (destino_id : Z)
    (max_distancia : Z) (visitados : gset Z) (cola : list (Z * Z))
  : option Z :=
  match cola with
  | [] => Some (-1)
  | (actual, distancia) :: cola' =>
      match fuel with
      | O => None
      | S fuel' =>
          if decide (max_distancia ≤ distancia)
          then dist_loop fuel' g destino_id max_distancia visitados cola'
          else
            match dist_vecinos destino_id distancia
                    (elements (dict_get g actual)) visitados cola' with
            | inl d => Some d
            | inr (visitados', cola'') =>
                dist_loop fuel' g destino_id max_distancia visitados' cola''
            end
      end
  end.

(** Fuel for a traversal of [g]: one entry for the origin and one for each
    identifier of the dictionary. *)
Definition combustible (g : gmap Z (gset Z)) : nat := S (size (nodos g)).

(** ** Computations: state of the object, exceptions, fuel *)

Inductive Excepcion : Type := DoesNotExist.

Inductive Resultado (A : Type) : Type :=
| Retorna (a : A)
| Lanza (e : Excepcion).
Arguments Retorna {A} a.
Arguments Lanza {A} e.

(** A method of an object with state [S]: [None] when a loop ran out of
    fuel, otherwise the outcome and the state of the object afterwards. *)
Definition M (S A : Type) : Type := S → option (Resultado A * S).

#[global] Instance M_ret {S} : MRet (M S) :=
  λ A a s, Some (Retorna a, s).

#[global] Instance M_bind {S} : MBind (M S) :=
  λ A B f m s,
    match m s with
    | None => None
    | Some (Retorna a, s') => f a s'
    | Some (Lanza e, s') => Some (Lanza e, s')
    end.

Definition lanzar {S A} (e : Excepcion) : M S A := λ s, Some (Lanza e, s).

(** [try: m except User.DoesNotExist: h] *)
Definition intentar {S A} (m : M S A) (h : M S A) : M S A :=
  λ s, match m s with
       | Some (Lanza DoesNotExist, s') => h s'
       | r => r
       end.

Definition leer {S} : M S S := λ s, Some (Retorna s, s).

(** The result of a loop with fuel. *)
Definition agotable {S A} (o : option A) : M S A :=
  λ s, match o with Some a => Some (Retorna a, s) | None => None end.

(** [for x in l: acc = f acc x] *)
Fixpoint para_cada {S A B} (f : B → A → M S B) (l : list A) (acc : B)
  : M S B :=
  match l with
  | [] => mret acc
  | x :: l' => acc' ← f acc x; para_cada f l' acc'
  end.

(** ** GrafoSocial *)

Module GrafoSocial.
Record t : Type := { grafo : gmap Z (gset Z); _construido : bool }.

Definition __init__ : t := {| grafo := ∅; _construido := false |}.

(** [self.grafo[user.id]]: the node exists afterwards. *)
Definition agregar_usuario (g : gmap Z (gset Z)) (user : User.t)
  : gmap Z (gset Z) :=
  (getitem g (User.id user)).1.

(** The two [add] of an edge. *)
Definition agregar_amistad (g : gmap Z (gset Z)) (amistad : Amistad.t)
  : gmap Z (gset Z) :=
  let g := getitem_add g (Amistad.usuario1_id amistad)
             (Amistad.usuario2_id amistad) in
  getitem_add g (Amistad.usuario2_id amistad) (Amistad.usuario1_id amistad).

(** The dictionary after [clear()] and the two loops of [construir_grafo]. *)
Definition grafo_construido (db : BaseDatos) : gmap Z (gset Z) :=
  let g := ∅ in
  let g := foldl agregar_usuario g (usuarios db) in
  foldl agregar_amistad g (amistades db).

Definition construir_grafo (db : BaseDatos) : M t unit :=
  λ self,
    Some (Retorna tt, {| grafo := grafo_construido db; _construido := true |}).

(** [if not self._construido: self.construir_grafo()] *)
Definition asegurar_construido (db : BaseDatos) : M t unit :=
  self ← leer;
  if _construido self then mret tt else construir_grafo db.

(** The object after that guard. *)
Definition asegurado (db : BaseDatos) (self : t) : t :=
  if _construido self then self
  else {| grafo := grafo_construido db; _construido := true |}.

Definition obtener_amigos (db : BaseDatos) (usuario_id : Z) : M t (gset Z) :=
  asegurar_construido db;;
  self ← leer;
  mret (dict_get (grafo self) usuario_id).

(** The callers always pass [nivel_maximo]; the default 2 is not modelled. *)
Definition bfs_niveles (db : BaseDatos) (usuario_id nivel_maximo : Z)
  : M t (gmap Z (gset Z)) :=
  asegurar_construido db;;
  self ← leer;
  agotable (bfs_loop (combustible (grafo self)) (grafo self) nivel_maximo
              {[usuario_id]} [(usuario_id, 0)] ∅).

Definition amigos_en_comun (db : BaseDatos) (usuario1_id usuario2_id : Z)
  : M t (gset Z) :=
  asegurar_construido db;;
  self ← leer;
  let amigos1 := dict_get (grafo self) usuario1_id in
  let amigos2 := dict_get (grafo self) usuario2_id in
  mret (amigos1 ∩ amigos2).

(** [max_distancia] has the default 5, which [calcular_puntuacion] uses. *)
Definition distancia_entre_usuarios (db : BaseDatos)
    (origen_id destino_id max_distancia : Z) : M t Z :=
  asegurar_construido db;;
  self ← leer;
  if decide (origen_id = destino_id) then mret 0
  else agotable (dist_loop (combustible (grafo self)) (grafo self) destino_id
                   max_distancia {[origen_id]} [(origen_id, 0)]).
End GrafoSocial.

(** ** MotorRecomendaciones *)

(** [l[:n]] *)
Definition slice_hasta {A} (l : list A) (n : Z) : list A :=
  if decide (n < 0) then take (Z.to_nat (Z.of_nat (length l) + n)) l
  else take (Z.to_nat n) l.

(** [len(s)] *)
Definition len (s : gset Z) : Z := Z.of_nat (size s).

(** The dictionary returned by [calcular_puntuacion]. *)
Module Datos.
Record t : Type :=
  { puntuacion : Z;
    amigos_comun : list Z;
    num_amigos_comun : Z;
    distancia : Z }.
End Datos.

(** An entry of the list returned by [obtener_recomendaciones]. *)
Module Recomendacion.
Record t : Type :=
  { usuario : User.t;
    puntuacion : Z;
    num_amigos_comun : Z;
    amigos_comun_nombres : list string;
    distancia : Z }.
End Recomendacion.

(** The dictionary returned by [obtener_estadisticas_grafo]. *)
Module Estadisticas.
Record t : Type :=
  { amigos_directos : Z;
    nivel_2 : Z;
    nivel_3 : Z;
    nivel_4 : Z;
    total_usuarios : Z;
    alcance : Z }.
End Estadisticas.

(** [recomendaciones.sort(key=lambda x: x['puntuacion'], reverse=True)]:
    a stable sort, highest score first. *)
Fixpoint insertar (r : Recomendacion.t) (l : list Recomendacion.t)
  : list Recomendacion.t :=
  match l with
  | [] => [r]
  | r' :: l' =>
      if decide (Recomendacion.puntuacion r' ≤ Recomendacion.puntuacion r)
      then r :: l
      else r' :: insertar r l'
  end.

Definition ordenar (l : list Recomendacion.t) : list Recomendacion.t :=
  foldr insertar [] l.

Module MotorRecomendaciones.
Record t : Type := { grafo : GrafoSocial.t }.

Definition __init__ : t := {| grafo := GrafoSocial.__init__ |}.

(** A call [self.grafo.m(...)]. *)
Definition en_grafo {A} (m : M GrafoSocial.t A) : M t A :=
  λ self, match m (grafo self) with
          | None => None
          | Some (r, g) => Some (r, {| grafo := g |})
          end.

(** [User.objects.get(id=x)] as a step of a method. *)
Definition obtener_usuario (db : BaseDatos) (x : Z) : M t User.t :=
  match User_objects_get db x with
  | Some u => mret u
  | None => lanzar DoesNotExist
  end.

(** [list(amigos_comun)] is the list of the elements of the set, here in
    the order of [elements]. *)
Definition calcular_puntuacion (db : BaseDatos) (usuario_id candidato_id : Z)
  : M t Datos.t :=
  amigos_comun ← en_grafo (GrafoSocial.amigos_en_comun db usuario_id candidato_id);
  let num_amigos_comun := len amigos_comun in
  distancia ← en_grafo
    (GrafoSocial.distancia_entre_usuarios db usuario_id candidato_id 5);
  let puntuacion := 0 in
  let puntuacion := puntuacion + num_amigos_comun * 10 in
  let puntuacion :=
    if decide (distancia = 2) then puntuacion + 5
    else if decide (distancia = 3) then puntuacion + 2
    else if decide (distancia > 3) then puntuacion + 1
    else puntuacion in
  mret {| Datos.puntuacion := puntuacion;
          Datos.amigos_comun := elements amigos_comun;
          Datos.num_amigos_comun := num_amigos_comun;
          Datos.distancia := distancia |}.

(** The candidates taken from the levels 2, 3 and 4. *)
Definition candidatos_de_niveles (niveles : gmap Z (gset Z)) : gset Z :=
  foldl (λ candidatos_ids nivel, candidatos_ids ∪ dict_get niveles nivel)
    ∅ [2; 3; 4].

(** [if len(candidatos_ids) < limite: ...]: the users without connection are
    added when the levels give fewer candidates than the limit. *)
Definition ampliar_candidatos (db : BaseDatos) (amigos_directos : gset Z)
    (usuario_id : Z) (candidatos_ids : gset Z) (limite : Z) : gset Z :=
  if decide (len candidatos_ids < limite) then
    let todos_usuarios := todos_usuarios db in
    let sin_conexion :=
      todos_usuarios ∖ amigos_directos ∖ {[usuario_id]} ∖ candidatos_ids in
    candidatos_ids ∪ sin_conexion
  else candidatos_ids.

(** The candidates with a pending request from or to the user are removed. *)
Definition excluir_pendientes (db : BaseDatos) (usuario_id : Z)
    (candidatos_ids : gset Z) : gset Z :=
  candidatos_ids ∖ solicitudes_enviadas db usuario_id
                 ∖ solicitudes_recibidas db usuario_id.

(** The names of at most three common friends; an identifier without a user
    is skipped. *)
Definition nombres_amigos_comun (db : BaseDatos) (amigos_comun : list Z)
  : M t (list string) :=
  para_cada
    (λ amigos_comun_nombres amigo_id,
       intentar
         (amigo ← obtener_usuario db amigo_id;
          mret (amigos_comun_nombres ++ [User.username amigo]))
         (mret amigos_comun_nombres))
    (take 3 amigos_comun) [].

(** The body of [for candidato_id in candidatos_ids]. *)
Definition recomendar_candidato (db : BaseDatos) (usuario_id : Z)
    (recomendaciones : list Recomendacion.t) (candidato_id : Z)
  : M t (list Recomendacion.t) :=
  intentar
    (candidato_user ← obtener_usuario db candidato_id;
     datos ← calcular_puntuacion db usuario_id candidato_id;
     amigos_comun_nombres ← nombres_amigos_comun db (Datos.amigos_comun datos);
     mret (recomendaciones ++
             [{| Recomendacion.usuario := candidato_user;
                 Recomendacion.puntuacion := Datos.puntuacion datos;
                 Recomendacion.num_amigos_comun := Datos.num_amigos_comun datos;
                 Recomendacion.amigos_comun_nombres := amigos_comun_nombres;
                 Recomendacion.distancia := Datos.distancia datos |}]))
    (mret recomendaciones).

(** The candidates of [obtener_recomendaciones] before the pending requests
    are looked at. *)
Definition candidatos_sin_filtrar (db : BaseDatos) (usuario_id limite : Z)
  : M t (gset Z) :=
  en_grafo (GrafoSocial.construir_grafo db);;
  amigos_directos ← en_grafo (GrafoSocial.obtener_amigos db usuario_id);
  niveles ← en_grafo (GrafoSocial.bfs_niveles db usuario_id 4);
  let candidatos_ids := candidatos_de_niveles niveles in
  mret (ampliar_candidatos db amigos_directos usuario_id candidatos_ids limite).

Definition obtener_recomendaciones (db : BaseDatos) (usuario : User.t)
    (limite : Z) : M t (list Recomendacion.t) :=
  let usuario_id := User.id usuario in
  candidatos_ids ← candidatos_sin_filtrar db usuario_id limite;
  let candidatos_ids := excluir_pendientes db usuario_id candidatos_ids in
  recomendaciones ←
    para_cada (recomendar_candidato db usuario_id) (elements candidatos_ids) [];
  let recomendaciones := ordenar recomendaciones in
  mret (slice_hasta recomendaciones limite).

Definition obtener_estadisticas_grafo (db : BaseDatos) (usuario : User.t)
  : M t Estadisticas.t :=
  en_grafo (GrafoSocial.construir_grafo db);;
  let usuario_id := User.id usuario in
  niveles ← en_grafo (GrafoSocial.bfs_niveles db usuario_id 4);
  amigos ← en_grafo (GrafoSocial.obtener_amigos db usuario_id);
  self ← leer;
  mret {| Estadisticas.amigos_directos := len amigos;
          Estadisticas.nivel_2 := len (dict_get niveles 2);
          Estadisticas.nivel_3 := len (dict_get niveles 3);
          Estadisticas.nivel_4 := len (dict_get niveles 4);
          Estadisticas.total_usuarios :=
            Z.of_nat (size (GrafoSocial.grafo (grafo self)));
          Estadisticas.alcance :=
            map_fold (λ _ v suma, len v + suma) 0 niveles |}.
End MotorRecomendaciones.

(** ** Paths and distances in an adjacency dictionary *)

(** [camino g o v n]: there is a walk of [n] edges from [o] to [v]. *)
Inductive camino (g : gmap Z (gset Z)) (o : Z) : Z → nat → Prop :=
| camino_origen : camino g o o 0
| camino_paso p w n :
    camino g o p n → w ∈ dict_get g p → camino g o w (S n).

(** [dist g o v d]: the shortest walk from [o] to [v] has [d] edges. *)
Definition dist (g : gmap Z (gset Z)) (o v : Z) (d : nat) : Prop :=
  camino g o v d ∧ ∀ n, camino g o v n → (d ≤ n)%nat.

(** The adjacency is symmetric. *)
Definition simetrico (g : gmap Z (gset Z)) : Prop :=
  ∀ a b, b ∈ dict_get g a ↔ a ∈ dict_get g b.

(** No identifier is its own neighbour. *)
Definition sin_lazos (g : gmap Z (gset Z)) : Prop :=
  ∀ a, a ∉ dict_get g a.

(** [alcanza_en g o v k j]: the traversal of [g] from [o] bounded by [k]
    puts [v] in level [j]. *)
Definition alcanza_en (g : gmap Z (gset Z)) (o v k j : Z) : bool :=
  match bfs_loop (combustible g) g k {[o]} [(o, 0)] ∅ with
  | Some N => bool_decide (v ∈ dict_get N j)
  | None => false
  end.

(** ** The state of the engine after its calls *)

(** The engine after the guard of a query method of its graph. *)
Definition motor_asegurado (db : BaseDatos) (self : MotorRecomendaciones.t)
  : MotorRecomendaciones.t :=
  {| MotorRecomendaciones.grafo :=
       GrafoSocial.asegurado db (MotorRecomendaciones.grafo self) |}.

(** The engine after [self.grafo.construir_grafo()]. *)
Definition motor_construido (db : BaseDatos) : MotorRecomendaciones.t :=
  {| MotorRecomendaciones.grafo :=
       {| GrafoSocial.grafo := GrafoSocial.grafo_construido db;
                 GrafoSocial._construido := true |} |}.

(** ** Invariant of the level traversal *)

(** The levels of a queue: they never decrease and they differ by at most
    one from the first to the last. *)
Definition ordenada (ls : list Z) : Prop :=
  ∀ i j li lj, (i ≤ j)%nat → ls !! i = Some li → ls !! j = Some lj →
               li ≤ lj ≤ li + 1.

(** The invariant of the [while] loop of [bfs_niveles], for the visited set
    [V], the queue [Q] and the levels [N]. *)
Record bfs_inv (g : gmap Z (gset Z)) (o k : Z) (V : gset Z)
    (Q : list (Z * Z)) (N : gmap Z (gset Z)) : Prop :=
  { inv_origen : o ∈ V;
    inv_cola : ∀ v l, (v, l) ∈ Q → v ∈ V ∧ 0 ≤ l ∧ dist g o v (Z.to_nat l);
    inv_cerrado : ∀ v m, v ∈ V → (∀ l, (v, l) ∉ Q) → camino g o v m →
                         Z.of_nat m < k → dict_get g v ⊆ V;
    inv_orden : ordenada Q.*2;
    inv_visitados : ∀ v, v ∈ V → v = o ∨ ∃ j, v ∈ dict_get N j;
    inv_niveles : ∀ j v, v ∈ dict_get N j →
                         v ∈ V ∧ v ≠ o ∧ 1 ≤ j ≤ k ∧ dist g o v (Z.to_nat j) }.

(** ** The scenario of crear_datos_prueba.py *)

Module Escenario.
Definition ana := 1.
Definition carlos := 2.
Definition maria := 3.
Definition juan := 4.
Definition sofia := 5.
Definition diego := 6.
Definition lucia := 7.

Definition usuario (i : Z) (n : string) : User.t :=
  {| User.id := i; User.username := n |}.

Definition amistad (a b : Z) : Amistad.t :=
  {| Amistad.usuario1_id := a; Amistad.usuario2_id := b |}.

Definition db : BaseDatos :=
  {| usuarios :=
       [usuario ana "ana"; usuario carlos "carlos"; usuario maria "maria";
        usuario juan "juan"; usuario sofia "sofia"; usuario diego "diego";
        usuario lucia "lucia"];
     amistades :=
       [amistad ana carlos; amistad ana maria; amistad carlos juan;
        amistad maria juan; amistad maria sofia; amistad carlos diego;
        amistad diego lucia];
     solicitudes := [] |}.
End Escenario.

(** A chain of seven users, 1 - 2 - 3 - 4 - 5 - 6 - 7. *)
Module Cadena.
Definition db : BaseDatos :=
  {| usuarios := (λ i, Escenario.usuario i "u") <$> [1; 2; 3; 4; 5; 6; 7];
     amistades :=
       [Escenario.amistad 1 2; Escenario.amistad 2 3; Escenario.amistad 3 4;
        Escenario.amistad 4 5; Escenario.amistad 5 6; Escenario.amistad 6 7];
     solicitudes := [] |}.
End Cadena.

(** Two users and no friendship. *)
Module Aislados.
Definition db : BaseDatos :=
  {| usuarios := [Escenario.usuario 1 "a"; Escenario.usuario 2 "b"];
     amistades := [];
     solicitudes := [] |}.
End Aislados.

(** ** The entries of the recommendation list *)

(** [entrada_de db u r]: [r] is the entry that the loop of
    [obtener_recomendaciones] computes for its user, as a candidate for the
    user [u]: the candidate is a stored user, the count is the number of
    common neighbours, the distance is the one the distance search returns
    with the bound 5, the score follows from both, and the names are those
    of three of the common neighbours (of all of them when they are fewer)
    that have a user; which three, and in which order, is left open. *)
Definition entrada_de (db : BaseDatos) (u : Z) (r : Recomendacion.t) : Prop :=
  let c := User.id (Recomendacion.usuario r) in
  let g := GrafoSocial.grafo_construido db in
  let construido := {| GrafoSocial.grafo := g;
                       GrafoSocial._construido := true |} in
  let comunes := dict_get g u ∩ dict_get g c in
  User_objects_get db c = Some (Recomendacion.usuario r)
  ∧ Recomendacion.num_amigos_comun r = len comunes
  ∧ GrafoSocial.distancia_entre_usuarios db u c 5 construido
    = Some (Retorna (Recomendacion.distancia r), construido)
  ∧ Recomendacion.puntuacion r
    = 10 * len comunes
      + (if decide (Recomendacion.distancia r = 2) then 5
         else if decide (Recomendacion.distancia r = 3) then 2
         else if decide (Recomendacion.distancia r > 3) then 1
         else 0)
  ∧ ∃ mostrados : list Z,
      NoDup mostrados
      ∧ (∀ a, a ∈ mostrados → a ∈ comunes)
      ∧ length mostrados = (3 `min` size comunes)%nat
      ∧ Recomendacion.amigos_comun_nombres r
        = omap (λ a, User.username <$> User_objects_get db a) mostrados.

(** The order of the list: the score never increases. *)
Definition por_puntuacion (r1 r2 : Recomendacion.t) : Prop :=
  Recomendacion.puntuacion r2 ≤ Recomendacion.puntuacion r1.

(** ** The methods of the models (usuarios/models.py)

    A [User] object is passed as its identifier (two model objects are
    equal when their primary keys are), and a foreign key is read as the
    identifier it stores. *)

(** [Amistad.son_amigos(usuario1, usuario2)] *)
Definition son_amigos (db : BaseDatos) (usuario1 usuario2 : Z) : bool :=
  match filter (λ am, (Amistad.usuario1_id am = usuario1
                       ∧ Amistad.usuario2_id am = usuario2)
                      ∨ (Amistad.usuario1_id am = usuario2
                         ∧ Amistad.usuario2_id am = usuario1))
          (amistades db) with
  | [] => false
  | _ :: _ => true
  end.

Module PerfilUsuario.
Definition obtener_amigos (db : BaseDatos) (usuario : Z) : list Z :=
  let amistades :=
    filter (λ am, Amistad.usuario1_id am = usuario
                  ∨ Amistad.usuario2_id am = usuario) (amistades db) in
  foldl (λ amigos amistad,
           if decide (Amistad.usuario1_id amistad = usuario)
           then amigos ++ [Amistad.usuario2_id amistad]
           else amigos ++ [Amistad.usuario1_id amistad])
    [] amistades.

Definition contar_amigos (db : BaseDatos) (usuario : Z) : Z :=
  Z.of_nat (length (obtener_amigos db usuario)).

Definition solicitudes_pendientes_recibidas (db : BaseDatos) (usuario : Z)
  : list SolicitudAmistad.t :=
  filter (λ s, SolicitudAmistad.para_usuario_id s = usuario
               ∧ SolicitudAmistad.estado s = SolicitudAmistad.pendiente)
    (solicitudes db).

Definition solicitudes_pendientes_enviadas (db : BaseDatos) (usuario : Z)
  : list SolicitudAmistad.t :=
  filter (λ s, SolicitudAmistad.de_usuario_id s = usuario
               ∧ SolicitudAmistad.estado s = SolicitudAmistad.pendiente)
    (solicitudes db).
End PerfilUsuario.

(** ** The views that call the engine (usuarios/views.py)

    A view is given the authenticated [request.user]; what it returns is the
    context it renders.  The profile data, the messages and the templates
    are not part of the model. *)

Module Dashboard.
Record t : Type :=
  { num_amigos : Z;
    solicitudes_pendientes : Z;
    recomendaciones : list Recomendacion.t;
    estadisticas_grafo : Estadisticas.t;
    amigos : list Z }.
End Dashboard.

(** [dashboard_view]; the computation starts from a new
    [MotorRecomendaciones()]. *)
Definition dashboard_view (db : BaseDatos) (request_user : User.t)
  : M MotorRecomendaciones.t Dashboard.t :=
  let num_amigos := PerfilUsuario.contar_amigos db (User.id request_user) in
  let solicitudes_pendientes :=
    Z.of_nat (length (PerfilUsuario.solicitudes_pendientes_recibidas db
                        (User.id request_user))) in
  recomendaciones ←
    MotorRecomendaciones.obtener_recomendaciones db request_user 5;
  estadisticas_grafo ←
    MotorRecomendaciones.obtener_estadisticas_grafo db request_user;
  let amigos :=
    slice_hasta (PerfilUsuario.obtener_amigos db (User.id request_user)) 6 in
  mret {| Dashboard.num_amigos := num_amigos;
          Dashboard.solicitudes_pendientes := solicitudes_pendientes;
          Dashboard.recomendaciones := recomendaciones;
          Dashboard.estadisticas_grafo := estadisticas_grafo;
          Dashboard.amigos := amigos |}.

Module Recomendaciones.
Record t : Type :=
  { recomendaciones : list Recomendacion.t;
    estadisticas : Estadisticas.t }.
End Recomendaciones.

(** [recomendaciones_view] *)
Definition recomendaciones_view (db : BaseDatos) (request_user : User.t)
  : M MotorRecomendaciones.t Recomendaciones.t :=
  recomendaciones ←
    MotorRecomendaciones.obtener_recomendaciones db request_user 20;
  estadisticas ←
    MotorRecomendaciones.obtener_estadisticas_grafo db request_user;
  mret {| Recomendaciones.recomendaciones := recomendaciones;
          Recomendaciones.estadisticas := estadisticas |}.

(** What a view answers: the context it renders, or the 404 page of
    [get_object_or_404]. *)
Inductive Respuesta (A : Type) : Type :=
| Render (contexto : A)
| Http404.
Arguments Render {A} contexto.
Arguments Http404 {A}.

Module Perfil.
Record t : Type :=
  { usuario : User.t;
    es_propio : bool;
    son_amigos : bool;
    solicitud_enviada : bool;
    solicitud_recibida : option SolicitudAmistad.t;
    amigos : list Z;
    amigos_comun : list User.t;
    num_amigos : Z }.
End Perfil.

(** [perfil_view(request, username=None)] *)
Definition perfil_view (db : BaseDatos) (request_user : User.t)
    (username : option string)
  : M MotorRecomendaciones.t (Respuesta Perfil.t) :=
  let user :=
    match username with
    | None => Some request_user
    | Some nombre =>
        snd <$> list_find (λ u, User.username u = nombre) (usuarios db)
    end in
  match user with
  | None => mret Http404
  | Some user =>
      let es_propio := bool_decide (User.id user = User.id request_user) in
      let son_amigos :=
        if es_propio then false
        else son_amigos db (User.id request_user) (User.id user) in
      let solicitud_enviada :=
        if es_propio then false
        else match filter (λ s, SolicitudAmistad.de_usuario_id s
                                = User.id request_user
                                ∧ SolicitudAmistad.para_usuario_id s
                                  = User.id user
                                ∧ SolicitudAmistad.estado s
                                  = SolicitudAmistad.pendiente)
                     (solicitudes db) with
             | [] => false
             | _ :: _ => true
             end in
      let solicitud_recibida :=
        if es_propio then None
        else head (filter (λ s, SolicitudAmistad.de_usuario_id s = User.id user
                                ∧ SolicitudAmistad.para_usuario_id s
                                  = User.id request_user
                                ∧ SolicitudAmistad.estado s
                                  = SolicitudAmistad.pendiente)
                     (solicitudes db)) in
      let amigos := PerfilUsuario.obtener_amigos db (User.id user) in
      amigos_comun ←
        (if es_propio then mret []
         else
           MotorRecomendaciones.en_grafo (GrafoSocial.construir_grafo db);;
           amigos_comun_ids ←
             MotorRecomendaciones.en_grafo
               (GrafoSocial.amigos_en_comun db (User.id request_user)
                  (User.id user));
           mret (filter (λ u, User.id u ∈ amigos_comun_ids) (usuarios db)));
      mret (Render
              {| Perfil.usuario := user;
                 Perfil.es_propio := es_propio;
                 Perfil.son_amigos := son_amigos;
                 Perfil.solicitud_enviada := solicitud_enviada;
                 Perfil.solicitud_recibida := solicitud_recibida;
                 Perfil.amigos := amigos;
                 Perfil.amigos_comun := amigos_comun;
                 Perfil.num_amigos := Z.of_nat (length amigos) |})
  end.

(** ** The views that change friendships and requests (usuarios/views.py)

    A row of a table is identified by its position in the list, which
    stands for the primary key that the view receives.  The constraint
    [unique_together] of a model makes the insert of a pair that is already
    in the table fail with [IntegrityError].  The dates of the rows and the
    messages shown to the user are not part of the model.

    How a view ends: with the redirection that [redirect] returns, after
    the writes that leave [db']; with the [Http404] of [get_object_or_404];
    with the [IntegrityError] of an insert; or with the [NoReverseMatch]
    that [redirect] raises, after the writes that leave [db'], when no
    route has the name with these keyword arguments. *)

Inductive Salida : Type :=
| Redirige (db' : BaseDatos)
| NoEncontrado
| ErrorIntegridad
| SinRuta (db' : BaseDatos).

(** The routes of usuarios/urls.py: the name of each one with the keyword
    arguments of its pattern. *)
Definition urlpatterns : list (string * list string) :=
  [("inicio", []); ("registro", []); ("login", []); ("logout", []);
   ("dashboard", []); ("perfil", []); ("perfil_usuario", ["username"]);
   ("editar_perfil", []); ("lista_amigos", []); ("solicitudes", []);
   ("enviar_solicitud", ["user_id"]);
   ("aceptar_solicitud", ["solicitud_id"]);
   ("rechazar_solicitud", ["solicitud_id"]);
   ("cancelar_solicitud", ["solicitud_id"]);
   ("eliminar_amigo", ["user_id"]); ("recomendaciones", []);
   ("buscar_usuarios", [])]%string.

(** [return redirect(to, **kwargs)] at the end of a view that leaves
    [db']. *)
Definition redirect (to : string) (kwargs : list string) (db' : BaseDatos)
  : Salida :=
  if decide ((to, kwargs) ∈ urlpatterns) then Redirige db' else SinRuta db'.

Definition con_amistades (db : BaseDatos) (l : list Amistad.t) : BaseDatos :=
  {| usuarios := usuarios db; amistades := l; solicitudes := solicitudes db |}.

Definition con_solicitudes (db : BaseDatos) (l : list SolicitudAmistad.t)
  : BaseDatos :=
  {| usuarios := usuarios db; amistades := amistades db; solicitudes := l |}.

(** [SolicitudAmistad.objects.create(de_usuario=de, para_usuario=para)]: the
    row is pending; [None] is the [IntegrityError] of the unique pair. *)
Definition crear_solicitud (db : BaseDatos) (de para : Z) : option BaseDatos :=
  if decide (Exists (λ s, SolicitudAmistad.de_usuario_id s = de
                          ∧ SolicitudAmistad.para_usuario_id s = para)
               (solicitudes db))
  then None
  else Some (con_solicitudes db
               (solicitudes db ++
                  [{| SolicitudAmistad.de_usuario_id := de;
                      SolicitudAmistad.para_usuario_id := para;
                      SolicitudAmistad.estado := SolicitudAmistad.pendiente |}])).

(** [Amistad.objects.get_or_create(usuario1=u1, usuario2=u2)] *)
Definition obtener_o_crear_amistad (db : BaseDatos) (u1 u2 : Z) : BaseDatos :=
  if decide (Exists (λ am, Amistad.usuario1_id am = u1
                           ∧ Amistad.usuario2_id am = u2) (amistades db))
  then db
  else con_amistades db
         (amistades db ++
            [{| Amistad.usuario1_id := u1; Amistad.usuario2_id := u2 |}]).

(** [SolicitudAmistad.aceptar], for the row [s] at position [i]. *)
Definition aceptar (db : BaseDatos) (i : nat) (s : SolicitudAmistad.t)
  : BaseDatos :=
  let db :=
    con_solicitudes db
      (<[i := {| SolicitudAmistad.de_usuario_id :=
                   SolicitudAmistad.de_usuario_id s;
                 SolicitudAmistad.para_usuario_id :=
                   SolicitudAmistad.para_usuario_id s;
                 SolicitudAmistad.estado := SolicitudAmistad.aceptada |}]>
         (solicitudes db)) in
  obtener_o_crear_amistad db (SolicitudAmistad.de_usuario_id s)
    (SolicitudAmistad.para_usuario_id s).

(** [SolicitudAmistad.rechazar], for the row [s] at position [i]. *)
Definition rechazar (db : BaseDatos) (i : nat) (s : SolicitudAmistad.t)
  : BaseDatos :=
  con_solicitudes db
    (<[i := {| SolicitudAmistad.de_usuario_id :=
                 SolicitudAmistad.de_usuario_id s;
               SolicitudAmistad.para_usuario_id :=
                 SolicitudAmistad.para_usuario_id s;
               SolicitudAmistad.estado := SolicitudAmistad.rechazada |}]>
       (solicitudes db)).

Definition enviar_solicitud_view (db : BaseDatos) (request_user : User.t)
    (user_id : Z) : Salida :=
  match User_objects_get db user_id with
  | None => NoEncontrado
  | Some para_usuario =>
      if decide (User.id para_usuario = User.id request_user)
      then redirect "perfil" ["username"] db
      else if son_amigos db (User.id request_user) (User.id para_usuario)
      then redirect "perfil" ["username"] db
      else
        match filter
                (λ s, ((SolicitudAmistad.de_usuario_id s = User.id request_user
                        ∧ SolicitudAmistad.para_usuario_id s
                          = User.id para_usuario)
                       ∨ (SolicitudAmistad.de_usuario_id s
                          = User.id para_usuario
                          ∧ SolicitudAmistad.para_usuario_id s
                            = User.id request_user))
                      ∧ SolicitudAmistad.estado s = SolicitudAmistad.pendiente)
                (solicitudes db) with
        | _ :: _ => redirect "perfil" ["username"] db
        | [] =>
            match crear_solicitud db (User.id request_user)
                    (User.id para_usuario) with
            | Some db' => redirect "perfil" ["username"] db'
            | None => ErrorIntegridad
            end
        end
  end.

Definition aceptar_solicitud_view (db : BaseDatos) (request_user : User.t)
    (solicitud_id : nat) : Salida :=
  match solicitudes db !! solicitud_id with
  | Some solicitud =>
      if decide (SolicitudAmistad.para_usuario_id solicitud
                 = User.id request_user
                 ∧ SolicitudAmistad.estado solicitud
                   = SolicitudAmistad.pendiente)
      then redirect "solicitudes" [] (aceptar db solicitud_id solicitud)
      else NoEncontrado
  | None => NoEncontrado
  end.

Definition rechazar_solicitud_view (db : BaseDatos) (request_user : User.t)
    (solicitud_id : nat) : Salida :=
  match solicitudes db !! solicitud_id with
  | Some solicitud =>
      if decide (SolicitudAmistad.para_usuario_id solicitud
                 = User.id request_user
                 ∧ SolicitudAmistad.estado solicitud
                   = SolicitudAmistad.pendiente)
      then redirect "solicitudes" [] (rechazar db solicitud_id solicitud)
      else NoEncontrado
  | None => NoEncontrado
  end.

Definition cancelar_solicitud_view (db : BaseDatos) (request_user : User.t)
    (solicitud_id : nat) : Salida :=
  match solicitudes db !! solicitud_id with
  | Some solicitud =>
      if decide (SolicitudAmistad.de_usuario_id solicitud
                 = User.id request_user
                 ∧ SolicitudAmistad.estado solicitud
                   = SolicitudAmistad.pendiente)
      then redirect "solicitudes" []
             (con_solicitudes db (delete solicitud_id (solicitudes db)))
      else NoEncontrado
  | None => NoEncontrado
  end.

Definition eliminar_amigo_view (db : BaseDatos) (request_user : User.t)
    (user_id : Z) : Salida :=
  match User_objects_get db user_id with
  | None => NoEncontrado
  | Some amigo =>
      match list_find
              (λ am, (Amistad.usuario1_id am = User.id request_user
                      ∧ Amistad.usuario2_id am = User.id amigo)
                     ∨ (Amistad.usuario1_id am = User.id amigo
                        ∧ Amistad.usuario2_id am = User.id request_user))
              (amistades db) with
      | Some (i, _) =>
          redirect "lista_amigos" []
            (con_amistades db (delete i (amistades db)))
      | None => redirect "lista_amigos" [] db
      end
  end.

(** ** The databases that the views keep well formed *)

(** An unordered pair of identifiers. *)
Definition par (a b : Z) : Z * Z := (Z.min a b, Z.max a b).

Definition par_de_amistad (am : Amistad.t) : Z * Z :=
  par (Amistad.usuario1_id am) (Amistad.usuario2_id am).

Definition par_de_solicitud (s : SolicitudAmistad.t) : Z * Z :=
  par (SolicitudAmistad.de_usuario_id s) (SolicitudAmistad.para_usuario_id s).

Definition pendientes (db : BaseDatos) : list SolicitudAmistad.t :=
  filter (λ s, SolicitudAmistad.estado s = SolicitudAmistad.pendiente)
    (solicitudes db).

(** [bien_formada db]: a friendship joins two different users and is
    stored once for its pair; a pending request joins two different users
    that are not friends, and there is one at most for a pair. *)
Record bien_formada (db : BaseDatos) : Prop :=
  { bf_amistad_distinta :
      Forall (λ am, Amistad.usuario1_id am ≠ Amistad.usuario2_id am)
        (amistades db);
    bf_amistad_unica : NoDup (par_de_amistad <$> amistades db);
    bf_pendiente_distinta :
      Forall (λ s, SolicitudAmistad.de_usuario_id s
                   ≠ SolicitudAmistad.para_usuario_id s) (pendientes db);
    bf_pendiente_no_amigos :
      Forall (λ s, son_amigos db (SolicitudAmistad.de_usuario_id s)
                     (SolicitudAmistad.para_usuario_id s) = false)
        (pendientes db);
    bf_pendiente_unica : NoDup (par_de_solicitud <$> pendientes db) }.

(** The scenario with three requests: juan has asked ana, diego has asked
    maria, and sofia has rejected a request of lucia. *)
Module Peticiones.
Definition solicitud (de para : Z) (estado : SolicitudAmistad.Estado)
  : SolicitudAmistad.t :=
  {| SolicitudAmistad.de_usuario_id := de;
     SolicitudAmistad.para_usuario_id := para;
     SolicitudAmistad.estado := estado |}.

Definition db : BaseDatos :=
  {| usuarios := usuarios Escenario.db;
     amistades := amistades Escenario.db;
     solicitudes :=
       [solicitud Escenario.juan Escenario.ana SolicitudAmistad.pendiente;
        solicitud Escenario.lucia Escenario.sofia SolicitudAmistad.rechazada;
        solicitud Escenario.diego Escenario.maria SolicitudAmistad.pendiente]
  |}.
End Peticiones.

(** ** The script of test data (crear_datos_prueba.py) *)

(** How the script ends: normally, or with the [User.DoesNotExist] of a
    lookup, or with the [IntegrityError] of an insert. *)
Inductive Guion : Type :=
| Termina (db' : BaseDatos)
| UsuarioNoExiste
| AmistadRepetida.

(** [User.objects.get(username=nombre)] *)
Definition User_objects_get_username (db : BaseDatos) (nombre : string)
  : option User.t :=
  snd <$> list_find (λ u, User.username u = nombre) (usuarios db).

(** [Amistad.objects.create(usuario1=u1, usuario2=u2)]: [None] is the
    [IntegrityError] of the unique pair. *)
Definition crear_amistad (db : BaseDatos) (u1 u2 : Z) : option BaseDatos :=
  if decide (Exists (λ am, Amistad.usuario1_id am = u1
                           ∧ Amistad.usuario2_id am = u2) (amistades db))
  then None
  else Some (con_amistades db
               (amistades db ++
                  [{| Amistad.usuario1_id := u1;
                      Amistad.usuario2_id := u2 |}])).

(** The list [amistades] of [crear_amistades]. *)
Definition lista_amistades : list (string * string) :=
  [("ana", "carlos"); ("ana", "maria"); ("carlos", "juan");
   ("carlos", "diego"); ("maria", "juan"); ("maria", "sofia");
   ("diego", "lucia"); ("diego", "miguel"); ("lucia", "pedro");
   ("lucia", "elena")]%string.

(** The loop of [crear_amistades] over the pairs that are left. *)
Fixpoint crear_amistades_desde (amistades : list (string * string))
    (db : BaseDatos) : Guion :=
  match amistades with
  | [] => Termina db
  | (user1_name, user2_name) :: resto =>
      match User_objects_get_username db user1_name with
      | None => UsuarioNoExiste
      | Some user1 =>
          match User_objects_get_username db user2_name with
          | None => UsuarioNoExiste
          | Some user2 =>
              if son_amigos db (User.id user1) (User.id user2)
              then crear_amistades_desde resto db
              else
                match crear_amistad db (User.id user1) (User.id user2) with
                | Some db' => crear_amistades_desde resto db'
                | None => AmistadRepetida
                end
          end
      end
  end.

Definition crear_amistades (db : BaseDatos) : Guion :=
  crear_amistades_desde lista_amistades db.

(** The ten users of [crear_usuarios_prueba], with no friendship yet. *)
Module Prueba.
Definition db : BaseDatos :=
  {| usuarios :=
       [Escenario.usuario 1 "ana"; Escenario.usuario 2 "carlos";
        Escenario.usuario 3 "maria"; Escenario.usuario 4 "juan";
        Escenario.usuario 5 "sofia"; Escenario.usuario 6 "diego";
        Escenario.usuario 7 "lucia"; Escenario.usuario 8 "pedro";
        Escenario.usuario 9 "elena"; Escenario.usuario 10 "miguel"];
     amistades := [];
     solicitudes := [] |}.
End Prueba.

(** * Paths and distances in an adjacency dictionary *)

Section Caminos.
Context (g : gmap Z (gset Z)).

Lemma camino_0 o v : camino g o v 0 → v = o.
Proof. by inversion 1. Qed.

Lemma dist_origen o : dist g o o 0.
Proof. split; [constructor | lia]. Qed.

Lemma dist_unica o v d1 d2 : dist g o v d1 → dist g o v d2 → d1 = d2.
Proof.
  intros [Hc1 Hm1] [Hc2 Hm2].
  apply Hm1 in Hc2. apply Hm2 in Hc1. lia.
Qed.

Lemma dist_0 o v : dist g o v 0 → v = o.
Proof. intros [Hc _]. by apply camino_0. Qed.

Lemma dist_origen_0 o d : dist g o o d → d = 0%nat.
Proof. intros Hd. exact (dist_unica _ _ _ _ Hd (dist_origen o)). Qed.

End Caminos.

(** * Dictionaries *)

Lemma dict_get_getitem_add (d : gmap Z (gset Z)) (k v k' : Z) :
  dict_get (getitem_add d k v) k' =
  if decide (k = k') then dict_get d k ∪ {[v]} else dict_get d k'.
Proof.
  unfold getitem_add, getitem, dict_get.
  destruct (d !! k) as [s|] eqn:Hk; case_decide; subst;
    rewrite ?lookup_insert_eq, ?lookup_insert_ne, ?Hk by done; simpl; set_solver.
Qed.

Lemma dict_get_empty (k : Z) : dict_get ∅ k = ∅.
Proof. unfold dict_get. by rewrite lookup_empty. Qed.

Lemma dict_get_nodos (d : gmap Z (gset Z)) (k : Z) : dict_get d k ⊆ nodos d.
Proof.
  unfold dict_get, nodos. intros w Hw.
  destruct (d !! k) as [s|] eqn:Hk; simpl in Hw; [|set_solver].
  apply elem_of_union_r, elem_of_union_list. exists s. split; [|done].
  apply list_elem_of_fmap. exists (k, s). split; [done|].
  by apply elem_of_map_to_list.
Qed.

(** * Termination of the traversals *)

Section Terminacion.
Context (g : gmap Z (gset Z)) (U : gset Z).
Hypothesis vecinos_en_U : ∀ a, dict_get g a ⊆ U.

Lemma size_nuevo (V : gset Z) (n : Z) :
  n ∈ U → n ∉ V → size (U ∖ V) = S (size (U ∖ ({[n]} ∪ V))).
Proof.
  intros HU HV.
  assert (U ∖ V = {[n]} ∪ U ∖ ({[n]} ∪ V)) as ->.
  { apply set_eq. intros x. destruct (decide (x = n)); set_solver. }
  rewrite size_union by set_solver. by rewrite size_singleton.
Qed.

Lemma bfs_vecinos_medida nivel vs V Q N V' Q' N' :
  (∀ w, w ∈ vs → w ∈ U) →
  bfs_vecinos nivel vs V Q N = (V', Q', N') →
  (length Q' + size (U ∖ V') = length Q + size (U ∖ V))%nat.
Proof.
  revert V Q N. induction vs as [|w vs IH]; intros V Q N HU Heq; simpl in Heq.
  - by simplify_eq.
  - case_decide.
    + apply IH in Heq; [done|]. intros ? ?. apply HU. by right.
    + apply IH in Heq; [|intros ? ?; apply HU; by right].
      rewrite Heq, length_app. simpl.
      rewrite (size_nuevo V w); [lia| apply HU; by left | done].
Qed.

Lemma bfs_loop_termina fuel k V Q N :
  (length Q + size (U ∖ V) ≤ fuel)%nat →
  is_Some (bfs_loop fuel g k V Q N).
Proof.
  revert V Q N. induction fuel as [|fuel IH]; intros V Q N Hm.
  - destruct Q as [|[a l] Q]; simpl in *; [by eexists | lia].
  - destruct Q as [|[a l] Q]; simpl in *; [by eexists|].
    case_decide; [apply IH; lia|].
    destruct (bfs_vecinos l (elements (dict_get g a)) V Q N)
      as [[V' Q'] N'] eqn:Heq.
    apply IH. apply bfs_vecinos_medida in Heq; [lia|].
    intros w Hw. apply (vecinos_en_U a). by apply elem_of_elements.
Qed.

Lemma dist_vecinos_medida x distancia vs V Q V' Q' :
  (∀ w, w ∈ vs → w ∈ U) →
  dist_vecinos x distancia vs V Q = inr (V', Q') →
  (length Q' + size (U ∖ V') = length Q + size (U ∖ V))%nat.
Proof.
  revert V Q. induction vs as [|w vs IH]; intros V Q HU Heq; simpl in Heq.
  - by simplify_eq.
  - case_decide; [done|]. case_decide.
    + apply IH in Heq; [done|]. intros ? ?. apply HU. by right.
    + apply IH in Heq; [|intros ? ?; apply HU; by right].
      rewrite Heq, length_app. simpl.
      rewrite (size_nuevo V w); [lia| apply HU; by left | done].
Qed.

Lemma dist_loop_termina fuel x k V Q :
  (length Q + size (U ∖ V) ≤ fuel)%nat →
  is_Some (dist_loop fuel g x k V Q).
Proof.
  revert V Q. induction fuel as [|fuel IH]; intros V Q Hm.
  - destruct Q as [|[a l] Q]; simpl in *; [by eexists | lia].
  - destruct Q as [|[a l] Q]; simpl in *; [by eexists|].
    case_decide; [apply IH; lia|].
    destruct (dist_vecinos x l (elements (dict_get g a)) V Q)
      as [d|[V' Q']] eqn:Heq; [by eexists|].
    apply IH. apply dist_vecinos_medida in Heq; [lia|].
    intros w Hw. apply (vecinos_en_U a). by apply elem_of_elements.
Qed.

End Terminacion.

Lemma medida_inicial (U : gset Z) (o : Z) :
  (length [(o, 0)] + size (U ∖ {[o]}) ≤ S (size U))%nat.
Proof.
  simpl. apply le_n_S, subseteq_size. set_solver.
Qed.

Lemma bfs_loop_combustible g k o :
  is_Some (bfs_loop (combustible g) g k {[o]} [(o, 0)] ∅).
Proof.
  apply (bfs_loop_termina g (nodos g) (dict_get_nodos g)), medida_inicial.
Qed.

Lemma dist_loop_combustible g x k o :
  is_Some (dist_loop (combustible g) g x k {[o]} [(o, 0)]).
Proof.
  apply (dist_loop_termina g (nodos g) (dict_get_nodos g)), medida_inicial.
Qed.

(** * Correctness of the level traversal *)

Lemma ordenada_resto l ls : ordenada (l :: ls) → ordenada ls.
Proof.
  intros Ho i j li lj Hij Hi Hj. apply (Ho (S i) (S j)); [lia|done|done].
Qed.

Lemma ordenada_cabeza l ls l' : ordenada (l :: ls) → l' ∈ ls → l ≤ l' ≤ l + 1.
Proof.
  intros Ho [j Hj]%list_elem_of_lookup.
  apply (Ho 0%nat (S j)); [lia|done|done].
Qed.

Lemma ordenada_encolar l ls : ordenada (l :: ls) → ordenada (l :: ls ++ [l + 1]).
Proof.
  intros Ho i j li lj Hij Hi Hj.
  rewrite app_comm_cons in Hi, Hj.
  assert (∀ i x, ((l :: ls) ++ [l + 1]) !! i = Some x →
                 (l :: ls) !! i = Some x
                 ∨ (i = length (l :: ls) ∧ x = l + 1)) as Hcasos.
  { intros i' x Hx. apply lookup_app_Some in Hx as [?|[? Hx]]; [by left|].
    right. apply list_lookup_singleton_Some in Hx as [? ?]. split; [lia|done]. }
  assert (∀ i x, (l :: ls) !! i = Some x → l ≤ x ≤ l + 1) as Hrango.
  { intros i' x Hx. apply (Ho 0%nat i'); [lia|done|done]. }
  apply Hcasos in Hi as [Hi|[-> ->]]; apply Hcasos in Hj as [Hj|[-> ->]].
  - by apply (Ho i j).
  - apply Hrango in Hi. lia.
  - apply lookup_lt_Some in Hj. lia.
  - lia.
Qed.

Section Niveles.
Context (g : gmap Z (gset Z)) (o k : Z).

Lemma bfs_inv_inicial : bfs_inv g o k {[o]} [(o, 0)] ∅.
Proof.
  split.
  - set_solver.
  - intros v l [= -> ->]%list_elem_of_singleton. split; [set_solver|].
    split; [lia|]. apply dist_origen.
  - intros v m ->%elem_of_singleton Hq. exfalso. apply (Hq 0). by left.
  - intros i j li lj Hij Hi Hj. destruct i, j; simplify_eq/=; lia.
  - intros v ->%elem_of_singleton. by left.
  - intros j v. rewrite dict_get_empty. set_solver.
Qed.

(** Every node with a walk no longer than the levels waiting in the queue
    has been visited. *)
Lemma bfs_inv_completo V Q N w m :
  bfs_inv g o k V Q N → camino g o w m → Z.of_nat m ≤ k →
  (∀ v l, (v, l) ∈ Q → Z.of_nat m ≤ l) → w ∈ V.
Proof.
  intros Hinv Hc. induction Hc as [|p w n Hc IH Hw]; intros Hk HQ.
  - apply (inv_origen _ _ _ _ _ _ Hinv).
  - assert (p ∈ V) as Hp.
    { apply IH; [lia|]. intros v l Hvl. specialize (HQ v l Hvl). lia. }
    apply (inv_cerrado _ _ _ _ _ _ Hinv p n); [done| |done|lia|done].
    intros l' Hin.
    destruct (inv_cola _ _ _ _ _ _ Hinv _ _ Hin) as (_ & Hl0 & _ & Hmin).
    specialize (Hmin _ Hc). specialize (HQ _ _ Hin). lia.
Qed.

(** A neighbour of the node being expanded that was not visited before
    lies exactly one level further. *)
Lemma bfs_inv_dist_nuevo V Q N a l n :
  bfs_inv g o k V ((a, l) :: Q) N → l < k → n ∈ dict_get g a → n ∉ V →
  dist g o n (Z.to_nat (l + 1)).
Proof.
  intros Hinv Hlk Hn HnV.
  destruct (inv_cola _ _ _ _ _ _ Hinv a l) as (_ & Hl0 & Hca & _); [by left|].
  replace (Z.to_nat (l + 1)) with (S (Z.to_nat l)) by lia.
  split; [by econstructor|].
  intros m Hm. destruct (decide (S (Z.to_nat l) ≤ m)%nat); [done|].
  exfalso. apply HnV.
  apply (bfs_inv_completo _ _ _ _ _ Hinv Hm); [lia|].
  intros v l' [[= -> ->]|Hin]%elem_of_cons; [lia|].
  assert (l ≤ l' ≤ l + 1); [|lia].
  eapply ordenada_cabeza; [apply (inv_orden _ _ _ _ _ _ Hinv)|].
  apply list_elem_of_fmap. by exists (v, l').
Qed.

Lemma bfs_inv_nuevo V Q N a l n :
  bfs_inv g o k V ((a, l) :: Q) N → l < k → n ∈ dict_get g a → n ∉ V →
  bfs_inv g o k ({[n]} ∪ V) ((a, l) :: Q ++ [(n, l + 1)])
    (getitem_add N (l + 1) n).
Proof.
  intros Hinv Hlk Hn HnV.
  pose proof (bfs_inv_dist_nuevo _ _ _ _ _ _ Hinv Hlk Hn HnV) as Hdn.
  destruct (inv_cola _ _ _ _ _ _ Hinv a l) as (_ & Hl0 & _); [by left|].
  pose proof (inv_origen _ _ _ _ _ _ Hinv) as Ho.
  split.
  - set_solver.
  - intros v l'. rewrite app_comm_cons, elem_of_app, list_elem_of_singleton.
    intros [Hin|[= -> ->]].
    + destruct (inv_cola _ _ _ _ _ _ Hinv _ _ Hin) as (? & ? & ?).
      split; [set_solver|done].
    + split; [set_solver|]. split; [lia|done].
  - intros v m Hv Hq Hc Hm.
    assert (v ≠ n) as Hne.
    { intros ->. apply (Hq (l + 1)).
      rewrite app_comm_cons, elem_of_app, list_elem_of_singleton. by right. }
    assert (dict_get g v ⊆ V); [|set_solver].
    apply (inv_cerrado _ _ _ _ _ _ Hinv v m); [set_solver| |done|done].
    intros l' Hin. apply (Hq l').
    rewrite app_comm_cons, elem_of_app. by left.
  - rewrite fmap_cons, fmap_app. simpl.
    apply ordenada_encolar, (inv_orden _ _ _ _ _ _ Hinv).
  - intros v [Hv%elem_of_singleton|Hv]%elem_of_union.
    + subst v. right. exists (l + 1). rewrite dict_get_getitem_add.
      rewrite decide_True by done. set_solver.
    + destruct (inv_visitados _ _ _ _ _ _ Hinv v Hv) as [?|[j Hj]]; [by left|].
      right. exists j. rewrite dict_get_getitem_add.
      case_decide; [subst; set_solver|done].
  - intros j v. rewrite dict_get_getitem_add. case_decide as Hj.
    + subst j. intros [Hv|Hv%elem_of_singleton]%elem_of_union.
      * destruct (inv_niveles _ _ _ _ _ _ Hinv _ _ Hv) as (? & ? & ? & ?).
        split; [set_solver|done].
      * subst v. split; [set_solver|]. split; [set_solver|]. split; [lia|done].
    + intros Hv. destruct (inv_niveles _ _ _ _ _ _ Hinv _ _ Hv) as (? & ? & ? & ?).
      split; [set_solver|done].
Qed.

Lemma bfs_vecinos_inv a l vs V Q N V' Q' N' :
  bfs_inv g o k V ((a, l) :: Q) N → l < k → (∀ w, w ∈ vs → w ∈ dict_get g a) →
  bfs_vecinos l vs V Q N = (V', Q', N') →
  bfs_inv g o k V' ((a, l) :: Q') N' ∧ V ⊆ V' ∧ ∀ w, w ∈ vs → w ∈ V'.
Proof.
  intros Hinv Hlk. revert V Q N Hinv.
  induction vs as [|w vs IH]; intros V Q N Hinv Hvs Heq; simpl in Heq.
  - simplify_eq. split; [done|]. split; [done|]. by intros w ?%elem_of_nil.
  - assert (∀ w', w' ∈ vs → w' ∈ dict_get g a) as Hvs'.
    { intros w' ?. apply Hvs. by right. }
    case_decide as Hw.
    + destruct (IH _ _ _ Hinv Hvs' Heq) as (Hinv' & Hsub & Hin).
      split; [done|]. split; [done|].
      intros w' [->|?]%elem_of_cons; [set_solver|by apply Hin].
    + apply IH in Heq as (Hinv' & Hsub & Hin); [|by apply bfs_inv_nuevo; [| |apply Hvs; left|] |done].
      split; [done|]. split; [set_solver|].
      intros w' [->|?]%elem_of_cons; [set_solver|by apply Hin].
Qed.

(** The entry at the head of the queue leaves it: either it lies at the
    last level, or all its neighbours have been visited. *)
Lemma bfs_inv_desencolar a l V Q N :
  bfs_inv g o k V ((a, l) :: Q) N → k ≤ l ∨ dict_get g a ⊆ V → bfs_inv g o k V Q N.
Proof.
  intros Hinv Hal. split.
  - apply (inv_origen _ _ _ _ _ _ Hinv).
  - intros v l' Hin. apply (inv_cola _ _ _ _ _ _ Hinv). by right.
  - intros v m Hv Hq Hc Hm.
    destruct (decide (v = a)) as [->|Hne].
    + destruct Hal as [Hkl|Hsub]; [|done]. exfalso.
      destruct (inv_cola _ _ _ _ _ _ Hinv a l) as (_ & Hl0 & _ & Hmin); [by left|].
      specialize (Hmin _ Hc). lia.
    + apply (inv_cerrado _ _ _ _ _ _ Hinv v m); [done| |done|done].
      intros l' [[= ? ?]|Hin]%elem_of_cons; [done|]. by apply (Hq l').
  - eapply ordenada_resto. apply (inv_orden _ _ _ _ _ _ Hinv).
  - apply (inv_visitados _ _ _ _ _ _ Hinv).
  - apply (inv_niveles _ _ _ _ _ _ Hinv).
Qed.

Lemma bfs_loop_inv fuel V Q N N' :
  bfs_inv g o k V Q N → bfs_loop fuel g k V Q N = Some N' →
  ∃ V', V ⊆ V' ∧ bfs_inv g o k V' [] N'.
Proof.
  revert V Q N. induction fuel as [|fuel IH]; intros V Q N Hinv Heq.
  - destruct Q as [|[a l] Q]; simpl in Heq; [|done]. simplify_eq. by exists V.
  - destruct Q as [|[a l] Q]; simpl in Heq; [simplify_eq; by exists V|].
    case_decide as Hkl.
    + apply IH in Heq; [done|]. eapply bfs_inv_desencolar; [done|by left].
    + destruct (bfs_vecinos l (elements (dict_get g a)) V Q N)
        as [[V1 Q1] N1] eqn:Hvec.
      apply bfs_vecinos_inv with (a := a) in Hvec as (Hinv1 & Hsub & Hin);
        [|done|lia|by intros w ?%elem_of_elements].
      apply IH in Heq as (V' & Hsub' & Hinv').
      * exists V'. split; [set_solver|done].
      * eapply bfs_inv_desencolar; [done|]. right.
        intros w Hw. apply Hin. by apply elem_of_elements.
Qed.

(** What the invariant says once the queue is empty. *)
Lemma bfs_inv_final V N j v :
  bfs_inv g o k V [] N →
  v ∈ dict_get N j ↔ 1 ≤ j ≤ k ∧ dist g o v (Z.to_nat j).
Proof.
  intros Hinv. split.
  - intros Hv. by destruct (inv_niveles _ _ _ _ _ _ Hinv _ _ Hv) as (_ & _ & ? & ?).
  - intros [Hj Hd].
    assert (v ∈ V) as Hv.
    { apply (bfs_inv_completo V [] N v (Z.to_nat j) Hinv); [apply Hd|lia|].
      by intros ? ? ?%elem_of_nil. }
    destruct (inv_visitados _ _ _ _ _ _ Hinv v Hv) as [->|[j' Hj']].
    + apply dist_origen_0 in Hd. lia.
    + destruct (inv_niveles _ _ _ _ _ _ Hinv _ _ Hj') as (_ & _ & ? & Hd').
      assert (j' = j) as ->; [|done].
      pose proof (dist_unica _ _ _ _ _ Hd Hd'). lia.
Qed.

End Niveles.

(** * The distance search against the level traversal *)

Lemma bfs_vecinos_crece nivel vs V Q N V' Q' N' j :
  bfs_vecinos nivel vs V Q N = (V', Q', N') → dict_get N j ⊆ dict_get N' j.
Proof.
  revert V Q N. induction vs as [|w vs IH]; intros V Q N Heq; simpl in Heq.
  - by simplify_eq.
  - case_decide; [by eapply IH|].
    apply IH in Heq. etrans; [|exact Heq].
    rewrite dict_get_getitem_add. case_decide; [subst; set_solver|done].
Qed.

Lemma bfs_loop_crece fuel g k V Q N N' j :
  bfs_loop fuel g k V Q N = Some N' → dict_get N j ⊆ dict_get N' j.
Proof.
  revert V Q N. induction fuel as [|fuel IH]; intros V Q N Heq.
  - destruct Q as [|[a l] Q]; simpl in Heq; by simplify_eq.
  - destruct Q as [|[a l] Q]; simpl in Heq; [by simplify_eq|].
    case_decide; [by eapply IH|].
    destruct (bfs_vecinos l (elements (dict_get g a)) V Q N)
      as [[V1 Q1] N1] eqn:Hvec.
    apply IH in Heq. etrans; [|exact Heq]. by eapply bfs_vecinos_crece.
Qed.

Section Simulacion.
Context (g : gmap Z (gset Z)) (k x : Z).

(** One pass over the neighbours: as long as [x] is not among them both
    loops make the same updates; when [x] is met the level traversal
    records it one level further. *)
Lemma dist_vecinos_bfs l vs V Q N :
  x ∉ V →
  match dist_vecinos x l vs V Q with
  | inr (V', Q') =>
      ∃ N', bfs_vecinos l vs V Q N = (V', Q', N') ∧ (x ∉ V')
            ∧ ∀ j, x ∈ dict_get N' j → x ∈ dict_get N j
  | inl d =>
      d = l + 1 ∧ ∃ V' Q' N', bfs_vecinos l vs V Q N = (V', Q', N')
                              ∧ x ∈ dict_get N' (l + 1)
  end.
Proof.
  revert V Q N. induction vs as [|w vs IH]; intros V Q N Hx; simpl.
  - by exists N.
  - destruct (decide (w = x)) as [->|Hne].
    + split; [done|]. rewrite decide_False by done.
      destruct (bfs_vecinos l vs ({[x]} ∪ V) (Q ++ [(x, l + 1)])
                  (getitem_add N (l + 1) x)) as [[V' Q'] N'] eqn:Heq.
      exists V', Q', N'. split; [done|].
      apply (bfs_vecinos_crece _ _ _ _ _ _ _ _ (l + 1)) in Heq. apply Heq.
      rewrite dict_get_getitem_add, decide_True by done. set_solver.
    + case_decide; [by apply IH|].
      specialize (IH ({[w]} ∪ V) (Q ++ [(w, l + 1)]) (getitem_add N (l + 1) w)).
      destruct (dist_vecinos x l vs ({[w]} ∪ V) (Q ++ [(w, l + 1)]))
        as [d|[V' Q']]; [apply IH; set_solver|].
      destruct IH as (N' & Heq & HxV & HN); [set_solver|].
      exists N'. split; [done|]. split; [done|].
      intros j Hj. specialize (HN j Hj). revert HN.
      rewrite dict_get_getitem_add. case_decide; set_solver.
Qed.

(** The distance search returns a level at which the level traversal
    records [x], or [-1] when the traversal records it nowhere new. *)
Lemma dist_loop_bfs fuel V Q N N' :
  x ∉ V → bfs_loop fuel g k V Q N = Some N' →
  ∃ d, dist_loop fuel g x k V Q = Some d
       ∧ (x ∈ dict_get N' d
          ∨ (d = -1 ∧ ∀ j, x ∈ dict_get N' j → x ∈ dict_get N j)).
Proof.
  revert V Q N. induction fuel as [|fuel IH]; intros V Q N Hx Heq.
  - destruct Q as [|[a l] Q]; simpl in *; [|done]. simplify_eq.
    exists (-1). split; [done|]. by right.
  - destruct Q as [|[a l] Q]; simpl in *.
    { simplify_eq. exists (-1). split; [done|]. by right. }
    case_decide; [by apply (IH V Q N)|].
    pose proof (dist_vecinos_bfs l (elements (dict_get g a)) V Q N Hx) as Hv.
    destruct (dist_vecinos x l (elements (dict_get g a)) V Q) as [d|[V1 Q1]].
    + destruct Hv as (-> & V1 & Q1 & N1 & Hvec & HxN). rewrite Hvec in Heq.
      exists (l + 1). split; [done|]. left.
      apply (bfs_loop_crece _ _ _ _ _ _ _ (l + 1)) in Heq. by apply Heq.
    + destruct Hv as (N1 & Hvec & HxV1 & HN1). rewrite Hvec in Heq.
      destruct (IH V1 Q1 N1 HxV1 Heq) as (d & Hd & Hcasos).
      exists d. split; [done|].
      destruct Hcasos as [?|[-> HN']]; [by left|]. right. split; [done|].
      intros j Hj. by apply HN1, HN'.
Qed.

End Simulacion.

(** The two traversals from an origin, with the fuel of the methods. *)
Lemma bfs_loop_niveles g o k :
  ∃ N, bfs_loop (combustible g) g k {[o]} [(o, 0)] ∅ = Some N
       ∧ ∀ j v, v ∈ dict_get N j ↔ 1 ≤ j ≤ k ∧ dist g o v (Z.to_nat j).
Proof.
  destruct (bfs_loop_combustible g k o) as [N HN]. exists N. split; [done|].
  destruct (bfs_loop_inv g o k _ _ _ _ _ (bfs_inv_inicial g o k) HN)
    as (V & _ & Hinv).
  intros j v. by eapply bfs_inv_final.
Qed.

Lemma dist_loop_niveles g o x k N :
  o ≠ x → bfs_loop (combustible g) g k {[o]} [(o, 0)] ∅ = Some N →
  ∃ d, dist_loop (combustible g) g x k {[o]} [(o, 0)] = Some d
       ∧ ((1 ≤ d ≤ k ∧ x ∈ dict_get N d ∧ ∀ j, x ∈ dict_get N j → j = d)
          ∨ (d = -1 ∧ ∀ j, x ∉ dict_get N j)).
Proof.
  intros Hne HN.
  destruct (dist_loop_bfs g k x (combustible g) {[o]} [(o, 0)] ∅ N)
    as (d & Hd & Hcasos);
    [set_solver|done|].
  exists d. split; [done|].
  destruct (bfs_loop_niveles g o k) as (N0 & HN0 & Hniv).
  assert (N0 = N) as -> by congruence.
  destruct Hcasos as [Hx|[-> Hx]].
  - left. pose proof (proj1 (Hniv _ _) Hx) as [Hd1 Hdx].
    split; [done|]. split; [done|].
    intros j [Hj Hjx]%Hniv. pose proof (dist_unica _ _ _ _ _ Hdx Hjx). lia.
  - right. split; [done|]. intros j Hj%Hx. by rewrite dict_get_empty in Hj.
Qed.

Lemma dist_loop_dist g o x k d :
  o ≠ x → dist g o x d → Z.of_nat d ≤ k →
  dist_loop (combustible g) g x k {[o]} [(o, 0)] = Some (Z.of_nat d).
Proof.
  intros Hne Hd Hk.
  destruct (bfs_loop_niveles g o k) as (N & HN & Hniv).
  destruct (dist_loop_niveles g o x k N Hne HN) as (d' & Hd' & Hcasos).
  assert (x ∈ dict_get N (Z.of_nat d)) as Hx.
  { apply Hniv. rewrite Nat2Z.id. split; [|done].
    destruct d; [|lia]. by apply dist_0 in Hd. }
  destruct Hcasos as [(_ & _ & Huni)|[_ Hno]].
  - by rewrite Hd', (Huni _ Hx).
  - by apply Hno in Hx.
Qed.

(** * Running the methods *)

Lemma M_bind_retorna {S A B} (m : M S A) (f : A → M S B) s a s' :
  m s = Some (Retorna a, s') → (m ≫= f) s = f a s'.
Proof. intros Hm. unfold mbind, M_bind. by rewrite Hm. Qed.

Lemma M_bind_lanza {S A B} (m : M S A) (f : A → M S B) s e s' :
  m s = Some (Lanza e, s') → (m ≫= f) s = Some (Lanza e, s').
Proof. intros Hm. unfold mbind, M_bind. by rewrite Hm. Qed.

Section CorrerGrafo.
Import GrafoSocial.
Context (db : BaseDatos).

Lemma asegurado_construido self : _construido (asegurado db self) = true.
Proof. unfold asegurado. by destruct (_construido self) eqn:?. Qed.

Lemma asegurado_id self : _construido self = true → asegurado db self = self.
Proof. unfold asegurado. by intros ->. Qed.

Lemma asegurar_construido_corre self :
  asegurar_construido db self = Some (Retorna tt, asegurado db self).
Proof.
  unfold asegurar_construido, asegurado.
  rewrite (M_bind_retorna leer _ self self self) by done.
  by destruct (_construido self).
Qed.

Lemma obtener_amigos_corre u self :
  obtener_amigos db u self
  = Some (Retorna (dict_get (grafo (asegurado db self)) u), asegurado db self).
Proof.
  unfold obtener_amigos.
  rewrite (M_bind_retorna _ _ _ _ _ (asegurar_construido_corre self)).
  by rewrite (M_bind_retorna leer _ _ (asegurado db self) (asegurado db self)).
Qed.

Lemma amigos_en_comun_corre u1 u2 self :
  amigos_en_comun db u1 u2 self
  = Some (Retorna (dict_get (grafo (asegurado db self)) u1
                   ∩ dict_get (grafo (asegurado db self)) u2),
          asegurado db self).
Proof.
  unfold amigos_en_comun.
  rewrite (M_bind_retorna _ _ _ _ _ (asegurar_construido_corre self)).
  by rewrite (M_bind_retorna leer _ _ (asegurado db self) (asegurado db self)).
Qed.

Lemma bfs_niveles_corre u k self :
  ∃ N, bfs_loop (combustible (grafo (asegurado db self)))
         (grafo (asegurado db self)) k {[u]} [(u, 0)] ∅ = Some N
       ∧ bfs_niveles db u k self = Some (Retorna N, asegurado db self).
Proof.
  destruct (bfs_loop_combustible (grafo (asegurado db self)) k u) as [N HN].
  exists N. split; [done|]. unfold bfs_niveles.
  rewrite (M_bind_retorna _ _ _ _ _ (asegurar_construido_corre self)).
  rewrite (M_bind_retorna leer _ _ (asegurado db self) (asegurado db self))
    by done.
  unfold agotable. by rewrite HN.
Qed.

Lemma distancia_entre_usuarios_corre o x k self :
  ∃ d, distancia_entre_usuarios db o x k self
       = Some (Retorna d, asegurado db self)
       ∧ if decide (o = x) then d = 0
         else dist_loop (combustible (grafo (asegurado db self)))
                (grafo (asegurado db self)) x k {[o]} [(o, 0)] = Some d.
Proof.
  unfold distancia_entre_usuarios.
  rewrite (M_bind_retorna _ _ _ _ _ (asegurar_construido_corre self)).
  rewrite (M_bind_retorna leer _ _ (asegurado db self) (asegurado db self))
    by done.
  case_decide; [by exists 0|].
  destruct (dist_loop_combustible (grafo (asegurado db self)) x k o) as [d Hd].
  exists d. split; [|done]. unfold agotable. by rewrite Hd.
Qed.

End CorrerGrafo.

(** * The dictionary built from the database *)

Lemma dict_get_getitem (d : gmap Z (gset Z)) (k k' : Z) :
  dict_get (getitem d k).1 k' = dict_get d k'.
Proof.
  unfold getitem, dict_get. destruct (d !! k) as [s|] eqn:Hk; [done|]. simpl.
  destruct (decide (k = k')) as [->|Hne].
  - by rewrite lookup_insert_eq, Hk.
  - by rewrite lookup_insert_ne.
Qed.

Lemma dict_get_agregar_amistad g am a :
  dict_get (GrafoSocial.agregar_amistad g am) a
  = dict_get g a
    ∪ (if decide (a = Amistad.usuario1_id am)
       then {[Amistad.usuario2_id am]} else ∅)
    ∪ (if decide (a = Amistad.usuario2_id am)
       then {[Amistad.usuario1_id am]} else ∅).
Proof.
  unfold GrafoSocial.agregar_amistad. rewrite !dict_get_getitem_add.
  apply set_eq. intros x. repeat case_decide; try set_solver.
  match goal with Ha : a = _ |- _ => by rewrite <- Ha end.
Qed.

Lemma foldl_agregar_usuario_get g us a :
  dict_get (foldl GrafoSocial.agregar_usuario g us) a = dict_get g a.
Proof.
  revert g. induction us as [|u us IH]; intros g; simpl; [done|].
  rewrite IH. apply dict_get_getitem.
Qed.

Lemma foldl_agregar_amistad_simetrico g ams :
  simetrico g → simetrico (foldl GrafoSocial.agregar_amistad g ams).
Proof.
  revert g. induction ams as [|am ams IH]; intros g Hg; simpl; [done|].
  apply IH. intros a b. rewrite !dict_get_agregar_amistad.
  specialize (Hg a b). repeat case_decide; subst; set_solver.
Qed.

Lemma foldl_agregar_amistad_sin_lazos g ams :
  Forall (λ am, Amistad.usuario1_id am ≠ Amistad.usuario2_id am) ams →
  sin_lazos g → sin_lazos (foldl GrafoSocial.agregar_amistad g ams).
Proof.
  intros Hams. revert g.
  induction Hams as [|am ams Ham Hams IH]; intros g Hg; simpl; [done|].
  apply IH. intros a. rewrite dict_get_agregar_amistad.
  specialize (Hg a). repeat case_decide; subst; set_solver.
Qed.

Lemma grafo_construido_simetrico db : simetrico (GrafoSocial.grafo_construido db).
Proof.
  apply foldl_agregar_amistad_simetrico. intros a b.
  by rewrite !foldl_agregar_usuario_get, !dict_get_empty.
Qed.

Lemma grafo_construido_sin_lazos db :
  Forall (λ am, Amistad.usuario1_id am ≠ Amistad.usuario2_id am)
    (amistades db) →
  sin_lazos (GrafoSocial.grafo_construido db).
Proof.
  intros Hams. apply foldl_agregar_amistad_sin_lazos; [done|]. intros a.
  rewrite foldl_agregar_usuario_get, dict_get_empty. set_solver.
Qed.

(** * Running the methods of the engine *)

Lemma User_objects_get_Some db x u :
  User_objects_get db x = Some u → User.id u = x ∧ u ∈ usuarios db.
Proof.
  unfold User_objects_get.
  destruct (list_find _ _) as [[i u']|] eqn:Hfind; simpl; [|done].
  intros [= ->]. apply list_find_Some in Hfind as (Hi & Hu & _).
  split; [done|]. by eapply list_elem_of_lookup_2.
Qed.

Lemma para_cada_corre {S A B} (f : B → A → M S B) (I : list A → B → Prop)
    (s : S) (l : list A) :
  (∀ xs x acc, I xs acc →
     ∃ acc', f acc x s = Some (Retorna acc', s) ∧ I (xs ++ [x]) acc') →
  ∀ xs acc, I xs acc →
    ∃ acc', para_cada f l acc s = Some (Retorna acc', s) ∧ I (xs ++ l) acc'.
Proof.
  intros Hf. induction l as [|x l IH]; intros xs acc Hacc; simpl.
  - exists acc. by rewrite app_nil_r.
  - destruct (Hf xs x acc Hacc) as (acc1 & Hx & Hacc1).
    rewrite (M_bind_retorna _ _ _ _ _ Hx).
    destruct (IH _ _ Hacc1) as (acc' & Hl & Hacc').
    exists acc'. split; [done|]. by rewrite <- app_assoc in Hacc'.
Qed.

Section CorrerMotor.
Import MotorRecomendaciones.
Context (db : BaseDatos).

Lemma motor_asegurado_construido :
  motor_asegurado db (motor_construido db) = motor_construido db.
Proof. done. Qed.

Lemma en_grafo_corre {A} (m : M GrafoSocial.t A) self a g' :
  m (grafo self) = Some (Retorna a, g') →
  en_grafo m self = Some (Retorna a, {| grafo := g' |}).
Proof. intros Hm. unfold en_grafo. by rewrite Hm. Qed.

Lemma calcular_puntuacion_corre u c self :
  let g := GrafoSocial.grafo (GrafoSocial.asegurado db (grafo self)) in
  let comunes := dict_get g u ∩ dict_get g c in
  ∃ d, GrafoSocial.distancia_entre_usuarios db u c 5
         (GrafoSocial.asegurado db (grafo self))
       = Some (Retorna d, GrafoSocial.asegurado db (grafo self))
     ∧ calcular_puntuacion db u c self
       = Some (Retorna
                 {| Datos.puntuacion :=
                      (if decide (d = 2) then 0 + len comunes * 10 + 5
                       else if decide (d = 3) then 0 + len comunes * 10 + 2
                       else if decide (d > 3) then 0 + len comunes * 10 + 1
                       else 0 + len comunes * 10);
                    Datos.amigos_comun := elements comunes;
                    Datos.num_amigos_comun := len comunes;
                    Datos.distancia := d |},
               motor_asegurado db self).
Proof.
  intros g comunes.
  destruct (distancia_entre_usuarios_corre db u c 5
              (GrafoSocial.asegurado db (grafo self))) as (d & Hd & _).
  rewrite (asegurado_id db (GrafoSocial.asegurado db (grafo self)))
    in Hd by apply asegurado_construido.
  exists d. split; [done|]. unfold calcular_puntuacion.
  rewrite (M_bind_retorna _ _ _ _ _
             (en_grafo_corre _ self _ _ (amigos_en_comun_corre db u c _))).
  cbv beta zeta.
  by rewrite (M_bind_retorna _ _ _ _ _
                (en_grafo_corre _ (motor_asegurado db self) _ _ Hd)).
Qed.

Lemma nombres_amigos_comun_corre l self :
  ∃ ns, nombres_amigos_comun db l self = Some (Retorna ns, self).
Proof.
  unfold nombres_amigos_comun.
  destruct (para_cada_corre
    (λ amigos_comun_nombres amigo_id,
       intentar
         (amigo ← obtener_usuario db amigo_id;
          mret (amigos_comun_nombres ++ [User.username amigo]))
         (mret amigos_comun_nombres))
    (λ _ _, True) self (take 3 l)) with (xs := @nil Z) (acc := @nil string)
    as (ns & Hns & _); [|done|by exists ns].
  intros _ x acc _. unfold intentar, obtener_usuario, mbind, M_bind.
  destruct (User_objects_get db x) as [amigo|]; by eexists.
Qed.

(** One candidate: the list grows by one entry when the identifier of the
    candidate has a user, and stays as it is otherwise. *)
Lemma recomendar_candidato_corre u recs c :
  ∃ recs', recomendar_candidato db u recs c (motor_construido db)
           = Some (Retorna recs', motor_construido db)
         ∧ match User_objects_get db c with
           | Some cu => ∃ r, recs' = recs ++ [r] ∧ Recomendacion.usuario r = cu
           | None => recs' = recs
           end.
Proof.
  unfold recomendar_candidato, intentar, obtener_usuario.
  destruct (User_objects_get db c) as [cu|] eqn:Hcu.
  - destruct (calcular_puntuacion_corre u c (motor_construido db))
      as (d & _ & Hdatos).
    destruct (nombres_amigos_comun_corre
      (elements (dict_get (GrafoSocial.grafo_construido db) u
                 ∩ dict_get (GrafoSocial.grafo_construido db) c))
      (motor_construido db)) as (ns & Hns).
    rewrite (M_bind_retorna (mret cu) _ (motor_construido db) cu
               (motor_construido db)) by done.
    rewrite (M_bind_retorna _ _ _ _ _ Hdatos), motor_asegurado_construido.
    simpl. rewrite (M_bind_retorna _ _ _ _ _ Hns).
    eexists. split; [done|]. by eexists.
  - rewrite (M_bind_lanza (lanzar DoesNotExist) _ (motor_construido db)
               DoesNotExist (motor_construido db)) by done.
    by exists recs.
Qed.

(** The loop over the candidates: the entries are the candidates that have
    a user in the store. *)
Lemma recomendar_candidatos_corre u cs :
  ∃ recs, para_cada (recomendar_candidato db u) cs [] (motor_construido db)
          = Some (Retorna recs, motor_construido db)
        ∧ (∀ r, r ∈ recs →
             User.id (Recomendacion.usuario r) ∈ cs
             ∧ Recomendacion.usuario r ∈ usuarios db)
        ∧ (∀ c, c ∈ cs → is_Some (User_objects_get db c) →
             ∃ r, r ∈ recs ∧ User.id (Recomendacion.usuario r) = c).
Proof.
  destruct (para_cada_corre (recomendar_candidato db u)
    (λ xs recs,
       (∀ r, r ∈ recs →
          User.id (Recomendacion.usuario r) ∈ xs
          ∧ Recomendacion.usuario r ∈ usuarios db)
       ∧ (∀ c, c ∈ xs → is_Some (User_objects_get db c) →
            ∃ r, r ∈ recs ∧ User.id (Recomendacion.usuario r) = c))
    (motor_construido db) cs) with (xs := @nil Z) (acc := @nil Recomendacion.t)
    as (recs & Hrecs & Hinv).
  - intros xs x acc [Hin Hcom].
    destruct (recomendar_candidato_corre u acc x) as (recs' & Hrun & Hcaso).
    exists recs'. split; [done|].
    destruct (User_objects_get db x) as [cu|] eqn:Hcu.
    + destruct Hcaso as (r & -> & <-).
      apply User_objects_get_Some in Hcu as [Hid Hen]. split.
      * intros r' [Hr' | ->%list_elem_of_singleton]%elem_of_app.
        -- destruct (Hin r' Hr'). split; [|done]. apply elem_of_app. by left.
        -- split; [|done]. rewrite Hid. apply elem_of_app. right. by left.
      * intros c [Hc | ->%list_elem_of_singleton]%elem_of_app Hsome.
        -- destruct (Hcom c Hc Hsome) as (r' & Hr' & Hr'id).
           exists r'. split; [|done]. apply elem_of_app. by left.
        -- exists r. split; [|done]. apply elem_of_app. right. by left.
    + subst recs'. split.
      * intros r Hr. destruct (Hin r Hr). split; [|done].
        apply elem_of_app. by left.
      * intros c [Hc | ->%list_elem_of_singleton]%elem_of_app Hsome.
        -- by apply Hcom.
        -- rewrite Hcu in Hsome. by destruct Hsome.
  - split; [by intros r ?%elem_of_nil|by intros c ?%elem_of_nil].
  - by exists recs.
Qed.

End CorrerMotor.

(** * Sorting and truncating the list *)

Lemma insertar_perm r l : insertar r l ≡ₚ r :: l.
Proof.
  induction l as [|r' l IH]; simpl; [done|].
  case_decide; [done|]. rewrite IH. apply Permutation_swap.
Qed.

Lemma ordenar_perm l : ordenar l ≡ₚ l.
Proof.
  induction l as [|r l IH]; simpl; [done|].
  by rewrite insertar_perm, IH.
Qed.

Lemma slice_hasta_elem_of {A} (l : list A) n x : x ∈ slice_hasta l n → x ∈ l.
Proof.
  unfold slice_hasta.
  case_decide; intros (i & Hi & _)%elem_of_take; by eapply list_elem_of_lookup_2.
Qed.

Lemma slice_hasta_length {A} (l : list A) n :
  0 ≤ n → Z.of_nat (length (slice_hasta l n)) ≤ n.
Proof.
  intros Hn. unfold slice_hasta. rewrite decide_False by lia.
  rewrite length_take. lia.
Qed.

Section CorrerRecomendaciones.
Import MotorRecomendaciones.
Context (db : BaseDatos).

Lemma construir_grafo_corre self :
  en_grafo (GrafoSocial.construir_grafo db) self
  = Some (Retorna tt, motor_construido db).
Proof. done. Qed.

Lemma candidatos_sin_filtrar_corre u limite self :
  let g := GrafoSocial.grafo_construido db in
  ∃ N, bfs_loop (combustible g) g 4 {[u]} [(u, 0)] ∅ = Some N
       ∧ candidatos_sin_filtrar db u limite self
         = Some (Retorna
                   (ampliar_candidatos db (dict_get g u) u
                      (candidatos_de_niveles N) limite),
                 motor_construido db).
Proof.
  intros g.
  destruct (bfs_niveles_corre db u 4 (grafo (motor_construido db)))
    as (N & HN & Hbfs).
  exists N. split; [done|]. unfold candidatos_sin_filtrar.
  rewrite (M_bind_retorna _ _ _ _ _ (construir_grafo_corre self)).
  rewrite (M_bind_retorna _ _ _ _ _
             (en_grafo_corre _ (motor_construido db) _ _
                (obtener_amigos_corre db u _))).
  cbv beta.
  by rewrite (M_bind_retorna _ _ _ _ _
                (en_grafo_corre _ (motor_construido db) _ _ Hbfs)).
Qed.

Lemma obtener_recomendaciones_corre usuario limite self :
  let g := GrafoSocial.grafo_construido db in
  let u := User.id usuario in
  ∃ N recs,
    let candidatos :=
      excluir_pendientes db u
        (ampliar_candidatos db (dict_get g u) u
           (candidatos_de_niveles N) limite) in
    bfs_loop (combustible g) g 4 {[u]} [(u, 0)] ∅ = Some N
    ∧ obtener_recomendaciones db usuario limite self
      = Some (Retorna (slice_hasta (ordenar recs) limite), motor_construido db)
    ∧ (∀ r, r ∈ recs →
         User.id (Recomendacion.usuario r) ∈ candidatos
         ∧ Recomendacion.usuario r ∈ usuarios db)
    ∧ (∀ c, c ∈ candidatos → is_Some (User_objects_get db c) →
         ∃ r, r ∈ recs ∧ User.id (Recomendacion.usuario r) = c).
Proof.
  intros g u.
  destruct (candidatos_sin_filtrar_corre u limite self) as (N & HN & Hpool).
  destruct (recomendar_candidatos_corre db u
              (elements (excluir_pendientes db u
                 (ampliar_candidatos db (dict_get g u) u
                    (candidatos_de_niveles N) limite))))
    as (recs & Hrecs & Hin & Hcom).
  exists N, recs. split; [done|]. split; [|split].
  - unfold obtener_recomendaciones. cbv zeta.
    rewrite (M_bind_retorna _ _ _ _ _ Hpool).
    by rewrite (M_bind_retorna _ _ _ _ _ Hrecs).
  - intros r Hr. destruct (Hin r Hr) as [Hid ?]. split; [|done].
    by apply elem_of_elements.
  - intros c Hc Hsome. apply Hcom; [|done]. by apply elem_of_elements.
Qed.

Lemma obtener_estadisticas_grafo_corre usuario self :
  let g := GrafoSocial.grafo_construido db in
  let u := User.id usuario in
  ∃ N, bfs_loop (combustible g) g 4 {[u]} [(u, 0)] ∅ = Some N
       ∧ obtener_estadisticas_grafo db usuario self
         = Some (Retorna
                   {| Estadisticas.amigos_directos := len (dict_get g u);
                      Estadisticas.nivel_2 := len (dict_get N 2);
                      Estadisticas.nivel_3 := len (dict_get N 3);
                      Estadisticas.nivel_4 := len (dict_get N 4);
                      Estadisticas.total_usuarios := Z.of_nat (size g);
                      Estadisticas.alcance :=
                        map_fold (λ _ v suma, len v + suma) 0 N |},
                 motor_construido db).
Proof.
  intros g u.
  destruct (bfs_niveles_corre db u 4 (grafo (motor_construido db)))
    as (N & HN & Hbfs).
  exists N. split; [done|]. unfold obtener_estadisticas_grafo.
  rewrite (M_bind_retorna _ _ _ _ _ (construir_grafo_corre self)).
  rewrite (M_bind_retorna _ _ _ _ _
             (en_grafo_corre _ (motor_construido db) _ _ Hbfs)).
  cbv beta.
  by rewrite (M_bind_retorna _ _ _ _ _
                (en_grafo_corre _ (motor_construido db) _ _
                   (obtener_amigos_corre db (User.id usuario) _))).
Qed.

End CorrerRecomendaciones.

(** * Distances read off a traversal *)

Lemma alcanza_en_dist g o v k j :
  alcanza_en g o v k j = true → dist g o v (Z.to_nat j).
Proof.
  unfold alcanza_en. destruct (bfs_loop_niveles g o k) as (N & -> & Hniv).
  intros Hv%bool_decide_eq_true. by apply Hniv in Hv as [_ ?].
Qed.

Lemma distancia_entre_usuarios_dist db o x k d self :
  dist (GrafoSocial.grafo (GrafoSocial.asegurado db self)) o x d →
  Z.of_nat d ≤ k →
  GrafoSocial.distancia_entre_usuarios db o x k self
  = Some (Retorna (Z.of_nat d), GrafoSocial.asegurado db self).
Proof.
  intros Hd Hk.
  destruct (distancia_entre_usuarios_corre db o x k self) as (d' & -> & Hd').
  case_decide as Hox.
  - subst. apply dist_origen_0 in Hd. by subst.
  - rewrite (dist_loop_dist _ _ _ _ _ Hox Hd Hk) in Hd'. by simplify_eq.
Qed.

(** * The candidates *)

Lemma candidatos_de_niveles_eq N :
  MotorRecomendaciones.candidatos_de_niveles N
  = dict_get N 2 ∪ dict_get N 3 ∪ dict_get N 4.
Proof.
  unfold MotorRecomendaciones.candidatos_de_niveles. simpl. set_solver.
Qed.

Lemma elem_of_solicitudes_enviadas db u x :
  x ∈ solicitudes_enviadas db u ↔
  ∃ s, s ∈ solicitudes db
       ∧ SolicitudAmistad.estado s = SolicitudAmistad.pendiente
       ∧ SolicitudAmistad.de_usuario_id s = u
       ∧ SolicitudAmistad.para_usuario_id s = x.
Proof.
  unfold solicitudes_enviadas.
  rewrite elem_of_list_to_set, list_elem_of_fmap.
  setoid_rewrite list_elem_of_filter. naive_solver.
Qed.

Lemma elem_of_solicitudes_recibidas db u x :
  x ∈ solicitudes_recibidas db u ↔
  ∃ s, s ∈ solicitudes db
       ∧ SolicitudAmistad.estado s = SolicitudAmistad.pendiente
       ∧ SolicitudAmistad.de_usuario_id s = x
       ∧ SolicitudAmistad.para_usuario_id s = u.
Proof.
  unfold solicitudes_recibidas.
  rewrite elem_of_list_to_set, list_elem_of_fmap.
  setoid_rewrite list_elem_of_filter. naive_solver.
Qed.

(** A node of a level from the second on is neither the origin nor one of
    its neighbours. *)
Lemma nivel_lejano g u N j x :
  bfs_loop (combustible g) g 4 {[u]} [(u, 0)] ∅ = Some N →
  2 ≤ j → x ∈ dict_get N j → x ≠ u ∧ x ∉ dict_get g u.
Proof.
  intros HN Hj Hx.
  destruct (bfs_loop_niveles g u 4) as (N0 & HN0 & Hniv).
  assert (N0 = N) as -> by congruence.
  apply Hniv in Hx as [_ Hd]. split.
  - intros ->. apply dist_origen_0 in Hd. lia.
  - intros Hv. destruct Hd as [_ Hmin].
    assert (camino g u x 1) as Hc by (econstructor; [constructor|done]).
    apply Hmin in Hc. lia.
Qed.

Lemma candidatos_lejanos g u N x :
  bfs_loop (combustible g) g 4 {[u]} [(u, 0)] ∅ = Some N →
  x ∈ MotorRecomendaciones.candidatos_de_niveles N →
  x ≠ u ∧ x ∉ dict_get g u.
Proof.
  intros HN. rewrite candidatos_de_niveles_eq, !elem_of_union.
  intros [[?|?]|?];
    [apply (nivel_lejano g u N 2 x)|apply (nivel_lejano g u N 3 x)
    |apply (nivel_lejano g u N 4 x)]; done || lia.
Qed.

(** * The scenario, run *)

(** The order of entries with equal scores is left open. *)

Example escenario_amigos_sofia :
  GrafoSocial.obtener_amigos Escenario.db Escenario.sofia GrafoSocial.__init__
  = Some (Retorna {[Escenario.maria]},
          GrafoSocial.asegurado Escenario.db GrafoSocial.__init__).
Proof. vm_compute. reflexivity. Qed.

Example escenario_niveles_sofia :
  GrafoSocial.bfs_niveles Escenario.db Escenario.sofia 2 GrafoSocial.__init__
  = Some (Retorna
            {[1 := {[Escenario.maria]};
              2 := {[Escenario.ana; Escenario.juan]}]},
          GrafoSocial.asegurado Escenario.db GrafoSocial.__init__).
Proof. vm_compute. reflexivity. Qed.

Example escenario_comunes_ana_juan :
  GrafoSocial.amigos_en_comun Escenario.db Escenario.ana Escenario.juan
    GrafoSocial.__init__
  = Some (Retorna {[Escenario.carlos; Escenario.maria]},
          GrafoSocial.asegurado Escenario.db GrafoSocial.__init__).
Proof. vm_compute. reflexivity. Qed.

Example escenario_recomendaciones_sofia :
  (λ r, (User.id (Recomendacion.usuario r), Recomendacion.puntuacion r,
         Recomendacion.distancia r))
  <$> default []
        (match MotorRecomendaciones.obtener_recomendaciones Escenario.db
                 (Escenario.usuario Escenario.sofia "sofia") 2
                 MotorRecomendaciones.__init__ with
         | Some (Retorna l, _) => Some l
         | _ => None
         end)
  ≡ₚ [(Escenario.ana, 15, 2); (Escenario.juan, 15, 2)].
Proof. vm_compute. apply perm_swap. Qed.

(** * The claims *)

(** C1 (amended). For a candidate [c] at shortest-path distance [d] from
    [u] with [2 <= d <= 5], [calcular_puntuacion] returns the score
    [10 * m] plus 5 when [d = 2], 2 when [d = 3] and 1 when [d > 3], the
    list of the common neighbours (each of them once, in an order that is
    left open), their count [m] and the distance [d]. *)
Theorem calcular_puntuacion_formula db self u c d :
  let g := GrafoSocial.grafo
             (GrafoSocial.asegurado db (MotorRecomendaciones.grafo self)) in
  let comunes := dict_get g u ∩ dict_get g c in
  let m := len comunes in
  dist g u c d → (2 ≤ d ≤ 5)%nat →
  ∃ datos,
    MotorRecomendaciones.calcular_puntuacion db u c self
    = Some (Retorna datos, motor_asegurado db self)
    ∧ Datos.puntuacion datos
      = 10 * m + (if decide (d = 2%nat) then 5
                  else if decide (d = 3%nat) then 2 else 1)
    ∧ Datos.amigos_comun datos ≡ₚ elements comunes
    ∧ Datos.num_amigos_comun datos = m
    ∧ Datos.distancia datos = Z.of_nat d.
Proof.
  intros g comunes m Hd Hrango.
  destruct (calcular_puntuacion_corre db u c self) as (d' & Hd' & Hdatos).
  rewrite (distancia_entre_usuarios_dist db u c 5 d) in Hd'.
  2: by rewrite (asegurado_id db _ (asegurado_construido db _)).
  2: lia.
  simplify_eq. eexists. split; [exact Hdatos|]. simpl.
  split; [|done]. fold g comunes m. repeat case_decide; lia.
Qed.

Lemma calcular_puntuacion_formula_witness :
  ∃ datos,
    MotorRecomendaciones.calcular_puntuacion Escenario.db
      Escenario.sofia Escenario.juan MotorRecomendaciones.__init__
    = Some (Retorna datos, motor_construido Escenario.db)
    ∧ Datos.puntuacion datos = 15
    ∧ Datos.amigos_comun datos ≡ₚ [Escenario.maria]
    ∧ Datos.num_amigos_comun datos = 1
    ∧ Datos.distancia datos = 2.
Proof.
  apply (calcular_puntuacion_formula Escenario.db
           MotorRecomendaciones.__init__ Escenario.sofia Escenario.juan 2).
  - apply (alcanza_en_dist _ Escenario.sofia Escenario.juan 4 2).
    vm_compute. reflexivity.
  - lia.
Defined.

(** C1, as stated, fails beyond the bound of the distance search: at
    distance 6 the search gives up, the distance returned is -1 and no bonus
    is added. *)
Lemma calcular_puntuacion_lejano :
  let g := GrafoSocial.grafo_construido Cadena.db in
  ∃ datos self',
    MotorRecomendaciones.calcular_puntuacion Cadena.db 1 7
      MotorRecomendaciones.__init__ = Some (Retorna datos, self')
    ∧ dist g 1 7 6
    ∧ len (dict_get g 1 ∩ dict_get g 7) = 0
    ∧ Datos.puntuacion datos ≠ 10 * 0 + 1
    ∧ Datos.distancia datos ≠ 6.
Proof.
  eexists _, _. split; [vm_compute; reflexivity|]. split.
  - apply (alcanza_en_dist _ 1 7 6 6). vm_compute. reflexivity.
  - split; [vm_compute; reflexivity|]. simpl. lia.
Qed.

(** C2. The list returned by [obtener_recomendaciones] never contains the
    user, never contains a direct friend of the user (a member of
    [obtener_amigos]), and never contains a candidate with a pending
    request from or to the user. *)
Theorem obtener_recomendaciones_exclusiones db self usuario limite :
  let u := User.id usuario in
  ∃ recomendaciones amigos,
    MotorRecomendaciones.obtener_recomendaciones db usuario limite self
    = Some (Retorna recomendaciones, motor_construido db)
    ∧ GrafoSocial.obtener_amigos db u
        (MotorRecomendaciones.grafo (motor_construido db))
      = Some (Retorna amigos, MotorRecomendaciones.grafo (motor_construido db))
    ∧ ∀ r, r ∈ recomendaciones →
        let c := User.id (Recomendacion.usuario r) in
        c ≠ u
        ∧ (c ∉ amigos)
        ∧ ∀ s, s ∈ solicitudes db →
               SolicitudAmistad.estado s = SolicitudAmistad.pendiente →
               ¬ (SolicitudAmistad.de_usuario_id s = u
                  ∧ SolicitudAmistad.para_usuario_id s = c)
               ∧ ¬ (SolicitudAmistad.de_usuario_id s = c
                    ∧ SolicitudAmistad.para_usuario_id s = u).
Proof.
  intros u.
  destruct (obtener_recomendaciones_corre db usuario limite self)
    as (N & recs & HN & Hrun & Hin & _).
  eexists _, _. split; [exact Hrun|]. split; [apply obtener_amigos_corre|].
  intros r Hr%slice_hasta_elem_of c. rewrite ordenar_perm in Hr.
  destruct (Hin r Hr) as [Hc _]. fold c u in Hc.
  unfold MotorRecomendaciones.excluir_pendientes in Hc.
  apply elem_of_difference in Hc as [[Hc Henv]%elem_of_difference Hrec].
  assert (c ≠ u ∧ c ∉ dict_get (GrafoSocial.grafo_construido db) u)
    as [Hcu Hamigo].
  { unfold MotorRecomendaciones.ampliar_candidatos in Hc.
    case_decide; [|by eapply candidatos_lejanos].
    apply elem_of_union in Hc as [Hc|Hc]; [by eapply candidatos_lejanos|].
    set_solver. }
  split; [done|]. split; [done|].
  intros s Hs Hpend. split.
  - intros [Hde Hpara]. apply Henv, elem_of_solicitudes_enviadas.
    by exists s.
  - intros [Hde Hpara]. apply Hrec, elem_of_solicitudes_recibidas.
    by exists s.
Qed.

(** C3. For every origin and bound [k], [bfs_niveles] returns a dictionary of
    levels that are pairwise disjoint; the set at a level [l] with
    [1 <= l <= k] is exactly the set of the nodes at shortest-path distance
    [l] from the origin; the other levels are empty; the origin is in no
    level, and no node further than [k] is in any level. *)
Theorem bfs_niveles_particion db self o k :
  let g := GrafoSocial.grafo (GrafoSocial.asegurado db self) in
  ∃ niveles,
    GrafoSocial.bfs_niveles db o k self
    = Some (Retorna niveles, GrafoSocial.asegurado db self)
    ∧ (∀ l1 l2, l1 ≠ l2 → dict_get niveles l1 ## dict_get niveles l2)
    ∧ (∀ l v, 1 ≤ l ≤ k → v ∈ dict_get niveles l ↔ dist g o v (Z.to_nat l))
    ∧ (∀ l, ¬ (1 ≤ l ≤ k) → dict_get niveles l = ∅)
    ∧ (∀ l, o ∉ dict_get niveles l)
    ∧ (∀ l v d, dist g o v d → k < Z.of_nat d → v ∉ dict_get niveles l).
Proof.
  intros g. destruct (bfs_niveles_corre db o k self) as (N & HN & Hrun).
  destruct (bfs_loop_niveles g o k) as (N0 & HN0 & Hniv).
  assert (N0 = N) as -> by (unfold g in HN0; congruence).
  exists N. split; [done|]. split; [|split; [|split; [|split]]].
  - intros l1 l2 Hne v [Hl1 H1]%Hniv [Hl2 H2]%Hniv.
    pose proof (dist_unica _ _ _ _ _ H1 H2). lia.
  - intros l v Hl. split; [by intros [_ ?]%Hniv|]. intros Hd. by apply Hniv.
  - intros l Hl. apply set_eq. intros v. split; [|set_solver].
    by intros [? _]%Hniv.
  - intros l [Hl Hd%dist_origen_0]%Hniv. lia.
  - intros l v d Hd Hk [Hl Hd']%Hniv.
    pose proof (dist_unica _ _ _ _ _ Hd Hd'). lia.
Qed.

(** C4. [distancia_entre_usuarios] returns 0 for the origin itself;
    otherwise it returns the smallest level of [bfs_niveles], run with the
    same bound, that contains the destination, and it returns -1 exactly
    when no level contains it. *)
Theorem distancia_entre_usuarios_niveles db self o x k :
  ∃ niveles d,
    GrafoSocial.bfs_niveles db o k self
    = Some (Retorna niveles, GrafoSocial.asegurado db self)
    ∧ GrafoSocial.distancia_entre_usuarios db o x k self
      = Some (Retorna d, GrafoSocial.asegurado db self)
    ∧ (o = x → d = 0)
    ∧ (o ≠ x →
       (∀ l, x ∈ dict_get niveles l → x ∈ dict_get niveles d ∧ d ≤ l)
       ∧ (d = -1 ↔ ∀ l, x ∉ dict_get niveles l)).
Proof.
  destruct (bfs_niveles_corre db o k self) as (N & HN & Hrun).
  destruct (distancia_entre_usuarios_corre db o x k self) as (d & Hd & Hcaso).
  exists N, d. split; [done|]. split; [done|]. split.
  - intros ->. by rewrite decide_True in Hcaso.
  - intros Hne. rewrite decide_False in Hcaso by done.
    destruct (dist_loop_niveles _ _ _ _ _ Hne HN) as (d' & Hd' & Hcasos).
    assert (d' = d) as -> by congruence.
    destruct Hcasos as [(Hrango & Hx & Huni)|[-> Hno]].
    + split.
      * intros l Hl. apply Huni in Hl as ->. split; [done|lia].
      * split; [lia|]. intros Hno. by apply Hno in Hx.
    + split; [|done]. intros l Hl. by apply Hno in Hl.
Qed.

(** C5 (amended). When the distance search returns the sentinel -1 for the
    candidate, [calcular_puntuacion] adds no distance bonus: -1 is not
    greater than 3, so the score is [10 * m] for [m] common neighbours, and
    the distance returned is -1. *)
Theorem calcular_puntuacion_sin_conexion db self u c :
  let gs := GrafoSocial.asegurado db (MotorRecomendaciones.grafo self) in
  let comunes := dict_get (GrafoSocial.grafo gs) u
                 ∩ dict_get (GrafoSocial.grafo gs) c in
  GrafoSocial.distancia_entre_usuarios db u c 5 gs = Some (Retorna (-1), gs) →
  MotorRecomendaciones.calcular_puntuacion db u c self
  = Some (Retorna
            {| Datos.puntuacion := 10 * len comunes;
               Datos.amigos_comun := elements comunes;
               Datos.num_amigos_comun := len comunes;
               Datos.distancia := -1 |},
          motor_asegurado db self).
Proof.
  intros gs comunes Hd.
  destruct (calcular_puntuacion_corre db u c self) as (d' & Hd' & ->).
  assert (d' = -1) as -> by (unfold gs in Hd; congruence).
  do 3 f_equal. simpl. f_equal. fold gs comunes. lia.
Qed.

Lemma calcular_puntuacion_sin_conexion_witness :
  MotorRecomendaciones.calcular_puntuacion Cadena.db 7 1
    MotorRecomendaciones.__init__
  = Some (Retorna
            {| Datos.puntuacion := 0;
               Datos.amigos_comun := [];
               Datos.num_amigos_comun := 0;
               Datos.distancia := -1 |},
          motor_construido Cadena.db).
Proof.
  apply (calcular_puntuacion_sin_conexion Cadena.db
           MotorRecomendaciones.__init__ 7 1).
  vm_compute. reflexivity.
Defined.

(** C5, as stated, fails: for a candidate out of reach the score is
    [10 * m] and not [10 * m + 1]. *)
Lemma calcular_puntuacion_sin_bono :
  let gs := GrafoSocial.asegurado Aislados.db GrafoSocial.__init__ in
  ∃ datos self',
    GrafoSocial.distancia_entre_usuarios Aislados.db 1 2 5 gs
    = Some (Retorna (-1), gs)
    ∧ MotorRecomendaciones.calcular_puntuacion Aislados.db 1 2
        MotorRecomendaciones.__init__ = Some (Retorna datos, self')
    ∧ Datos.puntuacion datos ≠ 10 * Datos.num_amigos_comun datos + 1.
Proof.
  eexists _, _. split; [vm_compute; reflexivity|].
  split; [vm_compute; reflexivity|]. simpl. lia.
Qed.

(** C6 (amended). For every limit that is not negative the list returned by
    [obtener_recomendaciones] has at most [limite] entries; for the limit 0
    it is empty. *)
Theorem obtener_recomendaciones_acotada db self usuario limite :
  0 ≤ limite →
  ∃ recomendaciones,
    MotorRecomendaciones.obtener_recomendaciones db usuario limite self
    = Some (Retorna recomendaciones, motor_construido db)
    ∧ Z.of_nat (length recomendaciones) ≤ limite
    ∧ (limite = 0 → recomendaciones = []).
Proof.
  intros Hlim.
  destruct (obtener_recomendaciones_corre db usuario limite self)
    as (N & recs & _ & Hrun & _).
  eexists. split; [exact Hrun|].
  pose proof (slice_hasta_length (ordenar recs) limite Hlim) as Hlen.
  split; [done|]. intros ->.
  destruct (slice_hasta (ordenar recs) 0); [done|]. simpl in Hlen. lia.
Qed.

Lemma obtener_recomendaciones_acotada_witness :
  ∃ recomendaciones,
    MotorRecomendaciones.obtener_recomendaciones Escenario.db
      (Escenario.usuario Escenario.sofia "sofia") 2
      MotorRecomendaciones.__init__
    = Some (Retorna recomendaciones, motor_construido Escenario.db)
    ∧ Z.of_nat (length recomendaciones) ≤ 2
    ∧ (2 = 0 → recomendaciones = []).
Proof.
  apply (obtener_recomendaciones_acotada Escenario.db
           MotorRecomendaciones.__init__
           (Escenario.usuario Escenario.sofia "sofia") 2).
  lia.
Defined.

(** C6, as stated, fails for a negative limit: [l[:-1]] drops the last
    entry only, so the list is not empty and is longer than the limit. *)
Lemma obtener_recomendaciones_limite_negativo :
  ∃ recomendaciones self',
    MotorRecomendaciones.obtener_recomendaciones Escenario.db
      (Escenario.usuario Escenario.sofia "sofia") (-1)
      MotorRecomendaciones.__init__
    = Some (Retorna recomendaciones, self')
    ∧ length recomendaciones = 3%nat
    ∧ ¬ (Z.of_nat (length recomendaciones) ≤ -1)
    ∧ recomendaciones ≠ [].
Proof.
  eexists _, _. split; [vm_compute; reflexivity|].
  split; [done|]. split; [simpl; lia|done].
Qed.

(** C7. When the levels 2, 3 and 4 hold fewer identifiers than the limit,
    the candidates, before the pending requests are looked at, are these
    identifiers and every known user identifier that is not the user, not a
    direct friend and not among them already; with at least [limite]
    identifiers in the levels nothing is added.  The pending requests are
    removed afterwards: the list that is sorted and truncated has an entry
    exactly for the stored users among the candidates without a pending
    request. *)
Theorem candidatos_ampliados db self usuario limite :
  let u := User.id usuario in
  let g := GrafoSocial.grafo_construido db in
  ∃ niveles candidatos sin_truncar,
    GrafoSocial.bfs_niveles db u 4
      (MotorRecomendaciones.grafo (motor_construido db))
    = Some (Retorna niveles, MotorRecomendaciones.grafo (motor_construido db))
    ∧ MotorRecomendaciones.candidatos_sin_filtrar db u limite self
      = Some (Retorna candidatos, motor_construido db)
    ∧ MotorRecomendaciones.obtener_recomendaciones db usuario limite self
      = Some (Retorna (slice_hasta (ordenar sin_truncar) limite),
              motor_construido db)
    ∧ let union := dict_get niveles 2 ∪ dict_get niveles 3
                   ∪ dict_get niveles 4 in
      let filtrados := candidatos ∖ solicitudes_enviadas db u
                                  ∖ solicitudes_recibidas db u in
      (len union < limite →
       candidatos = union ∪ (todos_usuarios db ∖ dict_get g u ∖ {[u]} ∖ union))
      ∧ (limite ≤ len union → candidatos = union)
      ∧ (∀ r, r ∈ sin_truncar →
           User.id (Recomendacion.usuario r) ∈ filtrados)
      ∧ (∀ c, c ∈ filtrados → is_Some (User_objects_get db c) →
           ∃ r, r ∈ sin_truncar ∧ User.id (Recomendacion.usuario r) = c).
Proof.
  intros u g.
  destruct (bfs_niveles_corre db u 4
              (MotorRecomendaciones.grafo (motor_construido db)))
    as (N & HN & Hbfs).
  destruct (candidatos_sin_filtrar_corre db u limite self)
    as (N1 & HN1 & Hpool).
  destruct (obtener_recomendaciones_corre db usuario limite self)
    as (N2 & recs & HN2 & Hrun & Hin & Hcom).
  change (bfs_loop (combustible (GrafoSocial.grafo_construido db))
            (GrafoSocial.grafo_construido db) 4 {[User.id usuario]}
            [(User.id usuario, 0)] ∅ = Some N) in HN.
  assert (N1 = N) as -> by (unfold u in HN1; congruence).
  assert (N2 = N) as -> by congruence.
  eexists N, _, recs. split; [exact Hbfs|]. split; [exact Hpool|].
  split; [exact Hrun|]. cbv zeta.
  unfold MotorRecomendaciones.excluir_pendientes,
    MotorRecomendaciones.ampliar_candidatos in *.
  rewrite candidatos_de_niveles_eq in *. split; [|split; [|split]].
  - intros Hlt. by rewrite decide_True.
  - intros Hge. by rewrite decide_False by lia.
  - intros r Hr. by destruct (Hin r Hr).
  - exact Hcom.
Qed.

(** C8. After [construir_grafo], when every stored friendship joins two
    distinct users, the adjacency is symmetric and no user is its own
    neighbour; [obtener_amigos] of a user never contains that user, and the
    distance from a user to itself is 0 for every bound. *)
Theorem construir_grafo_simetrico db self :
  Forall (λ am, Amistad.usuario1_id am ≠ Amistad.usuario2_id am)
    (amistades db) →
  ∃ self',
    GrafoSocial.construir_grafo db self = Some (Retorna tt, self')
    ∧ (∀ a b, b ∈ dict_get (GrafoSocial.grafo self') a
              ↔ a ∈ dict_get (GrafoSocial.grafo self') b)
    ∧ (∀ a, a ∉ dict_get (GrafoSocial.grafo self') a)
    ∧ (∀ a, ∃ amigos,
          GrafoSocial.obtener_amigos db a self' = Some (Retorna amigos, self')
          ∧ a ∉ amigos)
    ∧ (∀ a max,
          GrafoSocial.distancia_entre_usuarios db a a max self'
          = Some (Retorna 0, self')).
Proof.
  intros Hams. eexists. split; [done|]. simpl.
  split; [apply grafo_construido_simetrico|].
  split; [by apply grafo_construido_sin_lazos|]. split.
  - intros a. eexists. split; [apply obtener_amigos_corre|].
    by apply grafo_construido_sin_lazos.
  - intros a max.
    destruct (distancia_entre_usuarios_corre db a a max
                {| GrafoSocial.grafo := GrafoSocial.grafo_construido db;
                   GrafoSocial._construido := true |}) as (d & Hd & Hcaso).
    rewrite decide_True in Hcaso by done. by subst.
Qed.

Lemma construir_grafo_simetrico_witness :
  ∃ self',
    GrafoSocial.construir_grafo Escenario.db GrafoSocial.__init__
    = Some (Retorna tt, self')
    ∧ (∀ a b, b ∈ dict_get (GrafoSocial.grafo self') a
              ↔ a ∈ dict_get (GrafoSocial.grafo self') b)
    ∧ (∀ a, a ∉ dict_get (GrafoSocial.grafo self') a)
    ∧ (∀ a, ∃ amigos,
          GrafoSocial.obtener_amigos Escenario.db a self'
          = Some (Retorna amigos, self')
          ∧ a ∉ amigos)
    ∧ (∀ a max,
          GrafoSocial.distancia_entre_usuarios Escenario.db a a max self'
          = Some (Retorna 0, self')).
Proof.
  apply (construir_grafo_simetrico Escenario.db GrafoSocial.__init__).
  simpl. repeat constructor; vm_compute; discriminate.
Defined.

(** C9 (amended). When the identifier of the user is not in the user
    store, neither operation reports a not-found condition: both build the
    graph and return normally, the recommendations being stored users and
    the statistics counting the whole graph. *)
Theorem usuario_inexistente_sin_error db self usuario limite :
  User_objects_get db (User.id usuario) = None →
  (∃ recomendaciones,
     MotorRecomendaciones.obtener_recomendaciones db usuario limite self
     = Some (Retorna recomendaciones, motor_construido db)
     ∧ ∀ r, r ∈ recomendaciones → Recomendacion.usuario r ∈ usuarios db)
  ∧ (∃ estadisticas,
       MotorRecomendaciones.obtener_estadisticas_grafo db usuario self
       = Some (Retorna estadisticas, motor_construido db)
       ∧ Estadisticas.total_usuarios estadisticas
         = Z.of_nat (size (GrafoSocial.grafo_construido db))).
Proof.
  intros _. split.
  - destruct (obtener_recomendaciones_corre db usuario limite self)
      as (N & recs & _ & Hrun & Hin & _).
    eexists. split; [exact Hrun|].
    intros r Hr%slice_hasta_elem_of. rewrite ordenar_perm in Hr.
    by destruct (Hin r Hr).
  - destruct (obtener_estadisticas_grafo_corre db usuario self)
      as (N & _ & Hrun).
    eexists. by split; [exact Hrun|].
Qed.

Lemma usuario_inexistente_sin_error_witness :
  (∃ recomendaciones,
     MotorRecomendaciones.obtener_recomendaciones Escenario.db
       (Escenario.usuario 99 "nadie") 5 MotorRecomendaciones.__init__
     = Some (Retorna recomendaciones, motor_construido Escenario.db)
     ∧ ∀ r, r ∈ recomendaciones →
            Recomendacion.usuario r ∈ usuarios Escenario.db)
  ∧ (∃ estadisticas,
       MotorRecomendaciones.obtener_estadisticas_grafo Escenario.db
         (Escenario.usuario 99 "nadie") MotorRecomendaciones.__init__
       = Some (Retorna estadisticas, motor_construido Escenario.db)
       ∧ Estadisticas.total_usuarios estadisticas
         = Z.of_nat (size (GrafoSocial.grafo_construido Escenario.db))).
Proof.
  apply (usuario_inexistente_sin_error Escenario.db
           MotorRecomendaciones.__init__ (Escenario.usuario 99 "nadie") 5).
  vm_compute. reflexivity.
Defined.

(** C9, as stated, fails: for an identifier that is not in the user store
    the recommendation returns five entries and the statistics are
    returned, and no exception reaches the caller. *)
Lemma usuario_inexistente_recomendado :
  User_objects_get Escenario.db 99 = None
  ∧ ∃ recomendaciones estadisticas self1 self2,
      MotorRecomendaciones.obtener_recomendaciones Escenario.db
        (Escenario.usuario 99 "nadie") 5 MotorRecomendaciones.__init__
      = Some (Retorna recomendaciones, self1)
      ∧ length recomendaciones = 5%nat
      ∧ MotorRecomendaciones.obtener_estadisticas_grafo Escenario.db
          (Escenario.usuario 99 "nadie") MotorRecomendaciones.__init__
        = Some (Retorna estadisticas, self2)
      ∧ Estadisticas.total_usuarios estadisticas = 7.
Proof.
  split; [vm_compute; reflexivity|]. eexists _, _, _, _.
  split; [vm_compute; reflexivity|]. split; [done|].
  split; [vm_compute; reflexivity|]. done.
Qed.

(** C10. Once the graph is built, [obtener_amigos], [bfs_niveles],
    [amigos_en_comun] and [distancia_entre_usuarios] return with the object,
    and so its adjacency dictionary, unchanged for every input; an
    identifier that is not a key is read as the empty set and is not
    inserted. *)
Theorem consultas_no_modifican db self :
  GrafoSocial._construido self = true →
  (∀ u, ∃ amigos,
      GrafoSocial.obtener_amigos db u self = Some (Retorna amigos, self)
      ∧ (GrafoSocial.grafo self !! u = None → amigos = ∅))
  ∧ (∀ u k, ∃ niveles,
        GrafoSocial.bfs_niveles db u k self = Some (Retorna niveles, self))
  ∧ (∀ u1 u2, ∃ comunes,
        GrafoSocial.amigos_en_comun db u1 u2 self
        = Some (Retorna comunes, self))
  ∧ (∀ o x k, ∃ d,
        GrafoSocial.distancia_entre_usuarios db o x k self
        = Some (Retorna d, self)).
Proof.
  intros Hc. pose proof (asegurado_id db self Hc) as Hid.
  split; [|split; [|split]].
  - intros u. eexists. split.
    + rewrite obtener_amigos_corre. by rewrite Hid.
    + intros Hu. unfold dict_get. by rewrite Hu.
  - intros u k. destruct (bfs_niveles_corre db u k self) as (N & _ & Hrun).
    exists N. by rewrite Hid in Hrun.
  - intros u1 u2. eexists. rewrite amigos_en_comun_corre. by rewrite Hid.
  - intros o x k.
    destruct (distancia_entre_usuarios_corre db o x k self) as (d & Hrun & _).
    exists d. by rewrite Hid in Hrun.
Qed.

Lemma consultas_no_modifican_witness :
  let self := {| GrafoSocial.grafo := GrafoSocial.grafo_construido Escenario.db;
                 GrafoSocial._construido := true |} in
  (∀ u, ∃ amigos,
      GrafoSocial.obtener_amigos Escenario.db u self
      = Some (Retorna amigos, self)
      ∧ (GrafoSocial.grafo self !! u = None → amigos = ∅))
  ∧ (∀ u k, ∃ niveles,
        GrafoSocial.bfs_niveles Escenario.db u k self
        = Some (Retorna niveles, self))
  ∧ (∀ u1 u2, ∃ comunes,
        GrafoSocial.amigos_en_comun Escenario.db u1 u2 self
        = Some (Retorna comunes, self))
  ∧ (∀ o x k, ∃ d,
        GrafoSocial.distancia_entre_usuarios Escenario.db o x k self
        = Some (Retorna d, self)).
Proof.
  apply (consultas_no_modifican Escenario.db
           {| GrafoSocial.grafo := GrafoSocial.grafo_construido Escenario.db;
              GrafoSocial._construido := true |}).
  reflexivity.
Defined.

(** * Further properties of the graph *)

Lemma dom_getitem (d : gmap Z (gset Z)) (k : Z) :
  dom (getitem d k).1 = {[k]} ∪ dom d.
Proof.
  unfold getitem. destruct (d !! k) as [s|] eqn:Hk; simpl.
  - apply elem_of_dom_2 in Hk. set_solver.
  - by rewrite dom_insert_L.
Qed.

Lemma dom_getitem_add (d : gmap Z (gset Z)) (k v : Z) :
  dom (getitem_add d k v) = {[k]} ∪ dom d.
Proof.
  unfold getitem_add.
  destruct (getitem d k) as [d' s] eqn:Hg. rewrite dom_insert_L.
  replace d' with (getitem d k).1 by (by rewrite Hg).
  rewrite dom_getitem. set_solver.
Qed.

Lemma dom_foldl_agregar_usuario g us :
  dom (foldl GrafoSocial.agregar_usuario g us)
  = list_to_set (User.id <$> us) ∪ dom g.
Proof.
  revert g. induction us as [|u us IH]; intros g; simpl; [set_solver|].
  rewrite IH. unfold GrafoSocial.agregar_usuario.
  rewrite dom_getitem. set_solver.
Qed.

Lemma dom_foldl_agregar_amistad g ams :
  dom (foldl GrafoSocial.agregar_amistad g ams)
  = list_to_set (Amistad.usuario1_id <$> ams)
    ∪ list_to_set (Amistad.usuario2_id <$> ams) ∪ dom g.
Proof.
  revert g. induction ams as [|am ams IH]; intros g; simpl; [set_solver|].
  rewrite IH. unfold GrafoSocial.agregar_amistad.
  rewrite !dom_getitem_add. set_solver.
Qed.

Lemma elem_of_foldl_agregar_amistad g ams a b :
  b ∈ dict_get (foldl GrafoSocial.agregar_amistad g ams) a ↔
  b ∈ dict_get g a
  ∨ ∃ am, am ∈ ams
          ∧ ((Amistad.usuario1_id am = a ∧ Amistad.usuario2_id am = b)
             ∨ (Amistad.usuario1_id am = b ∧ Amistad.usuario2_id am = a)).
Proof.
  revert g. induction ams as [|am ams IH]; intros g; simpl.
  - split; [by left|]. intros [?|(am & ?%elem_of_nil & _)]; done.
  - rewrite IH, dict_get_agregar_amistad. split.
    + intros [Hb|(am' & Ham' & Hcaso)].
      * apply elem_of_union in Hb as [Hb|Hb];
          [apply elem_of_union in Hb as [Hb|Hb]|].
        -- by left.
        -- case_decide; [|set_solver]. right. exists am.
           split; [by left|]. left. set_solver.
        -- case_decide; [|set_solver]. right. exists am.
           split; [by left|]. right. set_solver.
      * right. exists am'. split; [by right|done].
    + intros [Hb|(am' & [->|Ham']%elem_of_cons & Hcaso)].
      * left. set_solver.
      * left. destruct Hcaso as [[<- <-]|[<- <-]].
        -- rewrite (decide_True (P := _ = Amistad.usuario1_id am)) by done.
           set_solver.
        -- rewrite (decide_True (P := _ = Amistad.usuario2_id am)) by done.
           set_solver.
      * right. by exists am'.
Qed.

Lemma elem_of_grafo_construido db a b :
  b ∈ dict_get (GrafoSocial.grafo_construido db) a ↔
  ∃ am, am ∈ amistades db
        ∧ ((Amistad.usuario1_id am = a ∧ Amistad.usuario2_id am = b)
           ∨ (Amistad.usuario1_id am = b ∧ Amistad.usuario2_id am = a)).
Proof.
  unfold GrafoSocial.grafo_construido.
  rewrite elem_of_foldl_agregar_amistad, foldl_agregar_usuario_get,
    dict_get_empty.
  split; [intros [?|?]; [set_solver|done]|by right].
Qed.

Lemma dom_grafo_construido db :
  dom (GrafoSocial.grafo_construido db)
  = todos_usuarios db
    ∪ list_to_set (Amistad.usuario1_id <$> amistades db)
    ∪ list_to_set (Amistad.usuario2_id <$> amistades db).
Proof.
  unfold GrafoSocial.grafo_construido, todos_usuarios.
  rewrite dom_foldl_agregar_amistad, dom_foldl_agregar_usuario, dom_empty_L.
  set_solver.
Qed.

(** Every neighbour in the built dictionary is one of its keys. *)
Lemma grafo_construido_cerrado db a :
  dict_get (GrafoSocial.grafo_construido db) a
  ⊆ dom (GrafoSocial.grafo_construido db).
Proof.
  intros b (am & Ham & Hcaso)%elem_of_grafo_construido.
  rewrite dom_grafo_construido, !elem_of_union, !elem_of_list_to_set.
  destruct Hcaso as [[_ <-]|[<- _]].
  - right. by apply list_elem_of_fmap_2.
  - left. right. by apply list_elem_of_fmap_2.
Qed.

Section MasCaminos.
Context (g : gmap Z (gset Z)).

Lemma camino_anteponer o o' v n :
  o ∈ dict_get g o' → camino g o v n → camino g o' v (S n).
Proof.
  intros Ho Hc. induction Hc as [|p w n Hc IH Hw].
  - econstructor; [constructor|done].
  - by econstructor.
Qed.

Lemma camino_inverso a b n : simetrico g → camino g a b n → camino g b a n.
Proof.
  intros Hsim Hc. induction Hc as [|p w n Hc IH Hw]; [constructor|].
  apply (camino_anteponer p); [by apply Hsim|done].
Qed.

Lemma dist_inverso a b d : simetrico g → dist g a b d → dist g b a d.
Proof.
  intros Hsim [Hc Hmin]. split; [by apply camino_inverso|].
  intros n Hn. by apply Hmin, camino_inverso.
Qed.

Lemma camino_1 o v : camino g o v 1 ↔ v ∈ dict_get g o.
Proof.
  split.
  - inversion 1 as [|p w n Hp Hw]; subst. by apply camino_0 in Hp as ->.
  - intros Hv. econstructor; [constructor|done].
Qed.

Lemma dist_1 o v : o ≠ v → dist g o v 1 ↔ v ∈ dict_get g o.
Proof.
  intros Hne. rewrite <- camino_1. split; [by intros [? _]|].
  intros Hc. split; [done|]. intros [|n] Hn; [|lia].
  by apply camino_0 in Hn.
Qed.

(** A node with a walk within the bound is recorded in some level. *)
Lemma bfs_loop_alcanzados o k N x n :
  bfs_loop (combustible g) g k {[o]} [(o, 0)] ∅ = Some N →
  camino g o x n → Z.of_nat n ≤ k → x ≠ o → ∃ j, x ∈ dict_get N j.
Proof.
  intros HN Hc Hn Hne.
  destruct (bfs_loop_inv g o k _ _ _ _ _ (bfs_inv_inicial g o k) HN)
    as (V & _ & Hinv).
  assert (x ∈ V) as Hx.
  { apply (bfs_inv_completo g o k V [] N x n Hinv Hc Hn).
    by intros ? ? ?%elem_of_nil. }
  by destruct (inv_visitados _ _ _ _ _ _ Hinv x Hx).
Qed.

(** Among the walks between two nodes there is a shortest one. *)
Lemma camino_dist o x n : camino g o x n → ∃ d, (d ≤ n)%nat ∧ dist g o x d.
Proof.
  intros Hc. destruct (decide (x = o)) as [->|Hne].
  { exists 0%nat. split; [lia|apply dist_origen]. }
  destruct (bfs_loop_niveles g o (Z.of_nat n)) as (N & HN & Hniv).
  destruct (bfs_loop_alcanzados o (Z.of_nat n) N x n HN Hc) as [j Hj];
    [lia|done|].
  apply Hniv in Hj as [Hrango Hd]. exists (Z.to_nat j). split; [|done].
  destruct Hd as [_ Hmin]. by apply Hmin.
Qed.

(** What the distance search returns between two different nodes. *)
Lemma dist_loop_correcto o x k :
  o ≠ x →
  ∃ d, dist_loop (combustible g) g x k {[o]} [(o, 0)] = Some d
       ∧ ((d = -1 ∧ ∀ n, camino g o x n → k < Z.of_nat n)
          ∨ (1 ≤ d ≤ k ∧ dist g o x (Z.to_nat d))).
Proof.
  intros Hne. destruct (bfs_loop_niveles g o k) as (N & HN & Hniv).
  destruct (dist_loop_niveles g o x k N Hne HN) as (d & Hd & Hcasos).
  exists d. split; [done|]. destruct Hcasos as [(Hr & Hx & _)|[-> Hno]].
  - right. split; [done|]. by apply Hniv in Hx as [_ ?].
  - left. split; [done|]. intros n Hn.
    destruct (decide (Z.of_nat n ≤ k)) as [Hle|]; [|lia].
    destruct (bfs_loop_alcanzados o k N x n HN Hn Hle) as [j Hj]; [done|].
    by apply Hno in Hj.
Qed.

End MasCaminos.

Section MasDistancias.
Context (db : BaseDatos).

Lemma distancia_entre_usuarios_casos self o x max :
  let g := GrafoSocial.grafo (GrafoSocial.asegurado db self) in
  o ≠ x →
  ∃ d, GrafoSocial.distancia_entre_usuarios db o x max self
       = Some (Retorna d, GrafoSocial.asegurado db self)
     ∧ ((d = -1 ∧ ∀ n, camino g o x n → max < Z.of_nat n)
        ∨ (1 ≤ d ≤ max ∧ dist g o x (Z.to_nat d))).
Proof.
  intros g Hox.
  destruct (distancia_entre_usuarios_corre db o x max self) as (d & Hd & Hcaso).
  exists d. split; [done|]. rewrite decide_False in Hcaso by done.
  destruct (dist_loop_correcto g o x max Hox) as (d' & Hd' & Hcasos).
  assert (d' = d) as -> by (unfold g in Hd'; congruence). done.
Qed.

Lemma distancia_entre_usuarios_mismo self o max :
  GrafoSocial.distancia_entre_usuarios db o o max self
  = Some (Retorna 0, GrafoSocial.asegurado db self).
Proof.
  destruct (distancia_entre_usuarios_corre db o o max self) as (d & Hd & Hcaso).
  rewrite decide_True in Hcaso by done. by subst.
Qed.

(** X1. What [distancia_entre_usuarios] returns: 0 for the origin itself;
    otherwise a distance [d] with [1 <= d <= max_distancia] that is the
    length of a shortest walk in the adjacency, or -1 when every walk from
    the origin to the destination is longer than [max_distancia]. *)
Theorem distancia_entre_usuarios_correcta self o x max :
  let g := GrafoSocial.grafo (GrafoSocial.asegurado db self) in
  ∃ d, GrafoSocial.distancia_entre_usuarios db o x max self
       = Some (Retorna d, GrafoSocial.asegurado db self)
     ∧ ((o = x ∧ d = 0)
        ∨ (o ≠ x ∧ d = -1 ∧ ∀ n, camino g o x n → max < Z.of_nat n)
        ∨ (o ≠ x ∧ 1 ≤ d ≤ max ∧ dist g o x (Z.to_nat d))).
Proof.
  intros g.
  destruct (distancia_entre_usuarios_corre db o x max self) as (d & Hd & Hcaso).
  exists d. split; [done|]. case_decide as Hox; [by left|]. right.
  destruct (dist_loop_correcto g o x max Hox) as (d' & Hd' & Hcasos).
  assert (d' = d) as -> by (unfold g in Hd'; congruence).
  destruct Hcasos as [[-> ?]|[? ?]]; [by left|by right].
Qed.

End MasDistancias.

(** The object right after [construir_grafo]. *)
Lemma asegurado_grafo_construido db :
  GrafoSocial.asegurado db
    {| GrafoSocial.grafo := GrafoSocial.grafo_construido db;
       GrafoSocial._construido := true |}
  = {| GrafoSocial.grafo := GrafoSocial.grafo_construido db;
       GrafoSocial._construido := true |}.
Proof. done. Qed.

(** X2. A distance found within a bound is found, and is the same, within
    every larger bound. *)
Theorem distancia_entre_usuarios_monotona db self o x max max' d :
  GrafoSocial.distancia_entre_usuarios db o x max self
  = Some (Retorna d, GrafoSocial.asegurado db self) →
  d ≠ -1 → max ≤ max' →
  GrafoSocial.distancia_entre_usuarios db o x max' self
  = Some (Retorna d, GrafoSocial.asegurado db self).
Proof.
  intros Hd Hne Hmax. destruct (decide (o = x)) as [->|Hox].
  { rewrite distancia_entre_usuarios_mismo in Hd.
    rewrite distancia_entre_usuarios_mismo. congruence. }
  destruct (distancia_entre_usuarios_casos db self o x max Hox)
    as (d' & Hd' & Hcasos).
  assert (d' = d) as -> by congruence.
  destruct Hcasos as [[? _]|[Hr Hdist]]; [done|].
  rewrite (distancia_entre_usuarios_dist db o x max' (Z.to_nat d) self Hdist)
    by lia.
  by rewrite Z2Nat.id by lia.
Qed.

Lemma distancia_entre_usuarios_monotona_witness :
  GrafoSocial.distancia_entre_usuarios Cadena.db 1 4 9 GrafoSocial.__init__
  = Some (Retorna 3, GrafoSocial.asegurado Cadena.db GrafoSocial.__init__).
Proof.
  apply (distancia_entre_usuarios_monotona Cadena.db GrafoSocial.__init__
           1 4 3 9 3).
  - vm_compute. reflexivity.
  - lia.
  - lia.
Defined.

(** X3. In the graph built from the database the distance is the same in
    both directions, for every bound. *)
Theorem distancia_entre_usuarios_simetrica db o x max :
  let self := {| GrafoSocial.grafo := GrafoSocial.grafo_construido db;
                 GrafoSocial._construido := true |} in
  GrafoSocial.distancia_entre_usuarios db o x max self
  = GrafoSocial.distancia_entre_usuarios db x o max self.
Proof.
  intros self.
  pose proof (grafo_construido_simetrico db) as Hsim.
  destruct (decide (o = x)) as [->|Hne]; [done|].
  destruct (distancia_entre_usuarios_casos db self o x max Hne)
    as (d1 & -> & H1).
  destruct (distancia_entre_usuarios_casos db self x o max)
    as (d2 & -> & H2); [done|].
  do 3 f_equal. simpl in H1, H2.
  destruct H1 as [[-> Hno1]|[Hr1 Hd1]]; destruct H2 as [[-> Hno2]|[Hr2 Hd2]];
    try done.
  - apply (dist_inverso _ _ _ _ Hsim) in Hd2. destruct Hd2 as [Hc _].
    apply Hno1 in Hc. lia.
  - apply (dist_inverso _ _ _ _ Hsim) in Hd1. destruct Hd1 as [Hc _].
    apply Hno2 in Hc. lia.
  - apply (dist_inverso _ _ _ _ Hsim) in Hd2.
    pose proof (dist_unica _ _ _ _ _ Hd1 Hd2). lia.
Qed.

(** X4. Between two different users the distance is 1 exactly when the
    destination is a direct friend of the origin. *)
Theorem distancia_uno_amigos db self o x max :
  o ≠ x → 1 ≤ max →
  ∃ d amigos,
    GrafoSocial.distancia_entre_usuarios db o x max self
    = Some (Retorna d, GrafoSocial.asegurado db self)
    ∧ GrafoSocial.obtener_amigos db o self
      = Some (Retorna amigos, GrafoSocial.asegurado db self)
    ∧ (d = 1 ↔ x ∈ amigos).
Proof.
  intros Hne Hmax.
  destruct (distancia_entre_usuarios_casos db self o x max Hne)
    as (d & Hd & Hcasos).
  exists d. eexists. split; [done|]. split; [apply obtener_amigos_corre|].
  rewrite <- (dist_1 _ o x Hne).
  destruct Hcasos as [[-> Hno]|[Hr Hdist]].
  - split; [done|]. intros [Hc _]. apply Hno in Hc. lia.
  - split.
    + intros ->. exact Hdist.
    + intros H1. pose proof (dist_unica _ _ _ _ _ Hdist H1). lia.
Qed.

Lemma distancia_uno_amigos_witness :
  ∃ d amigos,
    GrafoSocial.distancia_entre_usuarios Escenario.db Escenario.sofia
      Escenario.maria 5 GrafoSocial.__init__
    = Some (Retorna d,
            GrafoSocial.asegurado Escenario.db GrafoSocial.__init__)
    ∧ GrafoSocial.obtener_amigos Escenario.db Escenario.sofia
        GrafoSocial.__init__
      = Some (Retorna amigos,
              GrafoSocial.asegurado Escenario.db GrafoSocial.__init__)
    ∧ (d = 1 ↔ Escenario.maria ∈ amigos).
Proof.
  apply (distancia_uno_amigos Escenario.db GrafoSocial.__init__
           Escenario.sofia Escenario.maria 5).
  - vm_compute. discriminate.
  - lia.
Defined.

(** X5. In the graph built from the database two different users are at
    distance 2 exactly when they have a common friend and are not direct
    friends. *)
Theorem distancia_dos_amigos_en_comun db a b max :
  let self := {| GrafoSocial.grafo := GrafoSocial.grafo_construido db;
                 GrafoSocial._construido := true |} in
  a ≠ b → 2 ≤ max →
  ∃ d comunes amigos,
    GrafoSocial.distancia_entre_usuarios db a b max self
    = Some (Retorna d, self)
    ∧ GrafoSocial.amigos_en_comun db a b self = Some (Retorna comunes, self)
    ∧ GrafoSocial.obtener_amigos db a self = Some (Retorna amigos, self)
    ∧ (d = 2 ↔ comunes ≠ ∅ ∧ b ∉ amigos).
Proof.
  intros self Hne Hmax.
  pose proof (grafo_construido_simetrico db) as Hsim.
  destruct (distancia_entre_usuarios_casos db self a b max Hne)
    as (d & Hd & Hcasos).
  exists d. eexists _, _. split; [exact Hd|].
  split; [apply amigos_en_comun_corre|].
  split; [apply obtener_amigos_corre|]. simpl in *.
  set (g := GrafoSocial.grafo_construido db) in *. split.
  - intros ->.
    destruct Hcasos as [[? _]|[_ Hdist]]; [done|].
    split.
    + destruct Hdist as [Hc _].
      inversion Hc as [|p w n Hp Hw]; subst.
      apply camino_1 in Hp. apply Hsim in Hw. set_solver.
    + intros Hb. apply (dist_1 g a b Hne) in Hb.
      pose proof (dist_unica _ _ _ _ _ Hdist Hb). lia.
  - intros [Hcom Hb].
    apply set_choose_L in Hcom as [p [Hpa Hpb]%elem_of_intersection].
    assert (dist g a b 2) as Hdist.
    { split.
      - econstructor; [by apply camino_1|]. by apply Hsim.
      - intros [|[|n]] Hn; [|by apply camino_1 in Hn|lia].
        by apply camino_0 in Hn. }
    rewrite (distancia_entre_usuarios_dist db a b max 2 self Hdist) in Hd
      by lia.
    by simplify_eq.
Qed.

Lemma distancia_dos_amigos_en_comun_witness :
  let self := {| GrafoSocial.grafo :=
                   GrafoSocial.grafo_construido Escenario.db;
                 GrafoSocial._construido := true |} in
  ∃ d comunes amigos,
    GrafoSocial.distancia_entre_usuarios Escenario.db Escenario.ana
      Escenario.juan 5 self = Some (Retorna d, self)
    ∧ GrafoSocial.amigos_en_comun Escenario.db Escenario.ana Escenario.juan
        self = Some (Retorna comunes, self)
    ∧ GrafoSocial.obtener_amigos Escenario.db Escenario.ana self
      = Some (Retorna amigos, self)
    ∧ (d = 2 ↔ comunes ≠ ∅ ∧ Escenario.juan ∉ amigos).
Proof.
  apply (distancia_dos_amigos_en_comun Escenario.db Escenario.ana
           Escenario.juan 5).
  - vm_compute. discriminate.
  - lia.
Defined.

(** * Further properties of the levels *)

Lemma lookup_getitem_add (d : gmap Z (gset Z)) (k v k' : Z) :
  getitem_add d k v !! k'
  = if decide (k = k') then Some (dict_get d k ∪ {[v]}) else d !! k'.
Proof.
  unfold getitem_add, getitem, dict_get.
  destruct (d !! k) as [s|] eqn:Hk; case_decide; subst;
    rewrite ?lookup_insert_eq, ?lookup_insert_ne by done; done.
Qed.


Lemma bfs_vecinos_claves k nivel vs V Q N V' Q' N' :
  0 ≤ nivel < k →
  (∀ l s, N !! l = Some s → 1 ≤ l ≤ k ∧ s ≠ ∅) →
  (∀ v l, (v, l) ∈ Q → 0 ≤ l) →
  bfs_vecinos nivel vs V Q N = (V', Q', N') →
  (∀ l s, N' !! l = Some s → 1 ≤ l ≤ k ∧ s ≠ ∅)
  ∧ (∀ v l, (v, l) ∈ Q' → 0 ≤ l).
Proof.
  intros Hnivel. revert V Q N.
  induction vs as [|w vs IH]; intros V Q N HN HQ Heq; simpl in Heq.
  - by simplify_eq.
  - case_decide; [by eapply IH|].
    apply IH in Heq; [done| |].
    + intros l s. rewrite lookup_getitem_add. case_decide.
      * intros [= <-]. split; [lia|set_solver].
      * apply HN.
    + intros v l [?|[= -> ->]%list_elem_of_singleton]%elem_of_app;
        [by eapply HQ|lia].
Qed.

Lemma bfs_loop_claves fuel g k V Q N N' :
  (∀ l s, N !! l = Some s → 1 ≤ l ≤ k ∧ s ≠ ∅) →
  (∀ v l, (v, l) ∈ Q → 0 ≤ l) →
  bfs_loop fuel g k V Q N = Some N' →
  ∀ l s, N' !! l = Some s → 1 ≤ l ≤ k ∧ s ≠ ∅.
Proof.
  revert V Q N. induction fuel as [|fuel IH]; intros V Q N HN HQ Heq.
  - destruct Q as [|[a l] Q]; simpl in Heq; by simplify_eq.
  - destruct Q as [|[a l] Q]; simpl in Heq; [by simplify_eq|].
    assert (0 ≤ l) by (apply (HQ a); by left).
    assert (∀ v l', (v, l') ∈ Q → 0 ≤ l') as HQ'.
    { intros v l' ?. apply (HQ v). by right. }
    case_decide; [by eapply IH|].
    destruct (bfs_vecinos l (elements (dict_get g a)) V Q N)
      as [[V1 Q1] N1] eqn:Hvec.
    apply (bfs_vecinos_claves k) in Hvec as [HN1 HQ1]; [|lia|done|done].
    by apply (IH V1 Q1 N1).
Qed.

Lemma bfs_loop_claves_inicial g k o N :
  bfs_loop (combustible g) g k {[o]} [(o, 0)] ∅ = Some N →
  ∀ l s, N !! l = Some s → 1 ≤ l ≤ k ∧ s ≠ ∅.
Proof.
  apply bfs_loop_claves.
  - intros l s. by rewrite lookup_empty.
  - intros v l [= -> ->]%list_elem_of_singleton. lia.
Qed.

Section MasNiveles.
Context (db : BaseDatos).

(** X6. The dictionary returned by [bfs_niveles] has keys between 1 and
    [nivel_maximo] only and holds no empty set; for a bound that is not
    positive it is the empty dictionary. *)
Theorem bfs_niveles_claves self u k :
  ∃ niveles,
    GrafoSocial.bfs_niveles db u k self
    = Some (Retorna niveles, GrafoSocial.asegurado db self)
    ∧ (∀ l s, niveles !! l = Some s → 1 ≤ l ≤ k ∧ s ≠ ∅)
    ∧ (k ≤ 0 → niveles = ∅).
Proof.
  destruct (bfs_niveles_corre db u k self) as (N & HN & Hrun).
  exists N. split; [done|].
  pose proof (bfs_loop_claves_inicial _ _ _ _ HN) as Hclaves.
  split; [done|]. intros Hk. apply map_eq. intros l. rewrite lookup_empty.
  destruct (N !! l) as [s|] eqn:Hl; [|done].
  apply Hclaves in Hl. lia.
Qed.

(** X7. For a bound of at least 1 the first level of [bfs_niveles] is the
    set of the direct friends of the origin, the origin itself left out. *)
Theorem bfs_niveles_nivel_1 self u k :
  1 ≤ k →
  ∃ niveles amigos,
    GrafoSocial.bfs_niveles db u k self
    = Some (Retorna niveles, GrafoSocial.asegurado db self)
    ∧ GrafoSocial.obtener_amigos db u self
      = Some (Retorna amigos, GrafoSocial.asegurado db self)
    ∧ dict_get niveles 1 = amigos ∖ {[u]}.
Proof.
  intros Hk. destruct (bfs_niveles_corre db u k self) as (N & HN & Hrun).
  exists N. eexists. split; [done|]. split; [apply obtener_amigos_corre|].
  destruct (bfs_loop_niveles
              (GrafoSocial.grafo (GrafoSocial.asegurado db self)) u k)
    as (N0 & HN0 & Hniv).
  assert (N0 = N) as -> by congruence.
  apply set_eq. intros v. rewrite Hniv, elem_of_difference, elem_of_singleton.
  change (Z.to_nat 1) with 1%nat. split.
  - intros [_ Hd]. split.
    + destruct Hd as [Hc _]. by apply camino_1 in Hc.
    + intros ->. by apply dist_origen_0 in Hd.
  - intros [Hv Hne]. split; [lia|]. by apply dist_1.
Qed.

End MasNiveles.

Lemma bfs_niveles_nivel_1_witness :
  ∃ niveles amigos,
    GrafoSocial.bfs_niveles Escenario.db Escenario.sofia 4
      GrafoSocial.__init__
    = Some (Retorna niveles,
            GrafoSocial.asegurado Escenario.db GrafoSocial.__init__)
    ∧ GrafoSocial.obtener_amigos Escenario.db Escenario.sofia
        GrafoSocial.__init__
      = Some (Retorna amigos,
              GrafoSocial.asegurado Escenario.db GrafoSocial.__init__)
    ∧ dict_get niveles 1 = amigos ∖ {[Escenario.sofia]}.
Proof.
  apply (bfs_niveles_nivel_1 Escenario.db GrafoSocial.__init__
           Escenario.sofia 4).
  lia.
Defined.

Lemma bfs_loop_cola_vacia fuel g k V N : bfs_loop fuel g k V [] N = Some N.
Proof. by destruct fuel. Qed.

Lemma dist_loop_cola_vacia fuel g x k V : dist_loop fuel g x k V [] = Some (-1).
Proof. by destruct fuel. Qed.

(** X8. The levels do not depend on the bound: every level up to the
    smaller of two bounds is the same set in both traversals. *)
Theorem bfs_niveles_prefijo db self u k k' :
  k ≤ k' →
  ∃ niveles niveles',
    GrafoSocial.bfs_niveles db u k self
    = Some (Retorna niveles, GrafoSocial.asegurado db self)
    ∧ GrafoSocial.bfs_niveles db u k' self
      = Some (Retorna niveles', GrafoSocial.asegurado db self)
    ∧ ∀ l, l ≤ k → dict_get niveles l = dict_get niveles' l.
Proof.
  intros Hk.
  destruct (bfs_niveles_corre db u k self) as (N & HN & Hrun).
  destruct (bfs_niveles_corre db u k' self) as (N' & HN' & Hrun').
  exists N, N'. split; [done|]. split; [done|].
  set (g := GrafoSocial.grafo (GrafoSocial.asegurado db self)) in *.
  destruct (bfs_loop_niveles g u k) as (N0 & HN0 & Hniv).
  assert (N0 = N) as -> by congruence.
  destruct (bfs_loop_niveles g u k') as (N0 & HN0' & Hniv').
  assert (N0 = N') as -> by congruence.
  intros l Hl. apply set_eq. intros v. rewrite Hniv, Hniv'.
  split; intros [? ?]; (split; [lia|done]).
Qed.

Lemma bfs_niveles_prefijo_witness :
  ∃ niveles niveles',
    GrafoSocial.bfs_niveles Escenario.db Escenario.sofia 2
      GrafoSocial.__init__
    = Some (Retorna niveles,
            GrafoSocial.asegurado Escenario.db GrafoSocial.__init__)
    ∧ GrafoSocial.bfs_niveles Escenario.db Escenario.sofia 4
        GrafoSocial.__init__
      = Some (Retorna niveles',
              GrafoSocial.asegurado Escenario.db GrafoSocial.__init__)
    ∧ ∀ l, l ≤ 2 → dict_get niveles l = dict_get niveles' l.
Proof.
  apply (bfs_niveles_prefijo Escenario.db GrafoSocial.__init__
           Escenario.sofia 2 4).
  lia.
Defined.

(** X9. An origin without direct friends (an unknown identifier or an
    isolated user): [bfs_niveles] returns the empty dictionary for every
    bound and [distancia_entre_usuarios] returns -1 to every other
    identifier. *)
Theorem origen_sin_amigos db self u :
  GrafoSocial.obtener_amigos db u self
  = Some (Retorna ∅, GrafoSocial.asegurado db self) →
  (∀ k, GrafoSocial.bfs_niveles db u k self
        = Some (Retorna ∅, GrafoSocial.asegurado db self))
  ∧ (∀ x max, x ≠ u →
       GrafoSocial.distancia_entre_usuarios db u x max self
       = Some (Retorna (-1), GrafoSocial.asegurado db self)).
Proof.
  rewrite obtener_amigos_corre. intros Hvacio.
  assert (dict_get (GrafoSocial.grafo (GrafoSocial.asegurado db self)) u = ∅)
    as Hu by congruence.
  split.
  - intros k. destruct (bfs_niveles_corre db u k self) as (N & HN & Hrun).
    rewrite Hrun. do 3 f_equal.
    unfold combustible in HN. simpl in HN. rewrite Hu, elements_empty in HN.
    simpl in HN. rewrite bfs_loop_cola_vacia in HN.
    case_decide; congruence.
  - intros x max Hne.
    destruct (distancia_entre_usuarios_corre db u x max self)
      as (d & Hrun & Hd).
    rewrite Hrun. do 3 f_equal. rewrite decide_False in Hd by done.
    unfold combustible in Hd. simpl in Hd. rewrite Hu, elements_empty in Hd.
    simpl in Hd. rewrite dist_loop_cola_vacia in Hd.
    case_decide; congruence.
Qed.

Lemma origen_sin_amigos_witness :
  (∀ k, GrafoSocial.bfs_niveles Escenario.db 99 k GrafoSocial.__init__
        = Some (Retorna ∅,
                GrafoSocial.asegurado Escenario.db GrafoSocial.__init__))
  ∧ (∀ x max, x ≠ 99 →
       GrafoSocial.distancia_entre_usuarios Escenario.db 99 x max
         GrafoSocial.__init__
       = Some (Retorna (-1),
               GrafoSocial.asegurado Escenario.db GrafoSocial.__init__)).
Proof.
  apply (origen_sin_amigos Escenario.db GrafoSocial.__init__ 99).
  vm_compute. reflexivity.
Defined.

(** * Further properties of the statistics *)

Lemma suma_niveles_paso (N : gmap Z (gset Z)) (j : Z) :
  map_fold (λ _ v suma, len v + suma) 0 N
  = len (dict_get N j)
    + map_fold (λ _ v suma, len v + suma) 0 (delete j N).
Proof.
  unfold dict_get. destruct (N !! j) as [s|] eqn:Hj; simpl.
  - apply (map_fold_delete_L (λ _ v suma, len v + suma)); [|done].
    intros. lia.
  - rewrite delete_id by done. unfold len. rewrite size_empty. lia.
Qed.

Lemma suma_niveles_4 (N : gmap Z (gset Z)) :
  (∀ l s, N !! l = Some s → 1 ≤ l ≤ 4 ∧ s ≠ ∅) →
  map_fold (λ _ v suma, len v + suma) 0 N
  = len (dict_get N 1) + len (dict_get N 2) + len (dict_get N 3)
    + len (dict_get N 4).
Proof.
  intros Hclaves.
  assert (∀ a b (M : gmap Z (gset Z)), a ≠ b →
            dict_get (delete a M) b = dict_get M b) as Hotro.
  { intros a b M Hab. unfold dict_get. by rewrite lookup_delete_ne. }
  rewrite (suma_niveles_paso N 1), (suma_niveles_paso _ 2),
    (suma_niveles_paso _ 3), (suma_niveles_paso _ 4).
  rewrite !Hotro by done.
  assert (delete 4 (delete 3 (delete 2 (delete 1 N))) = ∅) as ->.
  { apply map_eq. intros l. rewrite lookup_empty.
    destruct (decide (l = 4)) as [->|]; [by rewrite lookup_delete_eq|].
    rewrite lookup_delete_ne by done.
    destruct (decide (l = 3)) as [->|]; [by rewrite lookup_delete_eq|].
    rewrite lookup_delete_ne by done.
    destruct (decide (l = 2)) as [->|]; [by rewrite lookup_delete_eq|].
    rewrite lookup_delete_ne by done.
    destruct (decide (l = 1)) as [->|]; [by rewrite lookup_delete_eq|].
    rewrite lookup_delete_ne by done.
    destruct (N !! l) as [s|] eqn:Hl; [|done]. apply Hclaves in Hl. lia. }
  rewrite map_fold_empty. lia.
Qed.

(** The nodes of the levels are keys of the built dictionary, and none is
    the origin. *)
Lemma nivel_en_claves db u k N j :
  bfs_loop (combustible (GrafoSocial.grafo_construido db))
    (GrafoSocial.grafo_construido db) k {[u]} [(u, 0)] ∅ = Some N →
  dict_get N j ⊆ dom (GrafoSocial.grafo_construido db) ∖ {[u]}.
Proof.
  intros HN v Hv.
  destruct (bfs_loop_niveles (GrafoSocial.grafo_construido db) u k)
    as (N0 & HN0 & Hniv).
  assert (N0 = N) as -> by congruence.
  apply Hniv in Hv as [Hj Hd]. apply elem_of_difference. split.
  - destruct Hd as [Hc _]. inversion Hc as [Hz|p w n Hp Hw]; subst; [lia|].
    by eapply grafo_construido_cerrado.
  - intros ->%elem_of_singleton. apply dist_origen_0 in Hd. lia.
Qed.

Lemma niveles_disjuntos g u k N j1 j2 :
  bfs_loop (combustible g) g k {[u]} [(u, 0)] ∅ = Some N →
  j1 ≠ j2 → dict_get N j1 ## dict_get N j2.
Proof.
  intros HN Hne v H1 H2.
  destruct (bfs_loop_niveles g u k) as (N0 & HN0 & Hniv).
  assert (N0 = N) as -> by congruence.
  apply Hniv in H1 as [? H1]. apply Hniv in H2 as [? H2].
  pose proof (dist_unica _ _ _ _ _ H1 H2). lia.
Qed.

Section MasEstadisticas.
Context (db : BaseDatos).

(** X10. When no stored friendship joins a user with itself, the reach
    reported by [obtener_estadisticas_grafo] is the sum of its four other
    counts: direct friends and levels 2, 3 and 4. *)
Theorem estadisticas_alcance_suma self usuario :
  Forall (λ am, Amistad.usuario1_id am ≠ Amistad.usuario2_id am)
    (amistades db) →
  ∃ est,
    MotorRecomendaciones.obtener_estadisticas_grafo db usuario self
    = Some (Retorna est, motor_construido db)
    ∧ Estadisticas.alcance est
      = Estadisticas.amigos_directos est + Estadisticas.nivel_2 est
        + Estadisticas.nivel_3 est + Estadisticas.nivel_4 est.
Proof.
  intros Hams.
  destruct (obtener_estadisticas_grafo_corre db usuario self)
    as (N & HN & Hrun).
  eexists. split; [exact Hrun|]. simpl.
  rewrite (suma_niveles_4 N) by (by eapply bfs_loop_claves_inicial).
  do 4 f_equal.
  destruct (bfs_loop_niveles (GrafoSocial.grafo_construido db)
              (User.id usuario) 4) as (N0 & HN0 & Hniv).
  assert (N0 = N) as -> by congruence.
  apply set_eq. intros v. rewrite Hniv. change (Z.to_nat 1) with 1%nat.
  split.
  - intros [_ [Hc _]]. by apply camino_1 in Hc.
  - intros Hv. split; [lia|]. apply dist_1; [|done].
    intros Heq. rewrite Heq in Hv.
    by apply (grafo_construido_sin_lazos db Hams v).
Qed.

(** X11. The reach never counts the user: it is at most the number of
    nodes of the graph, and smaller when the user is a stored user. *)
Theorem estadisticas_alcance_acotado self usuario :
  ∃ est,
    MotorRecomendaciones.obtener_estadisticas_grafo db usuario self
    = Some (Retorna est, motor_construido db)
    ∧ 0 ≤ Estadisticas.alcance est ≤ Estadisticas.total_usuarios est
    ∧ (User.id usuario ∈ todos_usuarios db →
       Estadisticas.alcance est < Estadisticas.total_usuarios est).
Proof.
  destruct (obtener_estadisticas_grafo_corre db usuario self)
    as (N & HN & Hrun).
  eexists. split; [exact Hrun|]. simpl.
  set (g := GrafoSocial.grafo_construido db) in *.
  set (u := User.id usuario) in *.
  rewrite (suma_niveles_4 N) by (by eapply bfs_loop_claves_inicial).
  assert (len (dict_get N 1) + len (dict_get N 2) + len (dict_get N 3)
          + len (dict_get N 4)
          = len (dict_get N 1 ∪ dict_get N 2 ∪ dict_get N 3 ∪ dict_get N 4))
    as ->.
  { pose proof (niveles_disjuntos g u 4 N 1 2 HN).
    pose proof (niveles_disjuntos g u 4 N 1 3 HN).
    pose proof (niveles_disjuntos g u 4 N 1 4 HN).
    pose proof (niveles_disjuntos g u 4 N 2 3 HN).
    pose proof (niveles_disjuntos g u 4 N 2 4 HN).
    pose proof (niveles_disjuntos g u 4 N 3 4 HN).
    unfold len. rewrite !size_union by set_solver. lia. }
  assert (dict_get N 1 ∪ dict_get N 2 ∪ dict_get N 3 ∪ dict_get N 4
          ⊆ dom g ∖ {[u]}) as Hsub.
  { pose proof (nivel_en_claves db u 4 N 1 HN).
    pose proof (nivel_en_claves db u 4 N 2 HN).
    pose proof (nivel_en_claves db u 4 N 3 HN).
    pose proof (nivel_en_claves db u 4 N 4 HN).
    set_solver. }
  apply subseteq_size in Hsub. rewrite <- (size_dom (D := gset Z) g).
  unfold len.
  split.
  - split; [lia|].
    assert (size (dom g ∖ {[u]}) ≤ size (dom g))%nat; [|lia].
    apply subseteq_size. set_solver.
  - intros Hu.
    assert (u ∈ dom g) by (unfold g; rewrite dom_grafo_construido; set_solver).
    rewrite (size_difference (C := gset Z) (dom g) {[u]}) in Hsub
      by set_solver.
    rewrite size_singleton in Hsub.
    assert (size (dom g) ≠ 0%nat); [|lia].
    apply size_non_empty_iff. set_solver.
Qed.

End MasEstadisticas.

Lemma estadisticas_alcance_suma_witness :
  ∃ est,
    MotorRecomendaciones.obtener_estadisticas_grafo Escenario.db
      (Escenario.usuario Escenario.sofia "sofia")
      MotorRecomendaciones.__init__
    = Some (Retorna est, motor_construido Escenario.db)
    ∧ Estadisticas.alcance est
      = Estadisticas.amigos_directos est + Estadisticas.nivel_2 est
        + Estadisticas.nivel_3 est + Estadisticas.nivel_4 est.
Proof.
  apply (estadisticas_alcance_suma Escenario.db MotorRecomendaciones.__init__
           (Escenario.usuario Escenario.sofia "sofia")).
  simpl. repeat constructor; vm_compute; discriminate.
Defined.

(** * Further properties of the recommendations *)

Section MasRecomendaciones.
Import MotorRecomendaciones.
Context (db : BaseDatos).

Lemma nombres_amigos_comun_detalle l self :
  nombres_amigos_comun db l self
  = Some (Retorna (omap (λ a, User.username <$> User_objects_get db a)
                     (take 3 l)), self).
Proof.
  unfold nombres_amigos_comun.
  destruct (para_cada_corre
    (λ amigos_comun_nombres amigo_id,
       intentar
         (amigo ← obtener_usuario db amigo_id;
          mret (amigos_comun_nombres ++ [User.username amigo]))
         (mret amigos_comun_nombres))
    (λ xs acc, acc = omap (λ a, User.username <$> User_objects_get db a) xs)
    self (take 3 l)) with (xs := @nil Z) (acc := @nil string)
    as (ns & Hns & ->); [|done|done].
  intros xs x acc ->. rewrite omap_app. simpl.
  unfold intentar, obtener_usuario, mbind, M_bind.
  destruct (User_objects_get db x) as [amigo|]; simpl.
  - by eexists.
  - eexists. split; [done|]. by rewrite app_nil_r.
Qed.

Lemma recomendar_candidato_detalle u recs c cu :
  User_objects_get db c = Some cu →
  ∃ r, recomendar_candidato db u recs c (motor_construido db)
       = Some (Retorna (recs ++ [r]), motor_construido db)
     ∧ Recomendacion.usuario r = cu
     ∧ entrada_de db u r.
Proof.
  intros Hcu. unfold recomendar_candidato, intentar, obtener_usuario.
  rewrite Hcu.
  destruct (calcular_puntuacion_corre db u c (motor_construido db))
    as (d & Hd & Hdatos).
  rewrite (M_bind_retorna (mret cu) _ (motor_construido db) cu
             (motor_construido db)) by done.
  rewrite (M_bind_retorna _ _ _ _ _ Hdatos), motor_asegurado_construido.
  simpl. rewrite (M_bind_retorna _ _ _ _ _
                    (nombres_amigos_comun_detalle _ (motor_construido db))).
  eexists. split; [done|]. split; [done|].
  apply User_objects_get_Some in Hcu as Hid. destruct Hid as [Hid _].
  unfold entrada_de. simpl. rewrite Hid.
  split; [done|]. split; [done|]. split; [exact Hd|].
  split; [repeat case_decide; lia|].
  exists (take 3 (elements
                    (dict_get (GrafoSocial.grafo_construido db) u
                     ∩ dict_get (GrafoSocial.grafo_construido db) c))).
  split; [|split; [|split; [|done]]].
  - eapply sublist_NoDup; [|apply sublist_take]. apply NoDup_elements.
  - intros a Ha. apply elem_of_elements.
    eapply elem_of_sublist; [exact Ha|apply sublist_take].
  - rewrite length_take. reflexivity.
Qed.

(** The loop over the candidates: one entry, in order, for each candidate
    that has a user. *)
Lemma recomendar_candidatos_detalle u cs :
  ∃ recs, para_cada (recomendar_candidato db u) cs [] (motor_construido db)
          = Some (Retorna recs, motor_construido db)
        ∧ Forall (entrada_de db u) recs
        ∧ (λ r, User.id (Recomendacion.usuario r)) <$> recs
          = filter (λ c, is_Some (User_objects_get db c)) cs.
Proof.
  destruct (para_cada_corre (recomendar_candidato db u)
    (λ xs recs,
       Forall (entrada_de db u) recs
       ∧ (λ r, User.id (Recomendacion.usuario r)) <$> recs
         = filter (λ c, is_Some (User_objects_get db c)) xs)
    (motor_construido db) cs) with (xs := @nil Z) (acc := @nil Recomendacion.t)
    as (recs & Hrecs & Hinv); [|done|by exists recs].
  intros xs x acc [Hall Hids]. rewrite filter_app.
  destruct (User_objects_get db x) as [cu|] eqn:Hcu.
  - destruct (recomendar_candidato_detalle u acc x cu Hcu)
      as (r & Hrun & Hr & Hent).
    exists (acc ++ [r]). split; [done|]. split.
    + apply Forall_app. split; [done|]. by apply Forall_singleton.
    + rewrite fmap_app, Hids. f_equal.
      rewrite filter_cons_True by (by rewrite Hcu).
      simpl. rewrite Hr.
      by apply User_objects_get_Some in Hcu as [-> _].
  - destruct (recomendar_candidato_corre db u acc x) as (recs' & Hrun & Hcaso).
    rewrite Hcu in Hcaso. subst recs'.
    exists acc. split; [done|]. split; [done|].
    rewrite filter_cons_False by (rewrite Hcu; by intros [? ?]).
    by rewrite filter_nil, app_nil_r.
Qed.

(** The list before it is sorted and truncated. *)
Lemma obtener_recomendaciones_detalle usuario limite self :
  let g := GrafoSocial.grafo_construido db in
  let u := User.id usuario in
  ∃ N recs,
    let candidatos :=
      excluir_pendientes db u
        (ampliar_candidatos db (dict_get g u) u
           (candidatos_de_niveles N) limite) in
    bfs_loop (combustible g) g 4 {[u]} [(u, 0)] ∅ = Some N
    ∧ obtener_recomendaciones db usuario limite self
      = Some (Retorna (slice_hasta (ordenar recs) limite), motor_construido db)
    ∧ Forall (entrada_de db u) recs
    ∧ (λ r, User.id (Recomendacion.usuario r)) <$> recs
      = filter (λ c, is_Some (User_objects_get db c)) (elements candidatos).
Proof.
  intros g u.
  destruct (candidatos_sin_filtrar_corre db u limite self) as (N & HN & Hpool).
  destruct (recomendar_candidatos_detalle u
              (elements (excluir_pendientes db u
                 (ampliar_candidatos db (dict_get g u) u
                    (candidatos_de_niveles N) limite))))
    as (recs & Hrecs & Hall & Hids).
  exists N, recs. split; [done|]. split; [|done].
  unfold obtener_recomendaciones. cbv zeta.
  rewrite (M_bind_retorna _ _ _ _ _ Hpool).
  by rewrite (M_bind_retorna _ _ _ _ _ Hrecs).
Qed.

End MasRecomendaciones.

Lemma insertar_ordenada r l :
  StronglySorted por_puntuacion l → StronglySorted por_puntuacion (insertar r l).
Proof.
  induction 1 as [|r' l Hl IH Hr']; simpl.
  - by repeat constructor.
  - case_decide as Hle.
    + constructor; [by constructor|]. constructor; [done|].
      eapply Forall_impl; [exact Hr'|]. unfold por_puntuacion. intros; lia.
    + constructor; [done|]. rewrite insertar_perm.
      constructor; [unfold por_puntuacion; lia|done].
Qed.

Lemma ordenar_ordenada l : StronglySorted por_puntuacion (ordenar l).
Proof.
  induction l as [|r l IH]; simpl; [constructor|by apply insertar_ordenada].
Qed.

Lemma slice_hasta_sublist {A} (l : list A) n : slice_hasta l n `sublist_of` l.
Proof. unfold slice_hasta. case_decide; apply sublist_take. Qed.

Lemma slice_hasta_ordenada l n :
  StronglySorted por_puntuacion l →
  StronglySorted por_puntuacion (slice_hasta l n).
Proof.
  intros Hl. unfold slice_hasta.
  case_decide;
    [rewrite <- (take_drop (Z.to_nat (Z.of_nat (length l) + n)) l) in Hl
    |rewrite <- (take_drop (Z.to_nat n) l) in Hl];
    by apply StronglySorted_app_1_l in Hl.
Qed.

Lemma slice_hasta_Forall {A} (P : A → Prop) (l : list A) n :
  Forall P l → Forall P (slice_hasta l n).
Proof. unfold slice_hasta. case_decide; apply Forall_take. Qed.

Lemma slice_hasta_completa {A} (l : list A) n :
  Z.of_nat (length (slice_hasta l n)) < n → slice_hasta l n = l.
Proof.
  unfold slice_hasta. case_decide; [lia|].
  rewrite length_take. intros Hlt. apply take_ge. lia.
Qed.

Lemma length_omap {A B} (f : A → option B) (l : list A) :
  (length (omap f l) ≤ length l)%nat.
Proof.
  induction l as [|x l IH]; [done|].
  change (omap f (x :: l))
    with (match f x with Some y => y :: omap f l | None => omap f l end).
  destruct (f x); simpl; lia.
Qed.

(** The candidates are neither the user nor direct friends. *)
Lemma candidatos_excluidos db u N limite x :
  let g := GrafoSocial.grafo_construido db in
  bfs_loop (combustible g) g 4 {[u]} [(u, 0)] ∅ = Some N →
  x ∈ MotorRecomendaciones.excluir_pendientes db u
        (MotorRecomendaciones.ampliar_candidatos db (dict_get g u) u
           (MotorRecomendaciones.candidatos_de_niveles N) limite) →
  x ≠ u ∧ x ∉ dict_get g u.
Proof.
  intros g HN.
  unfold MotorRecomendaciones.excluir_pendientes,
    MotorRecomendaciones.ampliar_candidatos.
  intros [[Hx _]%elem_of_difference _]%elem_of_difference.
  case_decide; [|by eapply candidatos_lejanos].
  apply elem_of_union in Hx as [Hx|Hx]; [by eapply candidatos_lejanos|].
  set_solver.
Qed.

(** In a symmetric adjacency two different nodes are at distance 2 exactly
    when they have a common neighbour and are not neighbours. *)
Lemma dist_2_comunes g a b :
  simetrico g → a ≠ b →
  dist g a b 2 ↔ dict_get g a ∩ dict_get g b ≠ ∅ ∧ b ∉ dict_get g a.
Proof.
  intros Hsim Hne. split.
  - intros Hdist. split.
    + destruct Hdist as [Hc _].
      inversion Hc as [|p w n Hp Hw]; subst.
      apply (camino_1 g) in Hp. apply Hsim in Hw. set_solver.
    + intros Hb. apply (dist_1 g a b Hne) in Hb.
      pose proof (dist_unica _ _ _ _ _ Hdist Hb). lia.
  - intros [Hcom Hb].
    apply set_choose_L in Hcom as [p [Hpa Hpb]%elem_of_intersection].
    split.
    + econstructor; [by apply camino_1|]. by apply Hsim.
    + intros [|[|n]] Hn; [|by apply camino_1 in Hn|lia].
      by apply camino_0 in Hn.
Qed.

Section PropiedadesRecomendaciones.
Context (db : BaseDatos).

(** X12. The list returned by [obtener_recomendaciones] is sorted: the score
    never increases along the list, for every limit. *)
Theorem obtener_recomendaciones_ordenada self usuario limite :
  ∃ recomendaciones,
    MotorRecomendaciones.obtener_recomendaciones db usuario limite self
    = Some (Retorna recomendaciones, motor_construido db)
    ∧ StronglySorted por_puntuacion recomendaciones.
Proof.
  destruct (obtener_recomendaciones_detalle db usuario limite self)
    as (N & recs & _ & Hrun & _).
  eexists. split; [exact Hrun|].
  apply slice_hasta_ordenada, ordenar_ordenada.
Qed.

(** X13. No user is recommended twice: the identifiers of the users of the
    list are pairwise different. *)
Theorem obtener_recomendaciones_sin_repetidos self usuario limite :
  ∃ recomendaciones,
    MotorRecomendaciones.obtener_recomendaciones db usuario limite self
    = Some (Retorna recomendaciones, motor_construido db)
    ∧ NoDup ((λ r, User.id (Recomendacion.usuario r)) <$> recomendaciones).
Proof.
  destruct (obtener_recomendaciones_detalle db usuario limite self)
    as (N & recs & _ & Hrun & _ & Hids).
  eexists. split; [exact Hrun|].
  apply (sublist_NoDup _
           ((λ r, User.id (Recomendacion.usuario r)) <$> ordenar recs)).
  - rewrite ordenar_perm, Hids. apply NoDup_filter, NoDup_elements.
  - apply fmap_sublist, slice_hasta_sublist.
Qed.

(** X14. Every entry of the list is the entry computed for its user: the
    user is stored, the count is the number of common friends, the distance
    is the one [distancia_entre_usuarios] returns with the bound 5, the
    score is ten times the count plus the distance bonus, and the names
    are those of three different common friends (of all of them when they
    are fewer than three) that have a user. *)
Theorem obtener_recomendaciones_entradas self usuario limite :
  ∃ recomendaciones,
    MotorRecomendaciones.obtener_recomendaciones db usuario limite self
    = Some (Retorna recomendaciones, motor_construido db)
    ∧ Forall (entrada_de db (User.id usuario)) recomendaciones.
Proof.
  destruct (obtener_recomendaciones_detalle db usuario limite self)
    as (N & recs & _ & Hrun & Hall & _).
  eexists. split; [exact Hrun|].
  apply slice_hasta_Forall. by rewrite ordenar_perm.
Qed.

Lemma entrada_distancia u r :
  let c := User.id (Recomendacion.usuario r) in
  let g := GrafoSocial.grafo_construido db in
  entrada_de db u r → c ≠ u → c ∉ dict_get g u →
  (Recomendacion.distancia r = -1 ∧ ∀ n, camino g u c n → 5 < Z.of_nat n)
  ∨ (2 ≤ Recomendacion.distancia r ≤ 5
     ∧ dist g u c (Z.to_nat (Recomendacion.distancia r))).
Proof.
  intros c g (_ & _ & Hd & _) Hcu Hamigo.
  destruct (distancia_entre_usuarios_casos db
              {| GrafoSocial.grafo := g; GrafoSocial._construido := true |}
              u c 5) as (d & Hd' & Hcasos); [done|].
  rewrite asegurado_grafo_construido in Hd'. fold c g in Hd.
  assert (d = Recomendacion.distancia r) as -> by congruence.
  simpl in Hcasos. destruct Hcasos as [?|[Hr Hdist]]; [by left|]. right.
  split; [|done].
  destruct (decide (Recomendacion.distancia r = 1)) as [H1|]; [|lia].
  rewrite H1 in Hdist. change (Z.to_nat 1) with 1%nat in Hdist.
  apply dist_1 in Hdist; done.
Qed.

Lemma entrada_comunes u r :
  let c := User.id (Recomendacion.usuario r) in
  let g := GrafoSocial.grafo_construido db in
  entrada_de db u r → c ≠ u → c ∉ dict_get g u →
  1 ≤ Recomendacion.num_amigos_comun r ↔ Recomendacion.distancia r = 2.
Proof.
  intros c g Hent Hcu Hamigo.
  pose proof (entrada_distancia u r Hent Hcu Hamigo) as Hdist.
  destruct Hent as (_ & Hnum & Hd & _). fold c g in Hnum, Hd.
  pose proof (dist_2_comunes g u c (grafo_construido_simetrico db)) as H2.
  rewrite Hnum. unfold len.
  assert (1 ≤ Z.of_nat (size (dict_get g u ∩ dict_get g c))
          ↔ dict_get g u ∩ dict_get g c ≠ ∅) as ->.
  { split.
    - intros H1 Heq. rewrite Heq, size_empty in H1. lia.
    - intros Hne.
      assert (size (dict_get g u ∩ dict_get g c) ≠ 0%nat); [|lia].
      intros H0%size_empty_iff. apply Hne. by apply leibniz_equiv. }
  split.
  - intros Hcom.
    assert (dist g u c 2) as Hd2 by (apply H2; done).
    rewrite (distancia_entre_usuarios_dist db u c 5 2) in Hd; [| |lia].
    + by simplify_eq.
    + by rewrite asegurado_grafo_construido.
  - intros Hr2. destruct Hdist as [[? _]|[_ Hd2]]; [lia|].
    rewrite Hr2 in Hd2. change (Z.to_nat 2) with 2%nat in Hd2.
    apply H2 in Hd2; [|done]. by destruct Hd2.
Qed.

(** The entries of the list with the candidates they come from. *)
Lemma obtener_recomendaciones_candidatos self usuario limite :
  let g := GrafoSocial.grafo_construido db in
  let u := User.id usuario in
  ∃ recomendaciones,
    MotorRecomendaciones.obtener_recomendaciones db usuario limite self
    = Some (Retorna recomendaciones, motor_construido db)
    ∧ ∀ r, r ∈ recomendaciones →
        entrada_de db u r
        ∧ User.id (Recomendacion.usuario r) ≠ u
        ∧ User.id (Recomendacion.usuario r) ∉ dict_get g u.
Proof.
  intros g u.
  destruct (obtener_recomendaciones_detalle db usuario limite self)
    as (N & recs & HN & Hrun & Hall & Hids).
  eexists. split; [exact Hrun|].
  intros r Hr%slice_hasta_elem_of. rewrite ordenar_perm in Hr.
  split; [by eapply Forall_forall in Hall|].
  assert (User.id (Recomendacion.usuario r)
          ∈ (λ r, User.id (Recomendacion.usuario r)) <$> recs) as Hid.
  { by apply (list_elem_of_fmap_2 (λ r, User.id (Recomendacion.usuario r))). }
  rewrite Hids in Hid.
  apply list_elem_of_filter in Hid as [_ Hid%elem_of_elements].
  by eapply candidatos_excluidos.
Qed.

(** X15. For every entry of the list the distance is -1 or lies between 2
    and 5, the score lies between ten times the count of common friends
    and that plus 5, and there are at most three names and no more names
    than common friends. *)
Theorem obtener_recomendaciones_rangos self usuario limite :
  ∃ recomendaciones,
    MotorRecomendaciones.obtener_recomendaciones db usuario limite self
    = Some (Retorna recomendaciones, motor_construido db)
    ∧ ∀ r, r ∈ recomendaciones →
        (Recomendacion.distancia r = -1 ∨ 2 ≤ Recomendacion.distancia r ≤ 5)
        ∧ 0 ≤ Recomendacion.num_amigos_comun r
        ∧ 10 * Recomendacion.num_amigos_comun r
          ≤ Recomendacion.puntuacion r
          ≤ 10 * Recomendacion.num_amigos_comun r + 5
        ∧ Z.of_nat (length (Recomendacion.amigos_comun_nombres r)) ≤ 3
        ∧ Z.of_nat (length (Recomendacion.amigos_comun_nombres r))
          ≤ Recomendacion.num_amigos_comun r.
Proof.
  destruct (obtener_recomendaciones_candidatos self usuario limite)
    as (recs & Hrun & Hin).
  exists recs. split; [done|]. intros r Hr.
  destruct (Hin r Hr) as (Hent & Hcu & Hamigo).
  pose proof (entrada_distancia _ r Hent Hcu Hamigo) as Hdist.
  destruct Hent
    as (_ & Hnum & _ & Hpunt & mostrados & _ & _ & Hmostrados & Hnombres).
  rewrite Hnum, Hpunt, Hnombres.
  pose proof (length_omap (λ a, User.username <$> User_objects_get db a)
                mostrados) as Hlen.
  rewrite Hmostrados in Hlen. unfold len in *.
  split; [destruct Hdist as [[? _]|[? _]]; [by left|by right]|].
  split; [lia|]. split; [repeat case_decide; lia|]. lia.
Qed.

(** X16. Common friends decide the rank: an entry has a common friend
    exactly when its distance is 2, and then its score is ten times the
    count plus 5; an entry without common friends has a score of at most
    2. *)
Theorem obtener_recomendaciones_amigos_en_comun self usuario limite :
  ∃ recomendaciones,
    MotorRecomendaciones.obtener_recomendaciones db usuario limite self
    = Some (Retorna recomendaciones, motor_construido db)
    ∧ ∀ r, r ∈ recomendaciones →
        (1 ≤ Recomendacion.num_amigos_comun r
         ↔ Recomendacion.distancia r = 2)
        ∧ (1 ≤ Recomendacion.num_amigos_comun r →
           Recomendacion.puntuacion r
           = 10 * Recomendacion.num_amigos_comun r + 5)
        ∧ (Recomendacion.num_amigos_comun r = 0 →
           0 ≤ Recomendacion.puntuacion r ≤ 2).
Proof.
  destruct (obtener_recomendaciones_candidatos self usuario limite)
    as (recs & Hrun & Hin).
  exists recs. split; [done|]. intros r Hr.
  destruct (Hin r Hr) as (Hent & Hcu & Hamigo).
  pose proof (entrada_comunes _ r Hent Hcu Hamigo) as Hcom.
  destruct Hent as (_ & Hnum & _ & Hpunt & _). rewrite <- Hnum in Hpunt.
  split; [done|]. split.
  - intros H1. apply Hcom in H1. rewrite Hpunt, H1. by rewrite decide_True.
  - intros H0. rewrite Hpunt, H0.
    assert (Recomendacion.distancia r ≠ 2) by (rewrite <- Hcom; lia).
    repeat case_decide; lia.
Qed.

End PropiedadesRecomendaciones.

Lemma User_objects_get_is_Some db x :
  is_Some (User_objects_get db x) ↔ x ∈ todos_usuarios db.
Proof.
  unfold User_objects_get, todos_usuarios.
  rewrite elem_of_list_to_set, list_elem_of_fmap.
  destruct (list_find _ _) as [[i u]|] eqn:Hfind; simpl.
  - apply list_find_Some in Hfind as (Hi & Hu & _). split; [|by eexists].
    intros _. exists u. split; [done|]. by eapply list_elem_of_lookup_2.
  - apply list_find_None in Hfind. split; [by intros [? ?]|].
    intros (u & -> & Hu). by eapply Forall_forall in Hfind.
Qed.

Lemma slice_hasta_todo {A} (l : list A) n :
  Z.of_nat (length l) ≤ n → slice_hasta l n = l.
Proof.
  intros Hn. unfold slice_hasta. rewrite decide_False by lia.
  apply take_ge. lia.
Qed.

(** With every friendship between stored users, the keys of the built
    dictionary are the identifiers of the stored users. *)
Lemma dom_grafo_construido_usuarios db :
  Forall (λ am, Amistad.usuario1_id am ∈ todos_usuarios db
                ∧ Amistad.usuario2_id am ∈ todos_usuarios db)
    (amistades db) →
  dom (GrafoSocial.grafo_construido db) = todos_usuarios db.
Proof.
  intros Hfk. rewrite dom_grafo_construido. apply set_eq. intros x.
  rewrite !elem_of_union, !elem_of_list_to_set, !list_elem_of_fmap.
  split; [|by intros; left; left].
  intros [[?|(am & -> & Ham)]|(am & -> & Ham)]; [done|..];
    eapply Forall_forall in Hfk; try exact Ham; by destruct Hfk.
Qed.

(** With a limit above the number of stored users nothing is truncated and
    every stored user that can be a candidate is one. *)
Lemma recomendaciones_completas db self usuario limite :
  let u := User.id usuario in
  Forall (λ am, Amistad.usuario1_id am ∈ todos_usuarios db
                ∧ Amistad.usuario2_id am ∈ todos_usuarios db)
    (amistades db) →
  len (todos_usuarios db) < limite →
  ∃ recomendaciones,
    MotorRecomendaciones.obtener_recomendaciones db usuario limite self
    = Some (Retorna recomendaciones, motor_construido db)
    ∧ ∀ c, c ∈ (λ r, User.id (Recomendacion.usuario r)) <$> recomendaciones
           ↔ c ∈ todos_usuarios db ∧ c ≠ u
             ∧ (c ∉ dict_get (GrafoSocial.grafo_construido db) u)
             ∧ (c ∉ solicitudes_enviadas db u)
             ∧ (c ∉ solicitudes_recibidas db u).
Proof.
  intros u Hfk Hlim.
  destruct (obtener_recomendaciones_detalle db usuario limite self)
    as (N & recs & HN & Hrun & _ & Hids).
  eexists. split; [exact Hrun|].
  simpl. fold u in HN, Hids.
  set (g := GrafoSocial.grafo_construido db) in *.
  set (union := MotorRecomendaciones.candidatos_de_niveles N) in *.
  assert (union ⊆ todos_usuarios db ∖ {[u]}) as Hunion.
  { rewrite <- (dom_grafo_construido_usuarios db Hfk).
    unfold union. rewrite candidatos_de_niveles_eq.
    pose proof (nivel_en_claves db u 4 N 2 HN).
    pose proof (nivel_en_claves db u 4 N 3 HN).
    pose proof (nivel_en_claves db u 4 N 4 HN).
    set_solver. }
  assert (∀ x, x ∈ union → x ≠ u ∧ x ∉ dict_get g u) as Hlejos.
  { intros x Hx. by eapply candidatos_lejanos. }
  assert (MotorRecomendaciones.ampliar_candidatos db (dict_get g u) u union
            limite
          = todos_usuarios db ∖ dict_get g u ∖ {[u]}) as Hamp.
  { unfold MotorRecomendaciones.ampliar_candidatos.
    rewrite decide_True.
    - apply set_eq. intros x.
      rewrite elem_of_union, !elem_of_difference, elem_of_singleton. split.
      + intros [Hx|[Hx _]]; [|done]. destruct (Hlejos x Hx).
        apply Hunion in Hx. by apply elem_of_difference in Hx as [? _].
      + intros [[? ?] ?]. destruct (decide (x ∈ union)); [by left|by right].
    - assert (size union ≤ size (todos_usuarios db))%nat; [|unfold len in *; lia].
      apply subseteq_size. intros x Hx%Hunion.
      by apply elem_of_difference in Hx as [? _]. }
  rewrite Hamp in Hids.
  set (cand := MotorRecomendaciones.excluir_pendientes db u
                 (todos_usuarios db ∖ dict_get g u ∖ {[u]})) in *.
  assert (cand ⊆ todos_usuarios db) as Hcand.
  { unfold cand, MotorRecomendaciones.excluir_pendientes.
    intros x. rewrite !elem_of_difference. tauto. }
  assert (slice_hasta (ordenar recs) limite = ordenar recs) as ->.
  { apply slice_hasta_todo. rewrite ordenar_perm.
    rewrite <- (length_fmap (λ r, User.id (Recomendacion.usuario r))), Hids.
    pose proof (length_filter (λ c, is_Some (User_objects_get db c))
                  (elements cand)) as Hf.
    assert (size cand ≤ size (todos_usuarios db))%nat as Hs
      by (by apply subseteq_size).
    change (size cand) with (length (elements cand)) in Hs.
    unfold len in Hlim. lia. }
  intros c. rewrite ordenar_perm, Hids, list_elem_of_filter, elem_of_elements.
  rewrite User_objects_get_is_Some.
  unfold cand, MotorRecomendaciones.excluir_pendientes.
  rewrite !elem_of_difference, elem_of_singleton. tauto.
Qed.

(** X17. With every friendship between stored users and a limit above the
    number of stored users, the list holds exactly the stored users that
    are not the user, not direct friends of the user, and without a
    pending request from or to the user. *)
Theorem obtener_recomendaciones_completa db self usuario limite :
  let u := User.id usuario in
  Forall (λ am, Amistad.usuario1_id am ∈ todos_usuarios db
                ∧ Amistad.usuario2_id am ∈ todos_usuarios db)
    (amistades db) →
  len (todos_usuarios db) < limite →
  ∃ recomendaciones amigos,
    MotorRecomendaciones.obtener_recomendaciones db usuario limite self
    = Some (Retorna recomendaciones, motor_construido db)
    ∧ GrafoSocial.obtener_amigos db u
        (MotorRecomendaciones.grafo (motor_construido db))
      = Some (Retorna amigos, MotorRecomendaciones.grafo (motor_construido db))
    ∧ ∀ c, c ∈ (λ r, User.id (Recomendacion.usuario r)) <$> recomendaciones
           ↔ c ∈ todos_usuarios db ∧ c ≠ u ∧ (c ∉ amigos)
             ∧ (c ∉ solicitudes_enviadas db u)
             ∧ (c ∉ solicitudes_recibidas db u).
Proof.
  intros u Hfk Hlim.
  destruct (recomendaciones_completas db self usuario limite Hfk Hlim)
    as (recs & Hrun & Hrecs).
  exists recs. eexists. split; [exact Hrun|].
  split; [apply obtener_amigos_corre|]. exact Hrecs.
Qed.

Lemma obtener_recomendaciones_completa_witness :
  ∃ recomendaciones amigos,
    MotorRecomendaciones.obtener_recomendaciones Escenario.db
      (Escenario.usuario Escenario.sofia "sofia") 20
      MotorRecomendaciones.__init__
    = Some (Retorna recomendaciones, motor_construido Escenario.db)
    ∧ GrafoSocial.obtener_amigos Escenario.db Escenario.sofia
        (MotorRecomendaciones.grafo (motor_construido Escenario.db))
      = Some (Retorna amigos,
              MotorRecomendaciones.grafo (motor_construido Escenario.db))
    ∧ ∀ c, c ∈ (λ r, User.id (Recomendacion.usuario r)) <$> recomendaciones
           ↔ c ∈ todos_usuarios Escenario.db ∧ c ≠ Escenario.sofia
             ∧ (c ∉ amigos)
             ∧ (c ∉ solicitudes_enviadas Escenario.db Escenario.sofia)
             ∧ (c ∉ solicitudes_recibidas Escenario.db Escenario.sofia).
Proof.
  apply (obtener_recomendaciones_completa Escenario.db
           MotorRecomendaciones.__init__
           (Escenario.usuario Escenario.sofia "sofia") 20).
  - apply (bool_decide_unpack _). vm_compute. exact I.
  - vm_compute. reflexivity.
Defined.

(** * The models against the graph *)

Lemma son_amigos_true db a b :
  son_amigos db a b = true ↔
  ∃ am, am ∈ amistades db
        ∧ ((Amistad.usuario1_id am = a ∧ Amistad.usuario2_id am = b)
           ∨ (Amistad.usuario1_id am = b ∧ Amistad.usuario2_id am = a)).
Proof.
  unfold son_amigos.
  destruct (filter _ (amistades db)) as [|am ams] eqn:Hf.
  - split; [done|]. intros (am & Ham & Hcaso).
    assert (am ∈ filter (λ am, (Amistad.usuario1_id am = a
                                ∧ Amistad.usuario2_id am = b)
                               ∨ (Amistad.usuario1_id am = b
                                  ∧ Amistad.usuario2_id am = a))
                   (amistades db)) as Hin
      by (by apply list_elem_of_filter).
    rewrite Hf in Hin. by apply elem_of_nil in Hin.
  - split; [|done]. intros _. exists am.
    assert (am ∈ am :: ams) as Hin by left.
    rewrite <- Hf in Hin. apply list_elem_of_filter in Hin as [? ?]. done.
Qed.

Lemma son_amigos_grafo_construido db a b :
  son_amigos db a b = true ↔ b ∈ dict_get (GrafoSocial.grafo_construido db) a.
Proof. by rewrite son_amigos_true, elem_of_grafo_construido. Qed.

Lemma PerfilUsuario_obtener_amigos_fmap db u :
  PerfilUsuario.obtener_amigos db u
  = (λ am, if decide (Amistad.usuario1_id am = u)
           then Amistad.usuario2_id am else Amistad.usuario1_id am)
    <$> filter (λ am, Amistad.usuario1_id am = u ∨ Amistad.usuario2_id am = u)
          (amistades db).
Proof.
  unfold PerfilUsuario.obtener_amigos. cbv zeta.
  generalize (filter (λ am, Amistad.usuario1_id am = u
                            ∨ Amistad.usuario2_id am = u) (amistades db)).
  intros l.
  assert (∀ acc,
            foldl (λ amigos amistad,
                     if decide (Amistad.usuario1_id amistad = u)
                     then amigos ++ [Amistad.usuario2_id amistad]
                     else amigos ++ [Amistad.usuario1_id amistad]) acc l
            = acc ++ ((λ am, if decide (Amistad.usuario1_id am = u)
                             then Amistad.usuario2_id am
                             else Amistad.usuario1_id am) <$> l)) as Haux.
  { induction l as [|am l IH]; intros acc; simpl.
    - by rewrite app_nil_r.
    - rewrite IH. case_decide; by rewrite <- app_assoc. }
  apply (Haux []).
Qed.

Lemma elem_of_PerfilUsuario_obtener_amigos db u b :
  b ∈ PerfilUsuario.obtener_amigos db u
  ↔ b ∈ dict_get (GrafoSocial.grafo_construido db) u.
Proof.
  rewrite PerfilUsuario_obtener_amigos_fmap, elem_of_grafo_construido,
    list_elem_of_fmap.
  setoid_rewrite list_elem_of_filter. split.
  - intros (am & -> & Hu & Ham). exists am. split; [done|].
    case_decide; [by left|]. right. by destruct Hu.
  - intros (am & Ham & [[H1 H2]|[H1 H2]]); exists am.
    + rewrite decide_True by done. split; [done|]. split; [by left|done].
    + case_decide as Hu1; (split; [|split; [by right|done]]); congruence.
Qed.

Lemma size_list_to_set_le (l : list Z) :
  (size (list_to_set l : gset Z) ≤ length l)%nat.
Proof.
  change (size (list_to_set l : gset Z))
    with (length (elements (list_to_set l : gset Z))).
  apply submseteq_length, NoDup_submseteq; [apply NoDup_elements|].
  intros x. by rewrite elem_of_elements, elem_of_list_to_set.
Qed.

Section ModelosYGrafo.
Context (db : BaseDatos).

(** X18. [Amistad.son_amigos] and the graph agree: two users are friends in
    the table exactly when the second is among the friends that
    [obtener_amigos] gives for the first after [construir_grafo]; and
    [son_amigos] does not depend on the order of its arguments. *)
Theorem son_amigos_grafo self a b :
  ∃ self' amigos,
    GrafoSocial.construir_grafo db self = Some (Retorna tt, self')
    ∧ GrafoSocial.obtener_amigos db a self' = Some (Retorna amigos, self')
    ∧ (son_amigos db a b = true ↔ b ∈ amigos)
    ∧ son_amigos db a b = son_amigos db b a.
Proof.
  eexists _, _. split; [done|]. split; [apply obtener_amigos_corre|].
  simpl. split; [apply son_amigos_grafo_construido|].
  apply eq_true_iff_eq. rewrite !son_amigos_grafo_construido.
  apply grafo_construido_simetrico.
Qed.

(** X19. The friends listed by [PerfilUsuario.obtener_amigos] are the
    friends of the user in the graph; the list may repeat a friend, so the
    count of [contar_amigos] is at least the number of direct friends of
    the graph, and equal to it when the list has no repetition. *)
Theorem perfil_obtener_amigos_grafo self u :
  ∃ self' amigos,
    GrafoSocial.construir_grafo db self = Some (Retorna tt, self')
    ∧ GrafoSocial.obtener_amigos db u self' = Some (Retorna amigos, self')
    ∧ list_to_set (PerfilUsuario.obtener_amigos db u) = amigos
    ∧ len amigos ≤ PerfilUsuario.contar_amigos db u
    ∧ (NoDup (PerfilUsuario.obtener_amigos db u) →
       PerfilUsuario.contar_amigos db u = len amigos).
Proof.
  eexists _, _. split; [done|]. split; [apply obtener_amigos_corre|]. simpl.
  assert (list_to_set (PerfilUsuario.obtener_amigos db u)
          = dict_get (GrafoSocial.grafo_construido db) u) as Heq.
  { apply set_eq. intros b.
    by rewrite elem_of_list_to_set, elem_of_PerfilUsuario_obtener_amigos. }
  split; [done|]. rewrite <- Heq. unfold PerfilUsuario.contar_amigos, len.
  split.
  - pose proof (size_list_to_set_le (PerfilUsuario.obtener_amigos db u)). lia.
  - intros Hnd. by rewrite size_list_to_set.
Qed.

End ModelosYGrafo.

(** * The views that call the engine *)

Section Vistas.
Context (db : BaseDatos).

Lemma dashboard_view_corre request_user :
  ∃ recs est,
    MotorRecomendaciones.obtener_recomendaciones db request_user 5
      MotorRecomendaciones.__init__
    = Some (Retorna recs, motor_construido db)
    ∧ MotorRecomendaciones.obtener_estadisticas_grafo db request_user
        (motor_construido db)
      = Some (Retorna est, motor_construido db)
    ∧ dashboard_view db request_user MotorRecomendaciones.__init__
      = Some (Retorna
                {| Dashboard.num_amigos :=
                     PerfilUsuario.contar_amigos db (User.id request_user);
                   Dashboard.solicitudes_pendientes :=
                     Z.of_nat
                       (length (PerfilUsuario.solicitudes_pendientes_recibidas
                                  db (User.id request_user)));
                   Dashboard.recomendaciones := recs;
                   Dashboard.estadisticas_grafo := est;
                   Dashboard.amigos :=
                     slice_hasta
                       (PerfilUsuario.obtener_amigos db (User.id request_user))
                       6 |},
              motor_construido db).
Proof.
  destruct (obtener_recomendaciones_corre db request_user 5
              MotorRecomendaciones.__init__) as (N & recs & _ & Hrecs & _).
  destruct (obtener_estadisticas_grafo_corre db request_user
              (motor_construido db)) as (N' & _ & Hest).
  eexists _, _. split; [exact Hrecs|]. split; [exact Hest|].
  unfold dashboard_view. cbv zeta.
  rewrite (M_bind_retorna _ _ _ _ _ Hrecs).
  by rewrite (M_bind_retorna _ _ _ _ _ Hest).
Qed.

(** X20. [dashboard_view] always renders: at most 5 recommendations and at
    most 6 friends are shown, the direct friends counted by the statistics
    are at most the friends counted by the profile, and no recommended user
    is the user or one of the friends of the profile. *)
Theorem dashboard_view_contexto request_user :
  ∃ contexto,
    dashboard_view db request_user MotorRecomendaciones.__init__
    = Some (Retorna contexto, motor_construido db)
    ∧ (length (Dashboard.recomendaciones contexto) ≤ 5)%nat
    ∧ (length (Dashboard.amigos contexto) ≤ 6)%nat
    ∧ Estadisticas.amigos_directos (Dashboard.estadisticas_grafo contexto)
      ≤ Dashboard.num_amigos contexto
    ∧ ∀ r, r ∈ Dashboard.recomendaciones contexto →
        User.id (Recomendacion.usuario r) ≠ User.id request_user
        ∧ User.id (Recomendacion.usuario r)
          ∉ PerfilUsuario.obtener_amigos db (User.id request_user).
Proof.
  destruct (dashboard_view_corre request_user)
    as (recs & est & Hrecs & Hest & Hrun).
  eexists. split; [exact Hrun|]. simpl.
  destruct (obtener_recomendaciones_candidatos db
              MotorRecomendaciones.__init__ request_user 5)
    as (recs' & Hrecs' & Hin).
  assert (recs' = recs) as -> by congruence.
  destruct (obtener_recomendaciones_corre db request_user 5
              MotorRecomendaciones.__init__) as (N & recs0 & _ & Hrecs0 & _).
  destruct (obtener_estadisticas_grafo_corre db request_user
              (motor_construido db)) as (N' & _ & Hest').
  split; [|split; [|split]].
  - assert (recs = slice_hasta (ordenar recs0) 5) as -> by congruence.
    pose proof (slice_hasta_length (ordenar recs0) 5). lia.
  - pose proof (slice_hasta_length
                  (PerfilUsuario.obtener_amigos db (User.id request_user)) 6).
    lia.
  - rewrite Hest in Hest'. simplify_eq. simpl.
    unfold PerfilUsuario.contar_amigos, len.
    assert (dict_get (GrafoSocial.grafo_construido db) (User.id request_user)
            = list_to_set
                (PerfilUsuario.obtener_amigos db (User.id request_user)))
      as ->.
    { apply set_eq. intros b.
      by rewrite elem_of_list_to_set, elem_of_PerfilUsuario_obtener_amigos. }
    pose proof (size_list_to_set_le
                  (PerfilUsuario.obtener_amigos db (User.id request_user))).
    lia.
  - intros r Hr. destruct (Hin r Hr) as (_ & Hne & Hamigo). split; [done|].
    by rewrite elem_of_PerfilUsuario_obtener_amigos.
Qed.

(** X21. [recomendaciones_view], whose limit is 20: when fewer than 20
    users are stored and every friendship joins stored users, the page
    lists exactly the stored users that are not the user, not friends of
    the user, and without a pending request from or to the user. *)
Theorem recomendaciones_view_completa request_user :
  let u := User.id request_user in
  Forall (λ am, Amistad.usuario1_id am ∈ todos_usuarios db
                ∧ Amistad.usuario2_id am ∈ todos_usuarios db)
    (amistades db) →
  len (todos_usuarios db) < 20 →
  ∃ contexto,
    recomendaciones_view db request_user MotorRecomendaciones.__init__
    = Some (Retorna contexto, motor_construido db)
    ∧ ∀ c, c ∈ (λ r, User.id (Recomendacion.usuario r))
               <$> Recomendaciones.recomendaciones contexto
           ↔ c ∈ todos_usuarios db ∧ c ≠ u ∧ son_amigos db u c = false
             ∧ (c ∉ solicitudes_enviadas db u)
             ∧ (c ∉ solicitudes_recibidas db u).
Proof.
  intros u Hfk Hlim.
  destruct (recomendaciones_completas db MotorRecomendaciones.__init__
              request_user 20 Hfk Hlim) as (recs & Hrecs & Hcompleta).
  destruct (obtener_estadisticas_grafo_corre db request_user
              (motor_construido db)) as (N' & _ & Hest).
  eexists. split.
  - unfold recomendaciones_view.
    rewrite (M_bind_retorna _ _ _ _ _ Hrecs).
    by rewrite (M_bind_retorna _ _ _ _ _ Hest).
  - simpl. intros c. rewrite Hcompleta.
    rewrite <- son_amigos_grafo_construido. fold u.
    destruct (son_amigos db u c); intuition congruence.
Qed.

End Vistas.

Lemma recomendaciones_view_completa_witness :
  ∃ contexto,
    recomendaciones_view Escenario.db
      (Escenario.usuario Escenario.sofia "sofia") MotorRecomendaciones.__init__
    = Some (Retorna contexto, motor_construido Escenario.db)
    ∧ ∀ c, c ∈ (λ r, User.id (Recomendacion.usuario r))
               <$> Recomendaciones.recomendaciones contexto
           ↔ c ∈ todos_usuarios Escenario.db ∧ c ≠ Escenario.sofia
             ∧ son_amigos Escenario.db Escenario.sofia c = false
             ∧ (c ∉ solicitudes_enviadas Escenario.db Escenario.sofia)
             ∧ (c ∉ solicitudes_recibidas Escenario.db Escenario.sofia).
Proof.
  apply (recomendaciones_view_completa Escenario.db
           (Escenario.usuario Escenario.sofia "sofia")).
  - apply (bool_decide_unpack _). vm_compute. exact I.
  - vm_compute. reflexivity.
Defined.

(** X22. [perfil_view] answers 404 exactly when a username is given that
    no stored user has.  Otherwise it renders; on the user's own profile
    there are no common friends and no friendship; on another profile the
    friendship flag is [Amistad.son_amigos] and the common friends shown
    are exactly the stored users that are friends of both users. *)
Theorem perfil_view_amigos_comun db request_user username :
  ∃ respuesta self',
    perfil_view db request_user username MotorRecomendaciones.__init__
    = Some (Retorna respuesta, self')
    ∧ match respuesta with
      | Http404 =>
          ∃ nombre, username = Some nombre
                    ∧ ∀ u, u ∈ usuarios db → User.username u ≠ nombre
      | Render contexto =>
          let user := Perfil.usuario contexto in
          (username = None → user = request_user)
          ∧ (∀ nombre, username = Some nombre →
               user ∈ usuarios db ∧ User.username user = nombre)
          ∧ (Perfil.es_propio contexto = true ↔
             User.id user = User.id request_user)
          ∧ (Perfil.es_propio contexto = true →
             Perfil.son_amigos contexto = false
             ∧ Perfil.amigos_comun contexto = [])
          ∧ (Perfil.es_propio contexto = false →
             Perfil.son_amigos contexto
             = son_amigos db (User.id request_user) (User.id user)
             ∧ ∀ c, c ∈ Perfil.amigos_comun contexto
                    ↔ c ∈ usuarios db
                      ∧ son_amigos db (User.id request_user) (User.id c)
                        = true
                      ∧ son_amigos db (User.id user) (User.id c) = true)
      end.
Proof.
  unfold perfil_view.
  destruct (match username with
            | Some nombre =>
                snd <$> list_find (λ u, User.username u = nombre) (usuarios db)
            | None => Some request_user
            end) as [user|] eqn:Hbuscar.
  - assert ((username = None → user = request_user)
            ∧ ∀ nombre, username = Some nombre →
                user ∈ usuarios db ∧ User.username user = nombre)
      as [Hnone Hsome].
    { destruct username as [nombre|]; [|by simplify_eq].
      split; [done|]. intros ? [= <-].
      destruct (list_find _ _) as [[i user']|] eqn:Hfind; simplify_eq/=.
      apply list_find_Some in Hfind as (Hi & Hnombre & _).
      split; [by eapply list_elem_of_lookup_2|done]. }
    cbv zeta.
    destruct (bool_decide (User.id user = User.id request_user)) eqn:Hpropio.
    + apply bool_decide_eq_true in Hpropio.
      eexists (Render _), _. split; [reflexivity|]. simpl.
      split; [done|]. split; [done|]. split; [done|]. split; done.
    + apply bool_decide_eq_false in Hpropio.
      rewrite (M_bind_retorna _ _ MotorRecomendaciones.__init__
                 (filter (λ u, User.id u
                               ∈ dict_get (GrafoSocial.grafo_construido db)
                                   (User.id request_user)
                                 ∩ dict_get (GrafoSocial.grafo_construido db)
                                     (User.id user)) (usuarios db))
                 (motor_construido db)).
      * eexists (Render _), _. split; [reflexivity|]. simpl.
        split; [done|]. split; [done|]. split; [done|]. split; [done|].
        intros _. split; [done|]. intros c.
        rewrite list_elem_of_filter, elem_of_intersection,
          !son_amigos_grafo_construido.
        tauto.
      * rewrite (M_bind_retorna _ _ _ _ _
                   (construir_grafo_corre db MotorRecomendaciones.__init__)).
        by rewrite (M_bind_retorna _ _ _ _ _
                      (en_grafo_corre _ (motor_construido db) _ _
                         (amigos_en_comun_corre db _ _ _))).
  - destruct username as [nombre|]; [|done].
    destruct (list_find _ _) as [[i user']|] eqn:Hfind; [done|].
    apply list_find_None in Hfind. eexists Http404, _. split; [reflexivity|].
    exists nombre. split; [done|]. intros u Hu.
    by eapply Forall_forall in Hfind.
Qed.

(** * The views that change requests and friendships *)

(** The routes that the views redirect to: [solicitudes] and
    [lista_amigos] are routes without arguments, and no route named
    [perfil] takes a [username]. *)
Lemma enviar_solicitud_view_eq db request_user user_id :
  enviar_solicitud_view db request_user user_id
  = match User_objects_get db user_id with
    | None => NoEncontrado
    | Some para_usuario =>
        if decide (User.id para_usuario = User.id request_user)
        then SinRuta db
        else if son_amigos db (User.id request_user) (User.id para_usuario)
        then SinRuta db
        else
          match filter
                  (λ s, ((SolicitudAmistad.de_usuario_id s
                          = User.id request_user
                          ∧ SolicitudAmistad.para_usuario_id s
                            = User.id para_usuario)
                         ∨ (SolicitudAmistad.de_usuario_id s
                            = User.id para_usuario
                            ∧ SolicitudAmistad.para_usuario_id s
                              = User.id request_user))
                        ∧ SolicitudAmistad.estado s
                          = SolicitudAmistad.pendiente)
                  (solicitudes db) with
          | _ :: _ => SinRuta db
          | [] =>
              match crear_solicitud db (User.id request_user)
                      (User.id para_usuario) with
              | Some db' => SinRuta db'
              | None => ErrorIntegridad
              end
          end
    end.
Proof. reflexivity. Qed.

Lemma aceptar_solicitud_view_eq db request_user solicitud_id :
  aceptar_solicitud_view db request_user solicitud_id
  = match solicitudes db !! solicitud_id with
    | Some solicitud =>
        if decide (SolicitudAmistad.para_usuario_id solicitud
                   = User.id request_user
                   ∧ SolicitudAmistad.estado solicitud
                     = SolicitudAmistad.pendiente)
        then Redirige (aceptar db solicitud_id solicitud)
        else NoEncontrado
    | None => NoEncontrado
    end.
Proof. reflexivity. Qed.

Lemma rechazar_solicitud_view_eq db request_user solicitud_id :
  rechazar_solicitud_view db request_user solicitud_id
  = match solicitudes db !! solicitud_id with
    | Some solicitud =>
        if decide (SolicitudAmistad.para_usuario_id solicitud
                   = User.id request_user
                   ∧ SolicitudAmistad.estado solicitud
                     = SolicitudAmistad.pendiente)
        then Redirige (rechazar db solicitud_id solicitud)
        else NoEncontrado
    | None => NoEncontrado
    end.
Proof. reflexivity. Qed.

Lemma cancelar_solicitud_view_eq db request_user solicitud_id :
  cancelar_solicitud_view db request_user solicitud_id
  = match solicitudes db !! solicitud_id with
    | Some solicitud =>
        if decide (SolicitudAmistad.de_usuario_id solicitud
                   = User.id request_user
                   ∧ SolicitudAmistad.estado solicitud
                     = SolicitudAmistad.pendiente)
        then Redirige
               (con_solicitudes db (delete solicitud_id (solicitudes db)))
        else NoEncontrado
    | None => NoEncontrado
    end.
Proof. reflexivity. Qed.

Lemma eliminar_amigo_view_eq db request_user user_id :
  eliminar_amigo_view db request_user user_id
  = match User_objects_get db user_id with
    | None => NoEncontrado
    | Some amigo =>
        match list_find
                (λ am, (Amistad.usuario1_id am = User.id request_user
                        ∧ Amistad.usuario2_id am = User.id amigo)
                       ∨ (Amistad.usuario1_id am = User.id amigo
                          ∧ Amistad.usuario2_id am = User.id request_user))
                (amistades db) with
        | Some (i, _) => Redirige (con_amistades db (delete i (amistades db)))
        | None => Redirige db
        end
    end.
Proof. reflexivity. Qed.

Lemma par_eq a b c d :
  par a b = par c d ↔ (a = c ∧ b = d) ∨ (a = d ∧ b = c).
Proof.
  unfold par. split.
  - intros [= H1 H2]. lia.
  - intros [[-> ->]|[-> ->]]; [done|]. f_equal; lia.
Qed.

Lemma son_amigos_false db a b :
  son_amigos db a b = false ↔ par a b ∉ par_de_amistad <$> amistades db.
Proof.
  rewrite <- not_true_iff_false, son_amigos_true, list_elem_of_fmap.
  apply not_iff_compat. split.
  - intros (am & Ham & Hcaso). exists am. split; [|done].
    unfold par_de_amistad. symmetry. apply par_eq. tauto.
  - intros (am & Hpar & Ham). exists am. split; [done|].
    unfold par_de_amistad in Hpar. symmetry in Hpar.
    apply par_eq in Hpar. tauto.
Qed.

Lemma lookup_partir {A} (l : list A) i x :
  l !! i = Some x →
  ∃ l1 l2, l = l1 ++ x :: l2
           ∧ (∀ y, <[i:=y]> l = l1 ++ y :: l2)
           ∧ delete i l = l1 ++ l2.
Proof.
  intros Hi. exists (take i l), (drop (S i) l).
  split; [by rewrite take_drop_middle|].
  split; [|apply delete_take_drop].
  intros y. apply insert_take_drop. by eapply lookup_lt_Some.
Qed.

Lemma Forall_sublist {A} (P : A → Prop) (l1 l2 : list A) :
  l1 `sublist_of` l2 → Forall P l2 → Forall P l1.
Proof.
  intros Hsub. rewrite !Forall_forall. intros H x Hx.
  apply H. by eapply elem_of_sublist.
Qed.

(** Removing friendships and pending requests keeps a database well formed. *)
Lemma bien_formada_menos db db' :
  amistades db' `sublist_of` amistades db →
  pendientes db' `sublist_of` pendientes db →
  bien_formada db → bien_formada db'.
Proof.
  intros Ham Hpe [H1 H2 H3 H4 H5]. split.
  - by eapply Forall_sublist.
  - eapply sublist_NoDup; [exact H2|]. by apply fmap_sublist.
  - by eapply Forall_sublist.
  - eapply Forall_sublist in H4; [|exact Hpe].
    eapply Forall_impl; [exact H4|]. intros s. cbv beta.
    rewrite !son_amigos_false. intros Hno Hin. apply Hno.
    eapply elem_of_sublist; [exact Hin|]. by apply fmap_sublist.
  - eapply sublist_NoDup; [exact H5|]. by apply fmap_sublist.
Qed.

Lemma pendientes_partir db i s :
  solicitudes db !! i = Some s →
  SolicitudAmistad.estado s = SolicitudAmistad.pendiente →
  ∃ A B, pendientes db = A ++ s :: B
         ∧ (∀ s', SolicitudAmistad.estado s' ≠ SolicitudAmistad.pendiente →
                  pendientes (con_solicitudes db (<[i:=s']> (solicitudes db)))
                  = A ++ B)
         ∧ pendientes (con_solicitudes db (delete i (solicitudes db)))
           = A ++ B.
Proof.
  intros Hi Hs. destruct (lookup_partir _ _ _ Hi) as (l1 & l2 & Hl & Hins & Hdel).
  exists (filter (λ s, SolicitudAmistad.estado s = SolicitudAmistad.pendiente) l1),
    (filter (λ s, SolicitudAmistad.estado s = SolicitudAmistad.pendiente) l2).
  unfold pendientes. simpl. split; [|split].
  - rewrite Hl, filter_app, filter_cons, decide_True by done. done.
  - intros s' Hs'. rewrite Hins, filter_app, filter_cons, decide_False by done.
    done.
  - by rewrite Hdel, filter_app.
Qed.

Lemma enviar_solicitud_view_bien_formada db request_user user_id db' :
  bien_formada db →
  enviar_solicitud_view db request_user user_id = SinRuta db' →
  bien_formada db'.
Proof.
  intros Hbf. rewrite enviar_solicitud_view_eq.
  destruct (User_objects_get db user_id) as [para_usuario|]; [|done].
  case_decide as Hmismo; [by intros [= <-]|].
  destruct (son_amigos db _ _) eqn:Hamigos; [by intros [= <-]|].
  destruct (filter _ (solicitudes db)) as [|s0 ss] eqn:Hfiltro;
    [|by intros [= <-]].
  unfold crear_solicitud. case_decide as Hexiste; [done|]. intros [= <-].
  destruct Hbf as [H1 H2 H3 H4 H5].
  assert (pendientes
            (con_solicitudes db
               (solicitudes db ++
                  [{| SolicitudAmistad.de_usuario_id := User.id request_user;
                      SolicitudAmistad.para_usuario_id := User.id para_usuario;
                      SolicitudAmistad.estado := SolicitudAmistad.pendiente |}]))
          = pendientes db ++
              [{| SolicitudAmistad.de_usuario_id := User.id request_user;
                  SolicitudAmistad.para_usuario_id := User.id para_usuario;
                  SolicitudAmistad.estado := SolicitudAmistad.pendiente |}])
    as Hpend.
  { unfold pendientes. simpl. by rewrite filter_app. }
  split; try done.
  - rewrite Hpend. apply Forall_app. split; [done|].
    apply Forall_singleton. simpl. congruence.
  - rewrite Hpend. apply Forall_app. split; [exact H4|].
    apply Forall_singleton. exact Hamigos.
  - rewrite Hpend, fmap_app. apply NoDup_app. split; [done|].
    split; [|apply NoDup_singleton].
    intros p (s & -> & Hs)%list_elem_of_fmap Hp.
    apply list_elem_of_singleton in Hp. unfold par_de_solicitud in Hp.
    simpl in Hp. apply par_eq in Hp.
    apply list_elem_of_filter in Hs as [Hs Hin].
    assert (s ∈ @nil SolicitudAmistad.t) as Hnil;
      [|by apply elem_of_nil in Hnil].
    rewrite <- Hfiltro. apply list_elem_of_filter.
    split; [split; [tauto|done]|done].
Qed.

Lemma rechazar_solicitud_view_bien_formada db request_user i db' :
  bien_formada db →
  rechazar_solicitud_view db request_user i = Redirige db' →
  bien_formada db'.
Proof.
  intros Hbf. rewrite rechazar_solicitud_view_eq.
  destruct (solicitudes db !! i) as [s|] eqn:Hi; [|done].
  case_decide as Hs; [|done]. intros [= <-]. destruct Hs as [_ Hs].
  destruct (pendientes_partir db i s Hi Hs) as (A & B & HAB & Hins & _).
  eapply bien_formada_menos; [| |exact Hbf]; [done|].
  unfold rechazar. rewrite Hins by done. rewrite HAB.
  apply sublist_app; [done|]. by apply sublist_cons.
Qed.

Lemma cancelar_solicitud_view_bien_formada db request_user i db' :
  bien_formada db →
  cancelar_solicitud_view db request_user i = Redirige db' →
  bien_formada db'.
Proof.
  intros Hbf. rewrite cancelar_solicitud_view_eq.
  destruct (solicitudes db !! i) as [s|] eqn:Hi; [|done].
  case_decide as Hs; [|done]. intros [= <-]. destruct Hs as [_ Hs].
  destruct (pendientes_partir db i s Hi Hs) as (A & B & HAB & _ & Hdel).
  eapply bien_formada_menos; [| |exact Hbf]; [done|].
  rewrite Hdel, HAB. apply sublist_app; [done|]. by apply sublist_cons.
Qed.

Lemma eliminar_amigo_view_bien_formada db request_user user_id db' :
  bien_formada db →
  eliminar_amigo_view db request_user user_id = Redirige db' →
  bien_formada db'.
Proof.
  intros Hbf. rewrite eliminar_amigo_view_eq.
  destruct (User_objects_get db user_id) as [amigo|]; [|done].
  destruct (list_find _ _) as [[i am]|]; [|by intros [= <-]].
  intros [= <-]. eapply bien_formada_menos; [| |exact Hbf]; [|done].
  simpl. apply sublist_delete.
Qed.

(** The database after the receiver accepts the pending request at [i]. *)
Lemma aceptar_detalle db i s :
  bien_formada db →
  solicitudes db !! i = Some s →
  SolicitudAmistad.estado s = SolicitudAmistad.pendiente →
  ∃ A B,
    pendientes db = A ++ s :: B
    ∧ pendientes (aceptar db i s) = A ++ B
    ∧ amistades (aceptar db i s)
      = amistades db ++
          [{| Amistad.usuario1_id := SolicitudAmistad.de_usuario_id s;
              Amistad.usuario2_id := SolicitudAmistad.para_usuario_id s |}]
    ∧ usuarios (aceptar db i s) = usuarios db.
Proof.
  intros Hbf Hi Hs.
  destruct (pendientes_partir db i s Hi Hs) as (A & B & HAB & Hins & _).
  exists A, B. split; [done|].
  assert (s ∈ pendientes db) as Hin by (rewrite HAB; set_solver).
  pose proof (bf_pendiente_no_amigos _ Hbf) as Hno.
  rewrite Forall_forall in Hno. specialize (Hno s Hin).
  unfold aceptar, obtener_o_crear_amistad. cbv zeta.
  case_decide as Hexiste.
  - exfalso. apply Exists_exists in Hexiste as (am & Ham & H1 & H2).
    apply not_true_iff_false in Hno. apply Hno, son_amigos_true.
    exists am. split; [done|]. by left.
  - split; [|done]. by apply Hins.
Qed.

Lemma aceptar_solicitud_view_bien_formada db request_user i db' :
  bien_formada db →
  aceptar_solicitud_view db request_user i = Redirige db' →
  bien_formada db'.
Proof.
  intros Hbf. rewrite aceptar_solicitud_view_eq.
  destruct (solicitudes db !! i) as [s|] eqn:Hi; [|done].
  case_decide as Hs; [|done]. intros [= <-]. destruct Hs as [_ Hs].
  destruct (aceptar_detalle db i s Hbf Hi Hs) as (A & B & HAB & Hpend & Ham & _).
  destruct Hbf as [H1 H2 H3 H4 H5]. rewrite HAB in H3, H4, H5.
  apply Forall_app in H3 as [H3A H3B]. apply Forall_cons in H3B as [H3s H3B].
  apply Forall_app in H4 as [H4A H4B]. apply Forall_cons in H4B as [H4s H4B].
  rewrite fmap_app, fmap_cons in H5.
  apply NoDup_app in H5 as (H5A & H5AB & H5B).
  apply NoDup_cons in H5B as [H5s H5B].
  apply son_amigos_false in H4s.
  split.
  - rewrite Ham. apply Forall_app. split; [done|]. by apply Forall_singleton.
  - rewrite Ham, fmap_app. apply NoDup_app. split; [done|].
    split; [|apply NoDup_singleton].
    intros p Hp ->%list_elem_of_singleton. done.
  - rewrite Hpend. apply Forall_app. done.
  - rewrite Hpend. apply Forall_forall. intros x Hx.
    apply son_amigos_false. rewrite Ham, fmap_app, elem_of_app.
    intros [Hviejo|Hnuevo%list_elem_of_singleton].
    + assert (son_amigos db (SolicitudAmistad.de_usuario_id x)
                (SolicitudAmistad.para_usuario_id x) = false) as Hx'.
      { apply elem_of_app in Hx as [Hx|Hx].
        - by eapply Forall_forall in H4A.
        - by eapply Forall_forall in H4B. }
      by apply son_amigos_false in Hx'.
    + change (par_de_solicitud x = par_de_solicitud s) in Hnuevo.
      apply elem_of_app in Hx as [Hx|Hx].
      * apply (H5AB (par_de_solicitud x)).
        -- by apply list_elem_of_fmap_2.
        -- rewrite Hnuevo. left.
      * apply H5s. rewrite <- Hnuevo. by apply list_elem_of_fmap_2.
  - rewrite Hpend, fmap_app. apply NoDup_app. split; [done|]. split; [|done].
    intros p Hp Hp'. apply (H5AB p Hp). by right.
Qed.

Lemma son_amigos_par db a b :
  son_amigos db a b = true ↔ par a b ∈ par_de_amistad <$> amistades db.
Proof.
  destruct (son_amigos db a b) eqn:H.
  - split; [intros _|done]. apply dec_stable. intros Hno.
    apply son_amigos_false in Hno. congruence.
  - split; [done|]. intros Hin. by apply son_amigos_false in H.
Qed.

Lemma elem_of_pendientes db s :
  s ∈ pendientes db
  ↔ SolicitudAmistad.estado s = SolicitudAmistad.pendiente ∧ s ∈ solicitudes db.
Proof. unfold pendientes. by rewrite list_elem_of_filter. Qed.

(** After a pending request is answered or cancelled no pending request
    joins its two users. *)
Lemma pendientes_sin_par db s A B x :
  bien_formada db →
  pendientes db = A ++ s :: B →
  x ∈ A ++ B → par_de_solicitud x ≠ par_de_solicitud s.
Proof.
  intros Hbf HAB Hx Hpar. pose proof (bf_pendiente_unica _ Hbf) as Hnd.
  rewrite HAB, fmap_app, fmap_cons in Hnd.
  apply NoDup_app in Hnd as (_ & HnAB & HnB).
  apply NoDup_cons in HnB as [Hs _].
  apply elem_of_app in Hx as [Hx|Hx].
  - apply (HnAB (par_de_solicitud x)); [by apply list_elem_of_fmap_2|].
    rewrite Hpar. left.
  - apply Hs. rewrite <- Hpar. by apply list_elem_of_fmap_2.
Qed.

(** X23. In a well-formed database [aceptar_solicitud_view] answers 404
    unless the row is a pending request received by the user; otherwise
    the sender and the user are friends afterwards, no pending request is
    left between them in either direction, and the friendship of every other
    pair is as before. *)
Theorem aceptar_solicitud_view_amistad db request_user solicitud_id :
  bien_formada db →
  match aceptar_solicitud_view db request_user solicitud_id with
  | Redirige db' =>
      ∃ s, solicitudes db !! solicitud_id = Some s
           ∧ SolicitudAmistad.para_usuario_id s = User.id request_user
           ∧ SolicitudAmistad.estado s = SolicitudAmistad.pendiente
           ∧ son_amigos db' (SolicitudAmistad.de_usuario_id s)
               (User.id request_user) = true
           ∧ (SolicitudAmistad.de_usuario_id s
              ∉ solicitudes_recibidas db' (User.id request_user))
           ∧ (SolicitudAmistad.de_usuario_id s
              ∉ solicitudes_enviadas db' (User.id request_user))
           ∧ (∀ a b, par a b ≠ par (SolicitudAmistad.de_usuario_id s)
                               (User.id request_user) →
                     son_amigos db' a b = son_amigos db a b)
  | NoEncontrado =>
      ∀ s, solicitudes db !! solicitud_id = Some s →
           ¬ (SolicitudAmistad.para_usuario_id s = User.id request_user
              ∧ SolicitudAmistad.estado s = SolicitudAmistad.pendiente)
  | ErrorIntegridad | SinRuta _ => False
  end.
Proof.
  intros Hbf. rewrite aceptar_solicitud_view_eq.
  destruct (solicitudes db !! solicitud_id) as [s|] eqn:Hi; [|done].
  case_decide as Hs; [|by intros s' [= <-]]. destruct Hs as [Hpara Hs].
  destruct (aceptar_detalle db _ s Hbf Hi Hs)
    as (A & B & HAB & Hpend & Ham & _).
  exists s. split; [done|]. split; [done|]. split; [done|].
  rewrite <- Hpara.
  assert (∀ x, x ∈ solicitudes (aceptar db solicitud_id s) →
               SolicitudAmistad.estado x = SolicitudAmistad.pendiente →
               par_de_solicitud x ≠ par_de_solicitud s) as Hotros.
  { intros x Hx Hpx. eapply pendientes_sin_par; [done..|].
    rewrite <- Hpend. by apply elem_of_pendientes. }
  split; [|split; [|split]].
  - apply son_amigos_par. rewrite Ham, fmap_app, elem_of_app. right.
    apply list_elem_of_singleton. done.
  - unfold solicitudes_recibidas. rewrite elem_of_list_to_set.
    intros (x & Hde & [[Hp Hpx] Hx]%list_elem_of_filter)%list_elem_of_fmap.
    apply (Hotros x Hx Hpx). unfold par_de_solicitud. congruence.
  - unfold solicitudes_enviadas. rewrite elem_of_list_to_set.
    intros (x & Hde & [[Hp Hpx] Hx]%list_elem_of_filter)%list_elem_of_fmap.
    apply (Hotros x Hx Hpx). unfold par_de_solicitud. apply par_eq. right.
    split; congruence.
  - intros a b Hab. apply eq_true_iff_eq.
    rewrite !son_amigos_par, Ham, fmap_app, elem_of_app.
    split; [|tauto]. by intros [?|Heq%list_elem_of_singleton].
Qed.

Lemma aceptar_solicitud_view_amistad_witness :
  match aceptar_solicitud_view Peticiones.db
          (Escenario.usuario Escenario.ana "ana") 0 with
  | Redirige db' =>
      ∃ s, solicitudes Peticiones.db !! 0%nat = Some s
           ∧ SolicitudAmistad.para_usuario_id s = Escenario.ana
           ∧ SolicitudAmistad.estado s = SolicitudAmistad.pendiente
           ∧ son_amigos db' (SolicitudAmistad.de_usuario_id s)
               Escenario.ana = true
           ∧ (SolicitudAmistad.de_usuario_id s
              ∉ solicitudes_recibidas db' Escenario.ana)
           ∧ (SolicitudAmistad.de_usuario_id s
              ∉ solicitudes_enviadas db' Escenario.ana)
           ∧ (∀ a b, par a b ≠ par (SolicitudAmistad.de_usuario_id s)
                               Escenario.ana →
                     son_amigos db' a b = son_amigos Peticiones.db a b)
  | NoEncontrado =>
      ∀ s, solicitudes Peticiones.db !! 0%nat = Some s →
           ¬ (SolicitudAmistad.para_usuario_id s = Escenario.ana
              ∧ SolicitudAmistad.estado s = SolicitudAmistad.pendiente)
  | ErrorIntegridad | SinRuta _ => False
  end.
Proof.
  apply (aceptar_solicitud_view_amistad Peticiones.db
           (Escenario.usuario Escenario.ana "ana") 0).
  split; apply (bool_decide_unpack _); vm_compute; exact I.
Defined.

Lemma User_objects_get_id db x :
  x ∈ todos_usuarios db →
  ∃ u, User_objects_get db x = Some u ∧ User.id u = x.
Proof.
  intros [u Hu]%User_objects_get_is_Some. exists u. split; [done|].
  by apply User_objects_get_Some in Hu as [? _].
Qed.

(** X24. After the receiver rejects a request in a well-formed database,
    [enviar_solicitud_view] of the same sender to the same receiver ends in
    the [IntegrityError] of the unique pair, before it reaches its
    [redirect]: the rejected row is still in the table and the view only
    looks for pending ones. *)
Theorem solicitud_rechazada_no_se_repite db receptor solicitud_id db' s emisor :
  bien_formada db →
  User.id receptor ∈ todos_usuarios db →
  solicitudes db !! solicitud_id = Some s →
  User.id emisor = SolicitudAmistad.de_usuario_id s →
  rechazar_solicitud_view db receptor solicitud_id = Redirige db' →
  enviar_solicitud_view db' emisor (User.id receptor) = ErrorIntegridad.
Proof.
  intros Hbf Hreceptor Hi Hemisor. rewrite rechazar_solicitud_view_eq.
  rewrite Hi. case_decide as Hs; [|done]. intros [= <-].
  destruct Hs as [Hpara Hs].
  destruct (pendientes_partir db _ s Hi Hs) as (A & B & HAB & Hins & _).
  assert (s ∈ pendientes db) as Hin by (rewrite HAB; set_solver).
  pose proof (bf_pendiente_distinta _ Hbf) as Hdist.
  rewrite Forall_forall in Hdist. specialize (Hdist s Hin).
  pose proof (bf_pendiente_no_amigos _ Hbf) as Hno.
  rewrite Forall_forall in Hno. specialize (Hno s Hin).
  destruct (User_objects_get_id db _ Hreceptor) as (para & Hget & Hid).
  rewrite enviar_solicitud_view_eq.
  change (User_objects_get (rechazar db solicitud_id s) (User.id receptor))
    with (User_objects_get db (User.id receptor)).
  rewrite Hget, Hid. rewrite decide_False by congruence.
  change (son_amigos (rechazar db solicitud_id s) (User.id emisor)
            (User.id receptor))
    with (son_amigos db (User.id emisor) (User.id receptor)).
  rewrite Hemisor, <- Hpara, Hno.
  destruct (filter _ (solicitudes (rechazar db solicitud_id s)))
    as [|x xs] eqn:Hfiltro.
  - unfold crear_solicitud. rewrite decide_True; [done|].
    apply Exists_exists. eexists. split.
    + unfold rechazar. simpl. apply list_elem_of_lookup. exists solicitud_id.
      apply list_lookup_insert_eq. by eapply lookup_lt_Some.
    + done.
  - exfalso. assert (x ∈ x :: xs) as Hx by left. rewrite <- Hfiltro in Hx.
    apply list_elem_of_filter in Hx as [[Hpar Hpx] Hx].
    eapply (pendientes_sin_par db s A B x); [done..| |].
    + rewrite <- (Hins {| SolicitudAmistad.de_usuario_id :=
                            SolicitudAmistad.de_usuario_id s;
                          SolicitudAmistad.para_usuario_id :=
                            SolicitudAmistad.para_usuario_id s;
                          SolicitudAmistad.estado :=
                            SolicitudAmistad.rechazada |}) by done.
      apply elem_of_pendientes. split; [done|exact Hx].
    + unfold par_de_solicitud. apply par_eq. tauto.
Qed.

Lemma solicitud_rechazada_no_se_repite_witness :
  enviar_solicitud_view
    (rechazar Peticiones.db 0
       (Peticiones.solicitud Escenario.juan Escenario.ana
          SolicitudAmistad.pendiente))
    (Escenario.usuario Escenario.juan "juan")
    (User.id (Escenario.usuario Escenario.ana "ana"))
  = ErrorIntegridad.
Proof.
  apply (solicitud_rechazada_no_se_repite Peticiones.db
           (Escenario.usuario Escenario.ana "ana") 0 _
           (Peticiones.solicitud Escenario.juan Escenario.ana
              SolicitudAmistad.pendiente)).
  - split; apply (bool_decide_unpack _); vm_compute; exact I.
  - vm_compute. reflexivity.
  - reflexivity.
  - reflexivity.
  - reflexivity.
Defined.

(** X25. In a well-formed database [eliminar_amigo_view] answers 404 exactly
    for an identifier that is not stored; otherwise the user and that
    identifier are not friends afterwards, the friendship of every other
    pair is as before, and users and requests are untouched. *)
Theorem eliminar_amigo_view_amistad db request_user user_id :
  bien_formada db →
  match eliminar_amigo_view db request_user user_id with
  | Redirige db' =>
      user_id ∈ todos_usuarios db
      ∧ son_amigos db' (User.id request_user) user_id = false
      ∧ (∀ a b, par a b ≠ par (User.id request_user) user_id →
                son_amigos db' a b = son_amigos db a b)
      ∧ solicitudes db' = solicitudes db
      ∧ usuarios db' = usuarios db
  | NoEncontrado => user_id ∉ todos_usuarios db
  | ErrorIntegridad | SinRuta _ => False
  end.
Proof.
  intros Hbf. rewrite eliminar_amigo_view_eq.
  destruct (User_objects_get db user_id) as [amigo|] eqn:Hget.
  2:{ rewrite <- User_objects_get_is_Some, Hget. by intros [? ?]. }
  assert (user_id ∈ todos_usuarios db) as Hen
    by (apply User_objects_get_is_Some; by eexists).
  apply User_objects_get_Some in Hget as [Hid _]. rewrite Hid.
  destruct (list_find _ _) as [[i am]|] eqn:Hfind.
  - apply list_find_Some in Hfind as (Hi & Ham & _).
    destruct (lookup_partir _ _ _ Hi) as (l1 & l2 & Hl & _ & Hdel).
    assert (par_de_amistad am = par (User.id request_user) user_id) as Hpar.
    { unfold par_de_amistad. apply par_eq. tauto. }
    pose proof (bf_amistad_unica _ Hbf) as Hnd.
    rewrite Hl, fmap_app, fmap_cons in Hnd.
    apply NoDup_app in Hnd as (_ & Hn12 & Hn2).
    apply NoDup_cons in Hn2 as [Hn2 _].
    split; [done|]. split; [|split; [|done]].
    + apply son_amigos_false. simpl. rewrite Hdel, fmap_app, elem_of_app.
      rewrite <- Hpar. intros [H1|H2]; [|done].
      apply (Hn12 _ H1). left.
    + intros a b Hab. apply eq_true_iff_eq. rewrite !son_amigos_par. simpl.
      rewrite Hdel, Hl, !fmap_app, fmap_cons, !elem_of_app, elem_of_cons.
      rewrite Hpar. tauto.
  - split; [done|]. split; [|done].
    apply list_find_None in Hfind. rewrite <- not_true_iff_false.
    intros (am & Ham & Hcaso)%son_amigos_true.
    rewrite Forall_forall in Hfind. by apply (Hfind am Ham).
Qed.

Lemma eliminar_amigo_view_amistad_witness :
  match eliminar_amigo_view Peticiones.db
          (Escenario.usuario Escenario.juan "juan") Escenario.maria with
  | Redirige db' =>
      Escenario.maria ∈ todos_usuarios Peticiones.db
      ∧ son_amigos db' Escenario.juan Escenario.maria = false
      ∧ (∀ a b, par a b ≠ par Escenario.juan Escenario.maria →
                son_amigos db' a b = son_amigos Peticiones.db a b)
      ∧ solicitudes db' = solicitudes Peticiones.db
      ∧ usuarios db' = usuarios Peticiones.db
  | NoEncontrado => Escenario.maria ∉ todos_usuarios Peticiones.db
  | ErrorIntegridad | SinRuta _ => False
  end.
Proof.
  apply (eliminar_amigo_view_amistad Peticiones.db
           (Escenario.usuario Escenario.juan "juan") Escenario.maria).
  split; apply (bool_decide_unpack _); vm_compute; exact I.
Defined.

Lemma con_solicitudes_mismas db : con_solicitudes db (solicitudes db) = db.
Proof. by destruct db. Qed.

(** X26. When [enviar_solicitud_view] stores a request (it then ends in the
    [NoReverseMatch] of its [redirect]), the row is the last of the table;
    the sender can cancel it, which gives back the database from before,
    and cannot accept it; the receiver cannot cancel it and can accept it,
    after which the two are friends, or reject it, which leaves the
    friendships alone; in both cases the pending requests are those from
    before. *)
Theorem enviar_y_responder db emisor receptor db1 :
  enviar_solicitud_view db emisor (User.id receptor) = SinRuta db1 →
  solicitudes db1 ≠ solicitudes db →
  let solicitud_id := length (solicitudes db) in
  cancelar_solicitud_view db1 emisor solicitud_id = Redirige db
  ∧ cancelar_solicitud_view db1 receptor solicitud_id = NoEncontrado
  ∧ aceptar_solicitud_view db1 emisor solicitud_id = NoEncontrado
  ∧ (∃ db2, aceptar_solicitud_view db1 receptor solicitud_id = Redirige db2
            ∧ son_amigos db2 (User.id emisor) (User.id receptor) = true
            ∧ pendientes db2 = pendientes db)
  ∧ (∃ db2, rechazar_solicitud_view db1 receptor solicitud_id = Redirige db2
            ∧ amistades db2 = amistades db
            ∧ pendientes db2 = pendientes db).
Proof.
  rewrite enviar_solicitud_view_eq.
  destruct (User_objects_get db (User.id receptor)) as [para|] eqn:Hget;
    [|done].
  apply User_objects_get_Some in Hget as [Hid _]. rewrite Hid.
  case_decide as Hmismo; [by intros [= <-]|].
  destruct (son_amigos db _ _); [by intros [= <-]|].
  destruct (filter _ (solicitudes db)); [|by intros [= <-]].
  unfold crear_solicitud. case_decide; [done|]. intros [= <-] _. cbv zeta.
  rewrite !cancelar_solicitud_view_eq, !aceptar_solicitud_view_eq,
    !rechazar_solicitud_view_eq. simpl.
  rewrite list_lookup_middle by done. simpl.
  rewrite (decide_True (P := User.id emisor = User.id emisor ∧ _)) by done.
  rewrite (decide_False (P := User.id emisor = User.id receptor ∧ _))
    by (intros [? _]; congruence).
  rewrite (decide_False (P := User.id receptor = User.id emisor ∧ _))
    by (intros [? _]; congruence).
  rewrite (decide_True (P := User.id receptor = User.id receptor ∧ _)) by done.
  split; [|split; [done|split; [done|split]]].
  - rewrite delete_middle, app_nil_r. by destruct db.
  - eexists. split; [done|].
    unfold aceptar. cbv zeta. simpl.
    rewrite insert_app_r_alt, Nat.sub_diag by lia. simpl. split.
    + apply son_amigos_true. unfold obtener_o_crear_amistad.
      case_decide as Hexiste.
      * apply Exists_exists in Hexiste as (am & Ham & H1 & H2).
        exists am. split; [exact Ham|]. by left.
      * eexists. split; [simpl; apply elem_of_app; right; left|]. by left.
    + unfold obtener_o_crear_amistad, pendientes.
      case_decide; simpl; by rewrite filter_app, app_nil_r.
  - rewrite decide_True by done.
    eexists. split; [reflexivity|]. split; [reflexivity|].
    unfold rechazar, pendientes. simpl.
    rewrite insert_app_r_alt, Nat.sub_diag by lia. simpl.
    by rewrite filter_app, app_nil_r.
Qed.

Lemma enviar_y_responder_witness :
  let db1 :=
    con_solicitudes Peticiones.db
      (solicitudes Peticiones.db ++
         [Peticiones.solicitud Escenario.sofia Escenario.lucia
            SolicitudAmistad.pendiente]) in
  let solicitud_id := length (solicitudes Peticiones.db) in
  cancelar_solicitud_view db1 (Escenario.usuario Escenario.sofia "sofia")
    solicitud_id = Redirige Peticiones.db
  ∧ cancelar_solicitud_view db1 (Escenario.usuario Escenario.lucia "lucia")
      solicitud_id = NoEncontrado
  ∧ aceptar_solicitud_view db1 (Escenario.usuario Escenario.sofia "sofia")
      solicitud_id = NoEncontrado
  ∧ (∃ db2, aceptar_solicitud_view db1
              (Escenario.usuario Escenario.lucia "lucia") solicitud_id
            = Redirige db2
            ∧ son_amigos db2 Escenario.sofia Escenario.lucia = true
            ∧ pendientes db2 = pendientes Peticiones.db)
  ∧ (∃ db2, rechazar_solicitud_view db1
              (Escenario.usuario Escenario.lucia "lucia") solicitud_id
            = Redirige db2
            ∧ amistades db2 = amistades Peticiones.db
            ∧ pendientes db2 = pendientes Peticiones.db).
Proof.
  apply (enviar_y_responder Peticiones.db
           (Escenario.usuario Escenario.sofia "sofia")
           (Escenario.usuario Escenario.lucia "lucia")).
  - vm_compute. reflexivity.
  - vm_compute. discriminate.
Defined.

Lemma NoDup_fmap_iguales {A B} (f : A → B) (l : list A) x y :
  NoDup (f <$> l) → x ∈ l → y ∈ l → f x = f y → x = y.
Proof.
  induction l as [|a l IH]; [by intros _ ?%elem_of_nil|].
  rewrite fmap_cons, NoDup_cons. intros [Ha Hnd].
  intros [->|Hx]%elem_of_cons [->|Hy]%elem_of_cons Hf.
  - done.
  - exfalso. apply Ha. rewrite Hf. by apply list_elem_of_fmap_2.
  - exfalso. apply Ha. rewrite <- Hf. by apply list_elem_of_fmap_2.
  - by apply IH.
Qed.

Lemma bien_formada_obtener_amigos_NoDup db u :
  bien_formada db → NoDup (PerfilUsuario.obtener_amigos db u).
Proof.
  intros Hbf. rewrite PerfilUsuario_obtener_amigos_fmap.
  pose proof (bf_amistad_unica _ Hbf) as Hnd.
  apply NoDup_fmap_2_strong.
  - intros x y [Hx Hxin]%list_elem_of_filter [Hy Hyin]%list_elem_of_filter Hf.
    apply (NoDup_fmap_iguales par_de_amistad (amistades db)); [done..|].
    unfold par_de_amistad. apply par_eq.
    repeat case_decide; destruct Hx, Hy; intuition congruence.
  - apply NoDup_filter. by eapply NoDup_fmap_1.
Qed.

(** X27. In a well-formed database [PerfilUsuario.contar_amigos] is the
    number of direct friends of the user in the graph, the user is not one
    of them, and each of them is a friend by [Amistad.son_amigos]. *)
Theorem bien_formada_contar_amigos db self u :
  bien_formada db →
  ∃ self' amigos,
    GrafoSocial.construir_grafo db self = Some (Retorna tt, self')
    ∧ GrafoSocial.obtener_amigos db u self' = Some (Retorna amigos, self')
    ∧ PerfilUsuario.contar_amigos db u = len amigos
    ∧ (u ∉ amigos)
    ∧ (∀ x, x ∈ amigos → son_amigos db u x = true).
Proof.
  intros Hbf. eexists _, _. split; [done|].
  split; [apply obtener_amigos_corre|]. simpl. split; [|split].
  - assert (list_to_set (PerfilUsuario.obtener_amigos db u)
            = dict_get (GrafoSocial.grafo_construido db) u) as <-.
    { apply set_eq. intros b.
      by rewrite elem_of_list_to_set, elem_of_PerfilUsuario_obtener_amigos. }
    unfold PerfilUsuario.contar_amigos, len.
    rewrite size_list_to_set; [done|].
    by apply bien_formada_obtener_amigos_NoDup.
  - apply grafo_construido_sin_lazos, Hbf.
  - intros x Hx. by apply son_amigos_grafo_construido.
Qed.

Lemma bien_formada_contar_amigos_witness :
  ∃ self' amigos,
    GrafoSocial.construir_grafo Peticiones.db GrafoSocial.__init__
    = Some (Retorna tt, self')
    ∧ GrafoSocial.obtener_amigos Peticiones.db Escenario.maria self'
      = Some (Retorna amigos, self')
    ∧ PerfilUsuario.contar_amigos Peticiones.db Escenario.maria = len amigos
    ∧ (Escenario.maria ∉ amigos)
    ∧ (∀ x, x ∈ amigos → son_amigos Peticiones.db Escenario.maria x = true).
Proof.
  apply (bien_formada_contar_amigos Peticiones.db GrafoSocial.__init__
           Escenario.maria).
  split; apply (bool_decide_unpack _); vm_compute; exact I.
Defined.

(** X28. The five views that change requests and friendships keep the
    database well formed: whenever one of them runs to its [redirect] from
    a well-formed database (four of them redirect, [enviar_solicitud_view]
    ends in the [NoReverseMatch] of its [redirect]), the database it leaves
    is well formed. *)
Theorem vistas_conservan_bien_formada db request_user :
  bien_formada db →
  (∀ user_id db',
      enviar_solicitud_view db request_user user_id = SinRuta db' →
      bien_formada db')
  ∧ (∀ solicitud_id db',
        aceptar_solicitud_view db request_user solicitud_id = Redirige db' →
        bien_formada db')
  ∧ (∀ solicitud_id db',
        rechazar_solicitud_view db request_user solicitud_id = Redirige db' →
        bien_formada db')
  ∧ (∀ solicitud_id db',
        cancelar_solicitud_view db request_user solicitud_id = Redirige db' →
        bien_formada db')
  ∧ (∀ user_id db',
        eliminar_amigo_view db request_user user_id = Redirige db' →
        bien_formada db').
Proof.
  intros Hbf. split; [|split; [|split; [|split]]]; intros x db'.
  - by apply enviar_solicitud_view_bien_formada.
  - by apply aceptar_solicitud_view_bien_formada.
  - by apply rechazar_solicitud_view_bien_formada.
  - by apply cancelar_solicitud_view_bien_formada.
  - by apply eliminar_amigo_view_bien_formada.
Qed.

Lemma vistas_conservan_bien_formada_witness :
  (∀ user_id db',
      enviar_solicitud_view Peticiones.db
        (Escenario.usuario Escenario.ana "ana") user_id = SinRuta db' →
      bien_formada db')
  ∧ (∀ solicitud_id db',
        aceptar_solicitud_view Peticiones.db
          (Escenario.usuario Escenario.ana "ana") solicitud_id
        = Redirige db' →
        bien_formada db')
  ∧ (∀ solicitud_id db',
        rechazar_solicitud_view Peticiones.db
          (Escenario.usuario Escenario.ana "ana") solicitud_id
        = Redirige db' →
        bien_formada db')
  ∧ (∀ solicitud_id db',
        cancelar_solicitud_view Peticiones.db
          (Escenario.usuario Escenario.ana "ana") solicitud_id
        = Redirige db' →
        bien_formada db')
  ∧ (∀ user_id db',
        eliminar_amigo_view Peticiones.db
          (Escenario.usuario Escenario.ana "ana") user_id = Redirige db' →
        bien_formada db').
Proof.
  apply (vistas_conservan_bien_formada Peticiones.db
           (Escenario.usuario Escenario.ana "ana")).
  split; apply (bool_decide_unpack _); vm_compute; exact I.
Defined.

(** X29. After [construir_grafo] the keys of the graph are the stored users
    and the ends of the stored friendships; a stored user with no
    friendship is a key with an empty set; and every neighbour is a key. *)
Theorem construir_grafo_nodos db self :
  ∃ self',
    GrafoSocial.construir_grafo db self = Some (Retorna tt, self')
    ∧ GrafoSocial._construido self' = true
    ∧ (∀ k, is_Some (GrafoSocial.grafo self' !! k)
            ↔ k ∈ todos_usuarios db
              ∨ ∃ am, am ∈ amistades db
                      ∧ (Amistad.usuario1_id am = k
                         ∨ Amistad.usuario2_id am = k))
    ∧ (∀ k, k ∈ todos_usuarios db →
            (∀ am, am ∈ amistades db →
                   Amistad.usuario1_id am ≠ k ∧ Amistad.usuario2_id am ≠ k) →
            GrafoSocial.grafo self' !! k = Some ∅)
    ∧ (∀ a b, b ∈ dict_get (GrafoSocial.grafo self') a →
              is_Some (GrafoSocial.grafo self' !! b)).
Proof.
  eexists. split; [reflexivity|]. simpl. split; [done|].
  assert (∀ k, is_Some (GrafoSocial.grafo_construido db !! k)
               ↔ k ∈ todos_usuarios db
                 ∨ ∃ am, am ∈ amistades db
                         ∧ (Amistad.usuario1_id am = k
                            ∨ Amistad.usuario2_id am = k)) as Hclaves.
  { intros k. rewrite <- elem_of_dom, dom_grafo_construido, !elem_of_union,
      !elem_of_list_to_set, !list_elem_of_fmap. split.
    - intros [[?|(am & -> & Ham)]|(am & -> & Ham)]; [by left|right..];
        exists am; tauto.
    - intros [?|(am & Ham & [<-|<-])]; [tauto| |].
      + left. right. by exists am.
      + right. by exists am. }
  split; [exact Hclaves|]. split.
  - intros k Hk Hsolo. assert (is_Some (GrafoSocial.grafo_construido db !! k))
      as [s Hs] by (apply Hclaves; by left).
    rewrite Hs. f_equal. apply set_eq. intros b. split; [|set_solver].
    intros Hb. exfalso.
    assert (b ∈ dict_get (GrafoSocial.grafo_construido db) k) as Hb'
      by (unfold dict_get; by rewrite Hs).
    apply elem_of_grafo_construido in Hb' as (am & Ham & Hcaso).
    destruct (Hsolo am Ham). tauto.
  - intros a b Hb. apply elem_of_dom. by eapply grafo_construido_cerrado.
Qed.

(** * The script of test data *)

Lemma User_objects_get_username_usuarios db db' nombre :
  usuarios db' = usuarios db →
  User_objects_get_username db' nombre = User_objects_get_username db nombre.
Proof. unfold User_objects_get_username. by intros ->. Qed.

Lemma son_amigos_mas db db' a b :
  (∀ am, am ∈ amistades db → am ∈ amistades db') →
  son_amigos db a b = true → son_amigos db' a b = true.
Proof.
  intros Hsub. rewrite !son_amigos_true. intros (am & Ham & Hcaso).
  exists am. split; [by apply Hsub|done].
Qed.

(** The pairs of [amistades] whose two users are stored and are friends. *)
Lemma crear_amistades_desde_detalle pares db :
  match crear_amistades_desde pares db with
  | Termina db' =>
      usuarios db' = usuarios db
      ∧ solicitudes db' = solicitudes db
      ∧ (∀ am, am ∈ amistades db → am ∈ amistades db')
      ∧ Forall (λ '(user1_name, user2_name),
                  ∃ user1 user2,
                    User_objects_get_username db user1_name = Some user1
                    ∧ User_objects_get_username db user2_name = Some user2
                    ∧ son_amigos db' (User.id user1) (User.id user2) = true)
          pares
  | UsuarioNoExiste =>
      Exists (λ '(user1_name, user2_name),
                User_objects_get_username db user1_name = None
                ∨ User_objects_get_username db user2_name = None) pares
  | AmistadRepetida => False
  end.
Proof.
  revert db. induction pares as [|[n1 n2] resto IH]; intros db.
  - simpl. done.
  - simpl.
    destruct (User_objects_get_username db n1) as [user1|] eqn:H1;
      [|apply Exists_cons_hd; by left].
    destruct (User_objects_get_username db n2) as [user2|] eqn:H2;
      [|apply Exists_cons_hd; by right].
    destruct (son_amigos db (User.id user1) (User.id user2)) eqn:Hamigos.
    + specialize (IH db).
      destruct (crear_amistades_desde resto db) as [db'| |]; [| |done].
      * destruct IH as (Hu & Hs & Ham & Hpares).
        split; [done|]. split; [done|]. split; [done|].
        apply Forall_cons. split; [|done].
        exists user1, user2. split; [done|]. split; [done|].
        by eapply son_amigos_mas.
      * by apply Exists_cons_tl.
    + unfold crear_amistad. case_decide as Hexiste.
      { apply not_true_iff_false in Hamigos. apply Hamigos, son_amigos_true.
        apply Exists_exists in Hexiste as (am & Ham & ? & ?).
        exists am. split; [done|]. by left. }
      match goal with
      | |- context [crear_amistades_desde resto ?d] =>
          specialize (IH d); set (db1 := d) in *
      end.
      assert (∀ nombre, User_objects_get_username db1 nombre
                        = User_objects_get_username db nombre) as Hnombre
        by (intros; by apply User_objects_get_username_usuarios).
      destruct (crear_amistades_desde resto db1) as [db'| |]; [| |done].
      * destruct IH as (Hu & Hs & Ham & Hpares).
        split; [done|]. split; [done|]. split.
        { intros am Hin. apply Ham. simpl. apply elem_of_app. by left. }
        apply Forall_cons. split.
        -- exists user1, user2. split; [done|]. split; [done|].
           apply son_amigos_true. eexists. split.
           ++ apply Ham. simpl. apply elem_of_app. right. left.
           ++ by left.
        -- eapply Forall_impl; [exact Hpares|]. intros [m1 m2].
           by rewrite !Hnombre.
      * apply Exists_cons_tl. eapply Exists_impl; [exact IH|].
        intros [m1 m2]. by rewrite !Hnombre.
Qed.

Lemma crear_amistades_desde_estable pares db :
  Forall (λ '(user1_name, user2_name),
            ∃ user1 user2,
              User_objects_get_username db user1_name = Some user1
              ∧ User_objects_get_username db user2_name = Some user2
              ∧ son_amigos db (User.id user1) (User.id user2) = true)
    pares →
  crear_amistades_desde pares db = Termina db.
Proof.
  induction 1 as [|[n1 n2] resto (user1 & user2 & H1 & H2 & Hamigos) _ IH].
  - done.
  - simpl. by rewrite H1, H2, Hamigos.
Qed.

(** X30. [crear_amistades] never ends in an [IntegrityError]; it stops with
    [User.DoesNotExist] only when a username of its list is not stored;
    otherwise every pair of the list is a pair of friends afterwards, the
    friendships from before remain, users and requests are untouched, and
    running it again changes nothing. *)
Theorem crear_amistades_red db :
  match crear_amistades db with
  | Termina db' =>
      (∀ user1_name user2_name,
          (user1_name, user2_name) ∈ lista_amistades →
          ∃ user1 user2,
            User_objects_get_username db user1_name = Some user1
            ∧ User_objects_get_username db user2_name = Some user2
            ∧ son_amigos db' (User.id user1) (User.id user2) = true)
      ∧ (∀ a b, son_amigos db a b = true → son_amigos db' a b = true)
      ∧ usuarios db' = usuarios db
      ∧ solicitudes db' = solicitudes db
      ∧ crear_amistades db' = Termina db'
  | UsuarioNoExiste =>
      ∃ user1_name user2_name,
        (user1_name, user2_name) ∈ lista_amistades
        ∧ (User_objects_get_username db user1_name = None
           ∨ User_objects_get_username db user2_name = None)
  | AmistadRepetida => False
  end.
Proof.
  unfold crear_amistades.
  pose proof (crear_amistades_desde_detalle lista_amistades db) as H.
  destruct (crear_amistades_desde lista_amistades db) as [db'| |]; [| |done].
  - destruct H as (Hu & Hs & Ham & Hpares).
    split; [|split; [|split; [done|split; [done|]]]].
    + intros n1 n2 Hin. rewrite Forall_forall in Hpares.
      apply (Hpares _ Hin).
    + intros a b. by apply son_amigos_mas.
    + apply crear_amistades_desde_estable.
      eapply Forall_impl; [exact Hpares|]. intros [n1 n2].
      by rewrite !(User_objects_get_username_usuarios db db' _ Hu).
  - apply Exists_exists in H as ([n1 n2] & Hin & Hcaso). by exists n1, n2.
Qed.

Example crear_amistades_prueba :
  ∃ db', crear_amistades Prueba.db = Termina db'
         ∧ length (amistades db') = 10%nat
         ∧ bien_formada db'.
Proof.
  eexists. split; [vm_compute; reflexivity|]. split; [reflexivity|].
  split; apply (bool_decide_unpack _); vm_compute; exact I.
Qed.
